(** * Clicker designer: 3D composition and export engine

  A shallow embedding of [src/lib/Scene.svelte], [src/lib/keycapPositions.ts]
  and the [getDefaultPositions] helper of [App.svelte], followed by the
  properties proved of it.

  Conventions of the embedding.
  - A JavaScript [number] that carries a length or a coordinate is a
    rational [Q]: every finite double is a rational, and the arithmetic
    is taken exact (rounding, NaN and the infinities are left out).
    Equality of coordinates is therefore [Qeq], written [==].
  - A key count or an array index is an integer ([Z] or [nat]).
  - A three.js [BufferGeometry] is the list of its vertex positions and
    has at least one vertex, so that its bounding box is finite.
  - A Svelte store that is still loading holds [None].
  - [rotation.x = ±Math.PI / 2] and [Math.PI] are exact quarter turns.
  - [Math.tan] and [Math.PI], as used for the camera distance, are
    parameters ([MathLib]).

  - A [Uint8Array] is the list of its bytes; a JavaScript object used as
    a map ([svgGeometryByUrl], the per-count records of a design, the
    [Map] of asset URLs) is a [gmap]; an optional field that is absent is
    [None]; an exception is [None] in an [option] result.

  Layout of the file: the modules [Num], [Three], [Positions], [Js],
  [Layout], [Legend], [Exporter] and [Snapshot] hold the embedding of the
  scene; [PixelRows], [StlOutput] and [IconCache] hold the pixel loop of
  the snapshot, the vertices written to a file and the runs of the icon
  effect; [SvgAssets] and [App] hold [svgAssets.ts] and the design list
  of [App.svelte] with the props it hands to the scene. [Spec] and
  [Notions] hold the notions the statements use, [Examples] and
  [MoreExamples] the concrete inputs; the sections after them hold the
  lemmas and theorems. *)

From Stdlib Require Import ZArith QArith Qminmax Qabs Lqa Lia List String Ascii.
From Stdlib Require Import DecimalString DecimalNat DecimalZ.
From stdpp Require Import gmap strings list.

Local Open Scope Q_scope.

(** ** Rational helpers: [Math.max], [Math.min] and folds over them *)

Module Num.

(** [Math.max(a, b, c)] *)
Definition max3 (a b c : Q) : Q := Qmax (Qmax a b) c.

(** [Math.max(a, b, c, d)] *)
Definition max4 (a b c d : Q) : Q := Qmax (max3 a b c) d.

(** Least and greatest element of the non-empty sequence [a :: l],
    accumulated left to right as [Box3.expandByPoint] does. *)
Definition qmin_list (a : Q) (l : list Q) : Q := fold_left Qmin l a.
Definition qmax_list (a : Q) (l : list Q) : Q := fold_left Qmax l a.

(** JavaScript truthiness of a number, NaN aside: [x || d]. *)
Definition or_default (x d : Q) : Q := if Qeq_bool x 0 then d else x.

(** [a > b] on numbers. *)
Definition gtb (a b : Q) : bool := negb (Qle_bool a b).

(** [Math.min(7, Math.max(1, n))] on integers. *)
Definition clampKeys (n : Z) : Z := Z.min 7 (Z.max 1 n).

End Num.

(** ** three.js vectors, boxes and geometries *)

Module Three.

Definition Vector3 : Type := Q * Q * Q.

Definition vx (v : Vector3) : Q := fst (fst v).
Definition vy (v : Vector3) : Q := snd (fst v).
Definition vz (v : Vector3) : Q := snd v.

(** Component-wise [==]. *)
Definition veq (u v : Vector3) : Prop :=
  vx u == vx v /\ vy u == vy v /\ vz u == vz v.

(** A non-empty [Box3]: [min] and [max] corners. *)
Record Box : Type := mkBox { bmin : Vector3; bmax : Vector3 }.

(** [Box3]: [None] is the empty box ([new Box3()] before any point). *)
Definition Box3 : Type := option Box.

(** [box.union(other)] *)
Definition unionBox (a b : Box) : Box :=
  {| bmin := (Qmin (vx (bmin a)) (vx (bmin b)),
              Qmin (vy (bmin a)) (vy (bmin b)),
              Qmin (vz (bmin a)) (vz (bmin b)));
     bmax := (Qmax (vx (bmax a)) (vx (bmax b)),
              Qmax (vy (bmax a)) (vy (bmax b)),
              Qmax (vz (bmax a)) (vz (bmax b))) |}.

Definition union (a b : Box3) : Box3 :=
  match a, b with
  | None, _ => b
  | _, None => a
  | Some x, Some y => Some (unionBox x y)
  end.

(** [box.getCenter(target)] of a non-empty box: [(min + max) * 0.5]. *)
Definition centerOf (b : Box) : Vector3 :=
  ((vx (bmin b) + vx (bmax b)) * (1 # 2),
   (vy (bmin b) + vy (bmax b)) * (1 # 2),
   (vz (bmin b) + vz (bmax b)) * (1 # 2)).

(** [box.getSize(target)] of a non-empty box: [max - min]. *)
Definition sizeOf (b : Box) : Vector3 :=
  (vx (bmax b) - vx (bmin b),
   vy (bmax b) - vy (bmin b),
   vz (bmax b) - vz (bmin b)).

(** [Box3.getCenter] and [Box3.getSize]: the zero vector on the empty box. *)
Definition getCenter (b : Box3) : Vector3 :=
  match b with Some x => centerOf x | None => (0, 0, 0) end.
Definition getSize (b : Box3) : Vector3 :=
  match b with Some x => sizeOf x | None => (0, 0, 0) end.

(** A geometry: its vertices, at least one. *)
Record BufferGeometry : Type :=
  mkGeometry { vertex0 : Vector3; vertices' : list Vector3 }.

Definition vertices (g : BufferGeometry) : list Vector3 :=
  vertex0 g :: vertices' g.

Definition minOf (f : Vector3 -> Q) (g : BufferGeometry) : Q :=
  Num.qmin_list (f (vertex0 g)) (map f (vertices' g)).
Definition maxOf (f : Vector3 -> Q) (g : BufferGeometry) : Q :=
  Num.qmax_list (f (vertex0 g)) (map f (vertices' g)).

(** [geom.computeBoundingBox(); geom.boundingBox] *)
Definition boundingBox (g : BufferGeometry) : Box :=
  {| bmin := (minOf vx g, minOf vy g, minOf vz g);
     bmax := (maxOf vx g, maxOf vy g, maxOf vz g) |}.

(** The extent of a geometry along one coordinate. *)
Definition extent (f : Vector3 -> Q) (g : BufferGeometry) : Q :=
  maxOf f g - minOf f g.

Definition mapGeometry (f : Vector3 -> Vector3) (g : BufferGeometry)
  : BufferGeometry :=
  {| vertex0 := f (vertex0 g); vertices' := map f (vertices' g) |}.

(** [geom.translate(x, y, z)] and [geom.scale(x, y, z)] *)
Definition translate (t : Vector3) (g : BufferGeometry) : BufferGeometry :=
  mapGeometry (fun v => (vx v + vx t, vy v + vy t, vz v + vz t)) g.
Definition scale (s : Vector3) (g : BufferGeometry) : BufferGeometry :=
  mapGeometry (fun v => (vx v * vx s, vy v * vy s, vz v * vz s)) g.

(** The angles the scene uses, with their exact cosine and sine. *)
Inductive Angle : Type := Rad0 | HalfPi | Pi | NegHalfPi.

Definition cosA (a : Angle) : Q :=
  match a with Rad0 => 1 | HalfPi => 0 | Pi => -1 | NegHalfPi => 0 end.
Definition sinA (a : Angle) : Q :=
  match a with Rad0 => 0 | HalfPi => 1 | Pi => 0 | NegHalfPi => -1 end.

(** The transform of an [Object3D]: position, Euler rotation (order XYZ)
    and scale. *)
Record Object3D : Type := mkObject3D {
  position : Vector3;
  rotation : Angle * Angle * Angle;
  scaling : Vector3
}.

(** [Matrix4.makeRotationFromEuler], order XYZ, applied to a vector. *)
Definition rotate (r : Angle * Angle * Angle) (v : Vector3) : Vector3 :=
  let '(rx, ry, rz) := r in
  let a := cosA rx in let b := sinA rx in
  let c := cosA ry in let d := sinA ry in
  let e := cosA rz in let f := sinA rz in
  let ae := a * e in let af := a * f in
  let be := b * e in let bf := b * f in
  ((c * e) * vx v + (- (c * f)) * vy v + d * vz v,
   (af + be * d) * vx v + (ae - bf * d) * vy v + (- (b * c)) * vz v,
   (bf - ae * d) * vx v + (be + af * d) * vy v + (a * c) * vz v).

(** [Matrix4.compose(position, quaternion, scale)] applied to a local
    point: scale, then rotate, then translate. *)
Definition localToWorld (o : Object3D) (v : Vector3) : Vector3 :=
  let s := scaling o in
  let w := rotate (rotation o) (vx v * vx s, vy v * vy s, vz v * vz s) in
  (vx w + vx (position o), vy w + vy (position o), vz w + vz (position o)).

(** Lowest and highest world Y reached by a mesh. *)
Definition worldMinY (o : Object3D) (g : BufferGeometry) : Q :=
  minOf (fun v => vy (localToWorld o v)) g.
Definition worldMaxY (o : Object3D) (g : BufferGeometry) : Q :=
  maxOf (fun v => vy (localToWorld o v)) g.

End Three.

(** ** [keycapPositions.ts] *)

Module Positions.
Import Three.

(** Default keycap positions per key count (1-7): [[x, y, z]] in mm.
    The source writes [-0] for one z entry; it is [0] here. *)
Definition KEYCAP_POSITIONS : list (list Vector3) :=
  [ [(4.5, 0, 0)];
    [(-6.5, 0, 0); (15.5, 0, 0)];
    [(-17.7, 0, 0); (4.5, 0, 0); (26.7, 0, 0)];
    [(-28.8, 0, 0); (-6.6, 0, 0); (15.6, 0, 0); (37.8, 0, 0)];
    [(-39.9, 0, 0); (-17.7, 0, 0); (4.5, 0, 0); (26.7, 0, 0); (48.8, 0, 0)];
    [(-51, 0, 0); (-28.8, 0, 0); (-6.7, 0, 0); (15.5, 0, 0); (37.7, 0, 0);
     (60, 0, 0)];
    [(-62, 0, 0); (-40, 0, 0); (-17.8, 0, 0); (4.5, 0, 0); (26.7, 0, 0);
     (49, 0, 0); (71, 0, 0)] ].

(** [arr[i]] for an integer index: [undefined] out of range. *)
Definition at_index {A : Type} (l : list A) (i : Z) : option A :=
  if (i <? 0)%Z then None else l !! Z.to_nat i.

(** [App.svelte]: [getDefaultPositions(n)], the entries as [(x, y, z)]. *)
Definition getDefaultPositions (n : Z) : list Vector3 :=
  let defaults :=
    default [] (at_index KEYCAP_POSITIONS (Num.clampKeys n - 1)) in
  map (fun p => (vx p, vy p, vz p)) defaults.

End Positions.

(** ** JavaScript strings (ASCII fragment) *)

Module Js.

(** White space removed by [String.prototype.trim]: tab, line feed,
    vertical tab, form feed, carriage return and space. *)
Definition is_space (c : ascii) : bool :=
  let n := nat_of_ascii c in
  ((9 <=? n)%nat && (n <=? 13)%nat) || (n =? 32)%nat.

Fixpoint trimStart (s : string) : string :=
  match s with
  | EmptyString => EmptyString
  | String c s' => if is_space c then trimStart s' else s
  end.

Definition trimEnd (s : string) : string :=
  String.rev (trimStart (String.rev s)).

(** [s.trim()] *)
Definition trim (s : string) : string := trimEnd (trimStart s).

Definition upper_ascii (c : ascii) : ascii :=
  let n := nat_of_ascii c in
  if ((97 <=? n)%nat && (n <=? 122)%nat)%bool
  then ascii_of_nat (n - 32) else c.

(** [s.toUpperCase()] *)
Fixpoint toUpperCase (s : string) : string :=
  match s with
  | EmptyString => EmptyString
  | String c s' => String (upper_ascii c) (toUpperCase s')
  end.

(** [s.slice(0, 1)] *)
Definition slice01 (s : string) : string :=
  match s with
  | EmptyString => EmptyString
  | String c _ => String c EmptyString
  end.

(** Truthiness of a string: non-empty. *)
Definition truthy (s : string) : bool :=
  match s with EmptyString => false | _ => true end.

(** [`${n}`] for a natural number: its decimal digits. *)
Definition decimal (n : nat) : string := NilEmpty.string_of_uint (Nat.to_uint n).

(** The same for a number held in binary (a time stamp). *)
Definition decimalN (n : N) : string := NilEmpty.string_of_uint (N.to_uint n).

End Js.

(** ** The layout engine of [Scene.svelte] *)

Module Layout.
Import Three Positions.

(** The component's props that the engine reads, after defaulting. *)
Record Props : Type := mkProps {
  showBorder : bool;
  numberOfKeys : Z;
  keycapPositionsProp : option (list Vector3);
  keycapLetters : list string;
  keycapSvgUrls : list (option string);
  keycapSvgSizeMm : Q;
  textSizeMm : Q
}.

(** The outline of a glyph or of an icon shape: its contour points. *)
Record Outline : Type := mkOutline { point0 : Q * Q; points' : list (Q * Q) }.

(** A parsed font: the outline of a character at size 1. *)
Definition Font : Type := string -> Outline.

(** What has been loaded so far: the STL stores by URL, the font, and the
    cache of icon geometries by URL ([svgGeometryByUrl]). *)
Record Assets : Type := mkAssets {
  load : string -> option BufferGeometry;
  font : option Font;
  svgGeometryByUrl : gmap string BufferGeometry
}.

Definition CLICKER_URLS : list string :=
  [ "clicker_1.stl"; "clicker_2.stl"; "clicker_3.stl"; "clicker_4.stl";
    "clicker_5.stl"; "clicker_6.stl"; "clicker_7.stl" ]%string.
Definition keycapStl : string := "keycap.stl".
Definition borderStl : string := "border.stl".

Definition FILE_TO_MM : Q := 1.
Definition LEGEND_DEPTH_MM : Q := 1.2.
Definition SVG_EXTRUDE_DEPTH : Q := 2.

Definition geometryStores (a : Assets) : list (option BufferGeometry) :=
  map (load a) CLICKER_URLS.

Definition keyIndex (p : Props) : Z := Num.clampKeys (numberOfKeys p) - 1.

Definition currentGeometryStore (p : Props) (a : Assets)
  : option (option BufferGeometry) :=
  at_index (geometryStores a) (keyIndex p).

(** [$stlGeometry]: the value of the selected store, if any. *)
Definition stlGeometry (p : Props) (a : Assets) : option BufferGeometry :=
  match currentGeometryStore p a with
  | Some (Some g) => Some g
  | _ => None
  end.

Definition keycapGeometryStore (a : Assets) : option BufferGeometry :=
  load a keycapStl.
Definition borderGeometryStore (a : Assets) : option BufferGeometry :=
  load a borderStl.

(** [keycapPositionsProp?.length ? keycapPositionsProp
     : (KEYCAP_POSITIONS[keyIndex] ?? [])] *)
Definition keycapPositions (p : Props) : list Vector3 :=
  match keycapPositionsProp p with
  | Some (v :: l) => v :: l
  | _ => default [] (at_index KEYCAP_POSITIONS (keyIndex p))
  end.

(** [computeBoundingBox] always leaves a box, so the [if (!box)] guards
    of the source are never taken and have no counterpart below. *)
Definition meshPosition (p : Props) (a : Assets) : Vector3 :=
  match stlGeometry p a with
  | None => (0, 0, 0)
  | Some geom =>
      let box := boundingBox geom in
      let center := centerOf box in
      (- vx center, - vz (bmin box), vy center)
  end.

Definition clickerTopY (p : Props) (a : Assets) : Q :=
  match stlGeometry p a with
  | None => 0
  | Some geom =>
      let box := boundingBox geom in
      vy (meshPosition p a) + vz (bmax box)
  end.

Record KeycapOffset : Type :=
  mkKeycapOffset { kcenter : Vector3; kminZ : Q; kmaxZ : Q }.

Definition keycapOffset (a : Assets) : KeycapOffset :=
  match keycapGeometryStore a with
  | None => {| kcenter := (0, 0, 0); kminZ := 0; kmaxZ := 0 |}
  | Some geom =>
      let box := boundingBox geom in
      {| kcenter := centerOf box;
         kminZ := vz (bmin box);
         kmaxZ := vz (bmax box) |}
  end.

Definition keycapMeshPositions (p : Props) (a : Assets) : list Vector3 :=
  let offset := keycapOffset a in
  let topY := clickerTopY p a in
  map (fun '(x, y, z) =>
         (x - vx (kcenter offset),
          topY + y - kminZ offset,
          z + vy (kcenter offset)))
      (keycapPositions p).

Record BorderOffset : Type := mkBorderOffset { bcenter : Vector3; bminZ : Q }.

Definition borderOffset (a : Assets) : BorderOffset :=
  match borderGeometryStore a with
  | None => {| bcenter := (0, 0, 0); bminZ := 0 |}
  | Some geom =>
      let box := boundingBox geom in
      {| bcenter := centerOf box; bminZ := vz (bmin box) |}
  end.

Definition keycapHeight (a : Assets) : Q :=
  kmaxZ (keycapOffset a) - kminZ (keycapOffset a).

(** The two locals every placement computes from a slot's [y]. *)
Definition keycapBottomY (p : Props) (a : Assets) (y : Q) : Q :=
  clickerTopY p a + y - kminZ (keycapOffset a).
Definition keycapTopY (p : Props) (a : Assets) (y : Q) : Q :=
  keycapBottomY p a y + (kmaxZ (keycapOffset a) - kminZ (keycapOffset a)).

Definition borderMeshPositions (p : Props) (a : Assets) : list Vector3 :=
  let border := borderOffset a in
  map (fun '(x, y, z) =>
         let keycapBottomY := clickerTopY p a + y - kminZ (keycapOffset a) in
         let keycapTopY := keycapBottomY + keycapHeight a in
         let borderPosY := keycapTopY - bminZ border in
         (x - vx (bcenter border), borderPosY, z + vy (bcenter border)))
      (keycapPositions p).

(** [ExtrudeGeometry(shape, { depth, bevelEnabled: false })]: the contour
    at [z = 0] and at [z = depth]. *)
Definition extrude (o : Outline) (depth : Q) : BufferGeometry :=
  let at_z (z : Q) := fun q : Q * Q => (fst q, snd q, z) in
  {| vertex0 := at_z 0 (point0 o);
     vertices' := map (at_z 0) (points' o)
                  ++ map (at_z depth) (point0 o :: points' o) |}.

(** [box.getCenter(center); geom.translate(-center.x, -center.y, -center.z)] *)
Definition recenter (g : BufferGeometry) : BufferGeometry :=
  let center := centerOf (boundingBox g) in
  translate (- vx center, - vy center, - vz center) g.

(** The centred geometry of a letter, as both the display and the export
    build it. *)
Definition textGeometry (f : Font) (p : Props) (letter : string)
  : BufferGeometry :=
  recenter (extrude (f (Js.slice01 (Js.toUpperCase letter)))
                    (LEGEND_DEPTH_MM / textSizeMm p)).

Record SvgSlot : Type := mkSvgSlot { slot_position : Vector3; slot_url : string }.

Definition keycapSvgSlots (p : Props) (a : Assets) : list SvgSlot :=
  let urls := keycapSvgUrls p in
  let positions := keycapPositions p in
  let offset := keycapOffset a in
  let topY := clickerTopY p a in
  match urls, positions with
  | [], _ | _, [] => []
  | _, _ =>
      omap id
        (imap (fun i '(x, y, z) =>
                 match mjoin (urls !! i) with
                 | None => None
                 | Some url =>
                     if Js.truthy (Js.trim url) then
                       let keycapBottomY := topY + y - kminZ offset in
                       let keycapTopY :=
                         keycapBottomY + (kmaxZ offset - kminZ offset) in
                       Some {| slot_position := (x, keycapTopY, z);
                               slot_url := url |}
                     else None
                 end)
              positions)
  end.

Record Label : Type :=
  mkLabel { label_geometry : BufferGeometry; label_position : Vector3 }.

(** [urls?.[i]] is truthy: a non-empty URL is assigned to key [i]. *)
Definition has_url (urls : list (option string)) (i : nat) : bool :=
  match mjoin (urls !! i) with
  | Some u => Js.truthy u
  | None => false
  end.

Definition keycapLabels (p : Props) (a : Assets) : list Label :=
  let letters := keycapLetters p in
  let urls := keycapSvgUrls p in
  let positions := keycapPositions p in
  let offset := keycapOffset a in
  let topY := clickerTopY p a in
  match font a, letters, positions with
  | None, _, _ | _, [], _ | _, _, [] => []
  | Some f, _, _ =>
      omap id
        (imap (fun i letter =>
                 if has_url urls i then None
                 else
                   match positions !! i with
                   | None => None
                   | Some (x, y, z) =>
                       if Js.truthy (Js.trim letter) then
                         let geom := textGeometry f p letter in
                         let keycapBottomY := topY + y - kminZ offset in
                         let keycapTopY :=
                           keycapBottomY + (kmaxZ offset - kminZ offset) in
                         Some {| label_geometry := geom;
                                 label_position := (x, keycapTopY, z) |}
                       else None
                   end)
              letters)
  end.

(** The [T.Mesh] elements of the template, as transforms. *)
Definition bodyMesh (p : Props) (a : Assets) : Object3D :=
  {| position := meshPosition p a;
     rotation := (NegHalfPi, Rad0, Rad0);
     scaling := (FILE_TO_MM, FILE_TO_MM, FILE_TO_MM) |}.
Definition keycapMesh (pos : Vector3) : Object3D :=
  {| position := pos;
     rotation := (NegHalfPi, Rad0, Rad0);
     scaling := (FILE_TO_MM, FILE_TO_MM, FILE_TO_MM) |}.
Definition borderMesh (pos : Vector3) : Object3D :=
  {| position := pos;
     rotation := (NegHalfPi, Rad0, Rad0);
     scaling := (FILE_TO_MM, FILE_TO_MM, FILE_TO_MM) |}.
Definition labelMesh (p : Props) (pos : Vector3) : Object3D :=
  {| position := pos;
     rotation := (HalfPi, Rad0, Rad0);
     scaling := (textSizeMm p * FILE_TO_MM,
                 - textSizeMm p * FILE_TO_MM,
                 textSizeMm p * FILE_TO_MM) |}.
Definition svgMesh (p : Props) (pos : Vector3) : Object3D :=
  {| position := pos;
     rotation := (HalfPi, Rad0, Rad0);
     scaling := (keycapSvgSizeMm p * FILE_TO_MM,
                 keycapSvgSizeMm p * FILE_TO_MM,
                 LEGEND_DEPTH_MM * FILE_TO_MM) |}.

End Layout.

(** ** Icon legends: the [svgGeometryByUrl] effect of [Scene.svelte] *)

Module Legend.
Import Three Layout.

(** [BufferGeometryUtils.mergeGeometries]: all vertices, in order;
    nothing to merge gives no geometry. *)
Definition mergeGeometries (gs : list BufferGeometry) : option BufferGeometry :=
  match gs with
  | [] => None
  | g :: rest =>
      Some {| vertex0 := vertex0 g;
              vertices' := vertices' g ++ flat_map vertices rest |}
  end.

(** The normalisation applied to the merged geometry: recentre, scale by
    [1 / Math.max(size.x, size.y, size.z, 0.001)], then bring the depth
    to 1 when it exceeds 0.001. *)
Definition normalize (merged : BufferGeometry) : BufferGeometry :=
  let merged := recenter merged in
  let size := sizeOf (boundingBox merged) in
  let maxDim := Num.max4 (vx size) (vy size) (vz size) 0.001 in
  let scale := 1 / maxDim in
  let merged := Three.scale (scale, scale, scale) merged in
  let box := boundingBox merged in
  let zSize := vz (bmax box) - vz (bmin box) in
  if Num.gtb zSize 0.001
  then Three.scale (1, 1, 1 / zSize) merged
  else merged.

(** From the shapes of the parsed SVG to the cached geometry; [None] when
    the SVG yields no shape. *)
Definition synthesize (shapes : list Outline) : option BufferGeometry :=
  let geometries := map (fun shape => extrude shape SVG_EXTRUDE_DEPTH) shapes in
  match geometries with
  | [] => None
  | [g] => Some (normalize g)
  | _ => normalize <$> mergeGeometries geometries
  end.

(** One fetch of the effect: [fetched] is the parsed response, [None] when
    the fetch or the parse failed (the [catch] swallows it). A URL already
    in the cache is not fetched again. *)
Definition loadSvg (url : string) (fetched : option (list Outline))
    (cache : gmap string BufferGeometry) : gmap string BufferGeometry :=
  match cache !! url with
  | Some _ => cache
  | None =>
      match fetched ≫= synthesize with
      | Some merged => <[url := merged]> cache
      | None => cache
      end
  end.

End Legend.

(** ** The export assembler: [exportKeycapStl] *)

Module Exporter.
Import Three Layout.

Inductive PartKind : Type :=
| KeycapPart
| BorderPart
| IconPart (url : string)
| LetterPart (char : string).

(** A mesh added to the transient group. *)
Record Part : Type := mkPart {
  part_kind : PartKind;
  part_object : Object3D;
  part_geometry : BufferGeometry
}.

(** A downloaded STL: its name and the meshes of the group, which the
    root rotates by [Math.PI / 2] about X as a whole. *)
Record StlFile : Type := mkStlFile {
  file_name : string;
  root_rotation : Angle * Angle * Angle;
  file_parts : list Part
}.

(** [keycapLetters[i]?.trim()] and [keycapSvgUrls[i]?.trim()]; [None] is
    [undefined]. *)
Definition letterAt (p : Props) (i : nat) : option string :=
  Js.trim <$> (keycapLetters p !! i).
Definition svgUrlAt (p : Props) (i : nat) : option string :=
  Js.trim <$> mjoin (keycapSvgUrls p !! i).

(** Truthiness of an optional string. *)
Definition truthy (s : option string) : bool :=
  match s with Some x => Js.truthy x | None => false end.

(** The file name chosen for keycap [i] (0-based). *)
Definition exportName (p : Props) (i : nat) : string :=
  let letter := letterAt p i in
  let svgUrl := svgUrlAt p i in
  if truthy letter && negb (truthy svgUrl)
  then "keycap-" +:+ Js.decimal (i + 1) +:+ "-"
       +:+ Js.toUpperCase (default "" letter) +:+ ".stl"
  else "keycap-" +:+ Js.decimal (i + 1) +:+ ".stl".

(** The legend mesh of keycap [i], if any: the icon when its geometry is
    cached, else the letter when a font is loaded. *)
Definition legendPart (p : Props) (a : Assets) (i : nat) (slot : Vector3)
  : list Part :=
  let scaleMm := FILE_TO_MM in
  let textScaleXY := textSizeMm p * scaleMm in
  let textScaleZ := textSizeMm p * scaleMm in
  let legendDepthScaleZ := LEGEND_DEPTH_MM * scaleMm in
  let letter := letterAt p i in
  let svgUrl := svgUrlAt p i in
  let '(x, y, z) := slot in
  let keycapBottomY := clickerTopY p a + y - kminZ (keycapOffset a) in
  let keycapTopY :=
    keycapBottomY + (kmaxZ (keycapOffset a) - kminZ (keycapOffset a)) in
  let cached :=
    if truthy svgUrl
    then svgGeometryByUrl a !! default "" svgUrl
    else None in
  match cached with
  | Some geom =>
      [ {| part_kind := IconPart (default "" svgUrl);
           part_object :=
             {| position := (x, keycapTopY, z);
                rotation := (HalfPi, Pi, Rad0);
                scaling := (keycapSvgSizeMm p * scaleMm,
                            keycapSvgSizeMm p * scaleMm,
                            legendDepthScaleZ) |};
           part_geometry := geom |} ]
  | None =>
      match font a with
      | Some f =>
          if truthy letter then
            let l := default "" letter in
            [ {| part_kind := LetterPart (Js.slice01 (Js.toUpperCase l));
                 part_object :=
                   {| position := (x, keycapTopY, z);
                      rotation := (HalfPi, Pi, Pi);
                      scaling := (textScaleXY, textScaleXY, textScaleZ) |};
                 part_geometry := textGeometry f p l |} ]
          else []
      | None => []
      end
  end.

(** One turn of the loop; [None] when [i >= positions.length]. *)
Definition exportOne (p : Props) (a : Assets) (keycapGeom : BufferGeometry)
    (i : nat) : option StlFile :=
  let positions := keycapMeshPositions p a in
  let borderPositions := borderMeshPositions p a in
  let scaleMm := FILE_TO_MM in
  match positions !! i, keycapPositions p !! i with
  | Some pos, Some slot =>
      let keycapPt :=
        {| part_kind := KeycapPart;
           part_object :=
             {| position := pos;
                rotation := (NegHalfPi, Rad0, Rad0);
                scaling := (scaleMm, scaleMm, scaleMm) |};
           part_geometry := keycapGeom |} in
      let borderPt :=
        match showBorder p, borderGeometryStore a, borderPositions !! i with
        | true, Some borderGeom, Some bpos =>
            [ {| part_kind := BorderPart;
                 part_object :=
                   {| position := bpos;
                      rotation := (NegHalfPi, Rad0, Rad0);
                      scaling := (scaleMm, scaleMm, scaleMm) |};
                 part_geometry := borderGeom |} ]
        | _, _, _ => []
        end in
      Some {| file_name := exportName p i;
              root_rotation := (HalfPi, Rad0, Rad0);
              file_parts := keycapPt :: borderPt ++ legendPart p a i slot |}
  | _, _ => None
  end.

(** What a call leaves behind: the downloads, in order, and whether
    [onKeycapStlDownloaded] was called. *)
Record ExportResult : Type := mkExportResult {
  files : list StlFile;
  batchDone : bool
}.

Definition exportKeycapStl (p : Props) (a : Assets) (keycapIndex : option nat)
  : ExportResult :=
  match keycapGeometryStore a with
  | None => {| files := []; batchDone := false |}
  | Some keycapGeom =>
      let positions := keycapMeshPositions p a in
      let indices :=
        match keycapIndex with
        | Some i => [i]
        | None => seq 0 (length positions)
        end in
      {| files := omap (exportOne p a keycapGeom) indices;
         batchDone := true |}
  end.

End Exporter.

(** ** The snapshot renderer: [captureView], [getModelBox],
    [distanceToFit], [takeSnapshot] *)

Module Snapshot.
Import Three.

Definition SNAPSHOT_SIZE : Z := 1536.
Definition FOV_DEG : Q := 45.
Definition MAX_MESH_SIZE : Q := 150.

(** A colour, by its hexadecimal name. *)
Definition Color : Type := string.
Definition SNAPSHOT_BG : Color := "#d4d4d4"%string.

(** The part of [Math] the renderer calls. *)
Record MathLib : Type := mkMath { PI : Q; tan : Q -> Q }.

Record Mesh : Type := mkMesh { object3d : Object3D; geometry : BufferGeometry }.

(** A scene: its background, a flat colour or not, and its meshes in
    traversal order (lights and cameras are no [Mesh]). *)
Record Scene : Type := mkScene { background : option Color; meshes : list Mesh }.

Record Camera : Type := mkCamera {
  cam_fov : Q;
  cam_position : Vector3;
  cam_lookAt : Vector3
}.

Record RenderTarget : Type := mkTarget {
  rt_id : nat;
  rt_width : Z;
  rt_height : Z;
  rt_colorSpace : string
}.

(** What a render pass leaves in a colour buffer, and the row order in
    which it is held ([topDown = false] as read back from the GPU). *)
Record Frame : Type := mkFrame {
  px_scene : Scene;
  px_camera : Camera;
  px_clearColor : Color;
  px_clearAlpha : Q;
  px_width : Z;
  px_height : Z;
  px_topDown : bool
}.

(** A pixel buffer: [None] is a buffer still filled with zeros. *)
Definition Pixels : Type := option Frame.

(** The state of a [WebGLRenderer]: the clear colour and alpha, the
    active render target ([None] is the canvas), the contents of the
    live offscreen targets, and the next target id. *)
Record WebGLRenderer : Type := mkRenderer {
  clearColor : Color;
  clearAlpha : Q;
  renderTarget : option RenderTarget;
  canvasPixels : Pixels;
  offscreen : list (nat * Pixels);
  nextTarget : nat
}.

Definition getClearColor (r : WebGLRenderer) : Color := clearColor r.
Definition getClearAlpha (r : WebGLRenderer) : Q := clearAlpha r.

(** [renderer.setClearColor(color, alpha = 1)] sets both. *)
Definition setClearColor (c : Color) (alpha : Q) (r : WebGLRenderer)
  : WebGLRenderer :=
  {| clearColor := c; clearAlpha := alpha; renderTarget := renderTarget r;
     canvasPixels := canvasPixels r; offscreen := offscreen r;
     nextTarget := nextTarget r |}.

Definition setClearAlpha (alpha : Q) (r : WebGLRenderer) : WebGLRenderer :=
  {| clearColor := clearColor r; clearAlpha := alpha;
     renderTarget := renderTarget r; canvasPixels := canvasPixels r;
     offscreen := offscreen r; nextTarget := nextTarget r |}.

Definition setRenderTarget (t : option RenderTarget) (r : WebGLRenderer)
  : WebGLRenderer :=
  {| clearColor := clearColor r; clearAlpha := clearAlpha r;
     renderTarget := t; canvasPixels := canvasPixels r;
     offscreen := offscreen r; nextTarget := nextTarget r |}.

(** [new WebGLRenderTarget(w, h)] with [texture.colorSpace] set. *)
Definition newRenderTarget (w h : Z) (colorSpace : string) (r : WebGLRenderer)
  : RenderTarget * WebGLRenderer :=
  let rt := {| rt_id := nextTarget r; rt_width := w; rt_height := h;
               rt_colorSpace := colorSpace |} in
  (rt,
   {| clearColor := clearColor r; clearAlpha := clearAlpha r;
      renderTarget := renderTarget r; canvasPixels := canvasPixels r;
      offscreen := (rt_id rt, None) :: offscreen r;
      nextTarget := S (nextTarget r) |}).

(** Writing the active buffer: the canvas or an offscreen target. *)
Definition writeActive (px : Pixels) (r : WebGLRenderer)
  : WebGLRenderer :=
  match renderTarget r with
  | None =>
      {| clearColor := clearColor r; clearAlpha := clearAlpha r;
         renderTarget := renderTarget r; canvasPixels := px;
         offscreen := offscreen r; nextTarget := nextTarget r |}
  | Some rt =>
      {| clearColor := clearColor r; clearAlpha := clearAlpha r;
         renderTarget := renderTarget r; canvasPixels := canvasPixels r;
         offscreen := (rt_id rt, px) :: offscreen r;
         nextTarget := nextTarget r |}
  end.

Definition activeSize (r : WebGLRenderer) : Z * Z :=
  match renderTarget r with
  | Some rt => (rt_width rt, rt_height rt)
  | None => (0, 0)%Z
  end.

(** [renderer.clear()] and [renderer.render(scene, cam)] *)
Definition clear (r : WebGLRenderer) : WebGLRenderer := writeActive None r.
Definition render (scene : Scene) (cam : Camera) (r : WebGLRenderer)
  : WebGLRenderer :=
  writeActive
    (Some {| px_scene := scene; px_camera := cam;
             px_clearColor := clearColor r; px_clearAlpha := clearAlpha r;
             px_width := fst (activeSize r); px_height := snd (activeSize r);
             px_topDown := false |}) r.

Fixpoint lookupTarget (id : nat) (l : list (nat * Pixels)) : Pixels :=
  match l with
  | [] => None
  | (k, px) :: l' => if Nat.eqb k id then px else lookupTarget id l'
  end.

(** [renderer.readRenderTargetPixels(rt, 0, 0, w, h, pixels)] *)
Definition readRenderTargetPixels (rt : RenderTarget) (r : WebGLRenderer)
  : Pixels :=
  lookupTarget (rt_id rt) (offscreen r).

(** [rt.dispose()] *)
Definition dispose (rt : RenderTarget) (r : WebGLRenderer) : WebGLRenderer :=
  {| clearColor := clearColor r; clearAlpha := clearAlpha r;
     renderTarget := renderTarget r; canvasPixels := canvasPixels r;
     offscreen := List.filter (fun e => negb (Nat.eqb (fst e) (rt_id rt)))
                         (offscreen r);
     nextTarget := nextTarget r |}.

Definition captureView (renderer : WebGLRenderer) (scene : Scene)
    (position target : Vector3) : Pixels * WebGLRenderer :=
  let '(rt, renderer) :=
    newRenderTarget SNAPSHOT_SIZE SNAPSHOT_SIZE "srgb" renderer in
  let cam := {| cam_fov := FOV_DEG; cam_position := position;
                cam_lookAt := target |} in
  let prevClearColor := getClearColor renderer in
  let prevClearAlpha := getClearAlpha renderer in
  let renderer :=
    setClearColor (default SNAPSHOT_BG (background scene)) 1 renderer in
  let renderer := setClearAlpha 1 renderer in
  let renderer := setRenderTarget (Some rt) renderer in
  let renderer := clear renderer in
  let renderer := render scene cam renderer in
  let pixels := readRenderTargetPixels rt renderer in
  let renderer := setRenderTarget None renderer in
  let renderer := setClearColor prevClearColor 1 renderer in
  let renderer := setClearAlpha prevClearAlpha renderer in
  let renderer := dispose rt renderer in
  (pixels, renderer).

(** [Box3.applyMatrix4]: the box around the eight transformed corners. *)
Definition applyMatrix4 (o : Object3D) (b : Box) : Box :=
  let lo := bmin b in
  let hi := bmax b in
  boundingBox
    {| vertex0 := localToWorld o (vx lo, vy lo, vz lo);
       vertices' :=
         map (localToWorld o)
           [ (vx lo, vy lo, vz hi); (vx lo, vy hi, vz lo);
             (vx lo, vy hi, vz hi); (vx hi, vy lo, vz lo);
             (vx hi, vy lo, vz hi); (vx hi, vy hi, vz lo);
             (vx hi, vy hi, vz hi) ] |}.

(** The largest dimension of a mesh's own bounding box. *)
Definition meshDim (m : Mesh) : Q :=
  let geomBox := boundingBox (geometry m) in
  Num.max3 (vx (bmax geomBox) - vx (bmin geomBox))
           (vy (bmax geomBox) - vy (bmin geomBox))
           (vz (bmax geomBox) - vz (bmin geomBox)).

Definition worldBox (m : Mesh) : Box :=
  applyMatrix4 (object3d m) (boundingBox (geometry m)).

(** One visit of [scene.traverse] in [getModelBox]. *)
Definition visit (box : Box3) (obj : Mesh) : Box3 :=
  if Num.gtb (meshDim obj) MAX_MESH_SIZE then box
  else union box (Some (worldBox obj)).

Record ModelBox : Type := mkModelBox {
  center : Vector3;
  size : Vector3;
  maxDim : Q
}.

Definition getModelBox (scene : Scene) : ModelBox :=
  let box := fold_left visit (meshes scene) None in
  let center := getCenter box in
  let size := getSize box in
  let maxDim := Num.or_default (Num.max3 (vx size) (vy size) (vz size)) 80 in
  {| center := center; size := size; maxDim := maxDim |}.

(** [distanceToFit(maxDim, fovDeg, margin = 1.4)] *)
Definition distanceToFit (M : MathLib) (maxDim fovDeg : Q) (margin : Q) : Q :=
  let halfFovRad := (fovDeg / 2) * (PI M / 180) in
  (maxDim / 2 / tan M halfFovRad) * margin.

(** The browser around the component: whether a canvas hands out a 2D
    context, the clock, the files saved so far, the image loads still
    pending and the number of [onSnapshotDownloaded] calls. *)
Inductive DataUrl : Type :=
| EmptyUrl
| PngUrl (img : Pixels).

Record Download : Type := mkDownload {
  download_name : string;
  download_upper : Pixels;
  download_lower : Pixels
}.

Record PendingLoad : Type := mkPending { front_src : DataUrl; top_src : DataUrl }.

Record Browser : Type := mkBrowser {
  canvas2d : bool;
  now : N;
  saved : list Download;
  pending : list PendingLoad;
  snapshotDownloaded : nat
}.

(** [useThrelte()]: each part may still be missing. *)
Record Threlte : Type := mkThrelte {
  renderer : option WebGLRenderer;
  scene : option Scene;
  camera : option Camera
}.

Record World : Type := mkWorld { threlte : Threlte; browser : Browser }.

Inductive Outcome : Type :=
| Returned
| Threw (what : string).

(** The loop of [pixelsToDataUrl]: row [y] of the image is row
    [height - 1 - y] of the buffer. *)
Definition flipRows (width height : Z) (px : Frame) : Frame :=
  {| px_scene := px_scene px; px_camera := px_camera px;
     px_clearColor := px_clearColor px; px_clearAlpha := px_clearAlpha px;
     px_width := width; px_height := height;
     px_topDown := negb (px_topDown px) |}.

(** [pixelsToDataUrl]: the rows flipped and encoded as a PNG, or the
    empty string without a 2D context. *)
Definition pixelsToDataUrl (b : Browser) (pixels : Pixels)
    (width height : Z) : DataUrl :=
  if canvas2d b then PngUrl (flipRows width height <$> pixels)
  else EmptyUrl.

Definition takeSnapshot (M : MathLib) (w : World) : Outcome * World :=
  match renderer (threlte w), scene (threlte w), camera (threlte w) with
  | Some renderer, Some scene, Some camera =>
      let box := getModelBox scene in
      let cx := vx (center box) in
      let cy := vy (center box) in
      let cz := vz (center box) in
      let dist := distanceToFit M (maxDim box) FOV_DEG 1.4 in
      let '(frontPixels, renderer) :=
        captureView renderer scene (cx, cy, cz + dist) (cx, cy, cz) in
      let '(topPixels, renderer) :=
        captureView renderer scene (cx, cy + dist, cz) (cx, cy, cz) in
      let frontDataUrl :=
        pixelsToDataUrl (browser w) frontPixels SNAPSHOT_SIZE SNAPSHOT_SIZE in
      let topDataUrl :=
        pixelsToDataUrl (browser w) topPixels SNAPSHOT_SIZE SNAPSHOT_SIZE in
      let th := {| renderer := Some renderer; scene := Some scene;
                   camera := Some camera |} in
      if canvas2d (browser w) then
        (Returned,
         {| threlte := th;
            browser :=
              {| canvas2d := canvas2d (browser w);
                 now := now (browser w);
                 saved := saved (browser w);
                 pending := pending (browser w)
                            ++ [ {| front_src := frontDataUrl;
                                    top_src := topDataUrl |} ];
                 snapshotDownloaded := snapshotDownloaded (browser w) |} |})
      else (Returned, {| threlte := th; browser := browser w |})
  | _, _, _ => (Returned, w)
  end.

(** The [onload] chain of one snapshot: the front image, then the top
    image, then the download and the callback. An image whose source is
    not an encoded picture never fires [onload]. *)
Definition runLoad (l : PendingLoad) (b : Browser) : Browser :=
  match front_src l, top_src l with
  | PngUrl frontImg, PngUrl topImg =>
      {| canvas2d := canvas2d b;
         now := now b;
         saved := saved b
                  ++ [ {| download_name :=
                            "clicker-snapshot-" +:+ Js.decimalN (now b)
                            +:+ ".png";
                          download_upper := frontImg;
                          download_lower := topImg |} ];
         pending := pending b;
         snapshotDownloaded := S (snapshotDownloaded b) |}
  | _, _ => b
  end.

(** The event loop run until no image load is pending. *)
Definition settle (w : World) : World :=
  let b := browser w in
  let b' :=
    fold_left (fun acc l => runLoad l acc) (pending b)
      {| canvas2d := canvas2d b; now := now b; saved := saved b;
         pending := []; snapshotDownloaded := snapshotDownloaded b |} in
  {| threlte := threlte w; browser := b' |}.

End Snapshot.

(** ** The pixel loop of [pixelsToDataUrl] *)

Module PixelRows.

(** A [Uint8Array] or [Uint8ClampedArray]: its bytes. *)
Abbreviation Bytes := (list N).

(** [pixels[i]] stored into a clamped array: a read past the end gives
    [undefined], which is stored as 0. *)
Definition byteAt (pixels : Bytes) (i : nat) : N := default 0%N (pixels !! i).

(** The body of the inner loop: the four channels of one pixel. A write
    past the end of a typed array is ignored, as [<[_:=_]>] does. *)
Definition copyPixel (pixels : Bytes) (width height y x : nat) (data : Bytes)
  : Bytes :=
  let src := ((height - 1 - y) * width * 4 + x * 4)%nat in
  let dst := (y * width * 4 + x * 4)%nat in
  let data := <[dst := byteAt pixels src]> data in
  let data := <[(dst + 1)%nat := byteAt pixels (src + 1)]> data in
  let data := <[(dst + 2)%nat := byteAt pixels (src + 2)]> data in
  let data := <[(dst + 3)%nat := byteAt pixels (src + 3)]> data in
  data.

(** [for (let x = 0; x < width; x++)] *)
Definition copyRow (pixels : Bytes) (width height y : nat) (data : Bytes)
  : Bytes :=
  fold_left (fun data x => copyPixel pixels width height y x data)
            (seq 0 width) data.

(** [ctx.createImageData(width, height).data]: zeros. *)
Definition createImageData (width height : nat) : Bytes :=
  replicate (width * height * 4) 0%N.

(** The two loops: the contents of [imageData.data] handed to
    [putImageData]. *)
Definition flipImage (pixels : Bytes) (width height : nat) : Bytes :=
  fold_left (fun data y => copyRow pixels width height y data)
            (seq 0 height) (createImageData width height).

End PixelRows.

(** ** The vertices [STLExporter] writes *)

Module StlOutput.
Import Three Exporter.

(** [STLExporter.parse(root)]: a vertex of a part as written to the
    file, through the part's matrix and the root's rotation. *)
Definition fileVertex (f : StlFile) (pt : Part) (v : Vector3) : Vector3 :=
  rotate (root_rotation f) (localToWorld (part_object pt) v).

End StlOutput.

(** ** The icon cache: the [svgGeometryByUrl] effect and its fetches *)

Module IconCache.
Import Three Layout Legend.

(** [(keycapSvgUrls ?? []).filter((u) => !!u)] *)
Definition truthyUrls (urls : list (option string)) : list string :=
  omap (fun u => match u with
                 | Some s => if Js.truthy s then Some s else None
                 | None => None
                 end) urls.

(** [[...new Set(l)]]: the distinct elements, each at its first
    occurrence. *)
Definition uniq (l : list string) : list string :=
  fold_left (fun seen x => if bool_decide (x ∈ seen) then seen else seen ++ [x])
            l [].

(** One run of the effect: the URLs it fetches, in order. A URL whose
    geometry is in [current] is skipped. *)
Definition effectFetches (urls : list (option string))
    (current : gmap string BufferGeometry) : list string :=
  List.filter (fun url => negb (bool_decide (is_Some (current !! url))))
              (uniq (truthyUrls urls)).

(** The end of one fetch: [response] is the parsed SVG, [None] when the
    fetch or the parse threw (the [catch] swallows it). Nothing is
    stored when the SVG has no shape. *)
Definition fetchDone (url : string) (response : option (list Outline))
    (cache : gmap string BufferGeometry) : gmap string BufferGeometry :=
  match response ≫= synthesize with
  | Some merged => <[url := merged]> cache
  | None => cache
  end.

(** The loader while the scene is mounted: the cache
    [svgGeometryByUrl] and the URLs whose fetch has been started and has
    not completed yet, oldest first. A URL is in flight once per fetch
    started for it. *)
Record Loader : Type := mkLoader {
  cached : gmap string BufferGeometry;
  inFlight : list string
}.

(** One run of the effect: a fetch is started for every URL of
    [effectFetches], whether or not one is in flight for it already. *)
Definition runEffect (urls : list (option string)) (s : Loader) : Loader :=
  {| cached := cached s;
     inFlight := inFlight s ++ effectFetches urls (cached s) |}.

(** The first run, when the component mounts with the cache [cache0]. *)
Definition mount (urls : list (option string))
    (cache0 : gmap string BufferGeometry) : Loader :=
  runEffect urls {| cached := cache0; inFlight := [] |}.

(** What happens next while the icon URLs stay the same. The effect reads
    [svgGeometryByUrl], so it runs again after an assignment to it, at a
    time the scheduler chooses: [Rerun]. Or the fetch at place [k] of
    those in flight completes, in whatever order the network decides:
    [Done k]. *)
Inductive Event : Type :=
| Rerun
| Done (k : nat).

(** [resp] is what each URL answers, the same at every fetch of it. *)
Definition step (urls : list (option string))
    (resp : string -> option (list Outline)) (s : Loader) (e : Event)
  : Loader :=
  match e with
  | Rerun => runEffect urls s
  | Done k =>
      match inFlight s !! k with
      | Some url =>
          {| cached := fetchDone url (resp url) (cached s);
             inFlight := delete k (inFlight s) |}
      | None => s
      end
  end.

Definition run (urls : list (option string))
    (resp : string -> option (list Outline)) (events : list Event)
    (s : Loader) : Loader :=
  fold_left (step urls resp) events s.

End IconCache.

(** ** [svgAssets.ts] *)

Module SvgAssets.

Definition lower_ascii (c : ascii) : ascii :=
  let n := nat_of_ascii c in
  if ((65 <=? n)%nat && (n <=? 90)%nat)%bool
  then ascii_of_nat (n + 32) else c.

(** [s.toLowerCase()] *)
Fixpoint toLowerCase (s : string) : string :=
  match s with
  | EmptyString => EmptyString
  | String c s' => String (lower_ascii c) (toLowerCase s')
  end.

(** The class [[-_]]. *)
Definition is_sep (c : ascii) : bool :=
  (Ascii.eqb c "-" || Ascii.eqb c "_")%bool.

(** [s.split(/[-_]/)] *)
Fixpoint split (s : string) : list string :=
  match s with
  | EmptyString => [EmptyString]
  | String c s' =>
      if is_sep c then EmptyString :: split s'
      else match split s' with
           | w :: ws => String c w :: ws
           | [] => [String c EmptyString]
           end
  end.

(** [words.join(sep)] *)
Fixpoint join (sep : string) (words : list string) : string :=
  match words with
  | [] => EmptyString
  | w :: ws =>
      match ws with
      | [] => w
      | _ :: _ => w +:+ sep +:+ join sep ws
      end
  end.

(** [w.charAt(0).toUpperCase() + w.slice(1).toLowerCase()] *)
Definition capitalize (w : string) : string :=
  match w with
  | EmptyString => EmptyString
  | String c w' => String (Js.upper_ascii c) (toLowerCase w')
  end.

(** [id.replace(/\.svg$/i, "")] *)
Definition stripSvg (id : string) : string :=
  let n := String.length id in
  if ((4 <=? n)%nat
      && String.eqb (toLowerCase (substring (n - 4) 4 id)) ".svg")%bool
  then substring 0 (n - 4) id
  else id.

Definition nameFromId (id : string) : string :=
  let base := stripSvg id in
  join " " (map capitalize (split base)).

Record SvgAsset : Type := mkSvgAsset {
  asset_id : string;
  asset_name : string;
  asset_url : string
}.

Fixpoint hasSlash (s : string) : bool :=
  match s with
  | EmptyString => false
  | String c s' => (Ascii.eqb c "/" || hasSlash s')%bool
  end.

(** [path.replace(/^.*\//, "")]: what follows the last slash. *)
Fixpoint fileName (path : string) : string :=
  match path with
  | EmptyString => EmptyString
  | String c rest =>
      if hasSlash rest then fileName rest
      else if Ascii.eqb c "/" then rest else path
  end.

(** [SVG_ASSETS], from the entries of the glob: path and resolved URL. *)
Definition SVG_ASSETS (modules : list (string * string)) : list SvgAsset :=
  map (fun '(path, url) =>
         let filename := fileName path in
         {| asset_id := filename;
            asset_name := nameFromId filename;
            asset_url := url |})
      modules.

(** [new Map(SVG_ASSETS.map((a) => [a.id, a.url]))]: a later entry
    replaces an earlier one with the same key. *)
Definition SVG_URL_BY_ID (modules : list (string * string))
  : gmap string string :=
  fold_left (fun m a => <[asset_id a := asset_url a]> m)
            (SVG_ASSETS modules) ∅.

End SvgAssets.

(** ** The stored designs of [configStorage.ts] and the design list of
    [App.svelte] *)

Module App.
Import Three Positions.
Local Open Scope Z_scope.

(** [StoredDesign]; an optional field that is absent is [None]. An entry
    of a stored letter list that is not a string is [None]. *)
Record StoredDesign : Type := mkDesign {
  id : string;
  name : string;
  objectColor : option string;
  keycapColor : option string;
  textBorderColor : option string;
  showBorder : option bool;
  numberOfKeys : option Z;
  keycapPositionsByCount : option (gmap string (list Vector3));
  keycapLettersByCount : option (gmap string (list (option string)));
  keycapSvgByCount : option (gmap string (list (option string)));
  keycapSvgSizeMm : option Q
}.

(** [Partial<StoredDesign>] *)
Record Patch : Type := mkPatch {
  p_id : option string;
  p_name : option string;
  p_objectColor : option string;
  p_keycapColor : option string;
  p_textBorderColor : option string;
  p_showBorder : option bool;
  p_numberOfKeys : option Z;
  p_keycapPositionsByCount : option (gmap string (list Vector3));
  p_keycapLettersByCount : option (gmap string (list (option string)));
  p_keycapSvgByCount : option (gmap string (list (option string)));
  p_keycapSvgSizeMm : option Q
}.

(** [{}] *)
Definition noPatch : Patch :=
  {| p_id := None; p_name := None; p_objectColor := None;
     p_keycapColor := None; p_textBorderColor := None; p_showBorder := None;
     p_numberOfKeys := None; p_keycapPositionsByCount := None;
     p_keycapLettersByCount := None; p_keycapSvgByCount := None;
     p_keycapSvgSizeMm := None |}.

(** [StoredConfig]; [cfg_flat] holds the fields of the legacy flat shape,
    which [createDefaultDesign] reads off the config itself. *)
Record StoredConfig : Type := mkConfig {
  cfg_designs : option (list StoredDesign);
  cfg_activeIndex : option Z;
  cfg_flat : Patch
}.

Definition DEFAULT_KEYCAP_SVG_ID : string := "heart.svg".

(** [String(n)] for an integer. *)
Definition keyOf (n : Z) : string := NilZero.string_of_int (Z.to_int n).

(** [Array(n).fill(v)]: [None] is the [RangeError] for a length that is
    negative or above [2^32 - 1]. *)
Definition arrayFill {A : Type} (n : Z) (v : A) : option (list A) :=
  if ((0 <=? n)%Z && (n <? 2 ^ 32)%Z)%bool
  then Some (replicate (Z.to_nat n) v)
  else None.

(** [createDefaultDesign(name, fromSaved)]; [newId] is what
    [crypto.randomUUID()] returns. The count is between 1 and 7, so
    [Array(n)] does not throw. *)
Definition createDefaultDesign (newId name : string)
    (fromSaved : option Patch) : StoredDesign :=
  let from := default noPatch fromSaved in
  let n := Z.min 7 (Z.max 1 (default 1%Z (p_numberOfKeys from))) in
  let hasExistingSvg :=
    match p_keycapSvgByCount from with
    | Some m => negb (bool_decide (m = ∅))
    | None => false
    end in
  {| id := newId;
     name := name;
     objectColor := Some (default "#ec4899"%string (p_objectColor from));
     keycapColor := Some (default "#6366f1"%string (p_keycapColor from));
     textBorderColor :=
       Some (default "#ffffff"%string (p_textBorderColor from));
     showBorder :=
       Some (match p_showBorder from with Some false => false | _ => true end);
     numberOfKeys := Some n;
     keycapPositionsByCount :=
       Some (default ∅ (p_keycapPositionsByCount from));
     keycapLettersByCount := Some (default ∅ (p_keycapLettersByCount from));
     keycapSvgByCount :=
       if hasExistingSvg then p_keycapSvgByCount from
       else Some {[ keyOf n :=
                      replicate (Z.to_nat n) (Some DEFAULT_KEYCAP_SVG_ID) ]};
     keycapSvgSizeMm := Some (default 8%Q (p_keycapSvgSizeMm from)) |}.

(** The component's state: [designs] and [activeIndex]. *)
Record State : Type := mkState {
  designs : list StoredDesign;
  activeIndex : Z
}.

(** The initial state, from what [loadConfig()] returned. *)
Definition initialDesigns (saved : option StoredConfig) (newId : string)
  : list StoredDesign :=
  match saved ≫= cfg_designs with
  | Some (d :: l) => d :: l
  | _ => [createDefaultDesign newId "Design 1" (cfg_flat <$> saved)]
  end.

Definition initialActive (saved : option StoredConfig) (newId : string) : Z :=
  Z.min (Z.max 0 (default 0%Z (saved ≫= cfg_activeIndex)))
        (Z.of_nat (length (initialDesigns saved newId)) - 1).

Definition init (saved : option StoredConfig) (newId : string) : State :=
  {| designs := initialDesigns saved newId;
     activeIndex := initialActive saved newId |}.

(** [designs[activeIndex] ?? designs[0]] *)
Definition activeDesign (st : State) : option StoredDesign :=
  match at_index (designs st) (activeIndex st) with
  | Some d => Some d
  | None => designs st !! 0%nat
  end.

(** [a ?? b] on an optional field of a patch. *)
Definition over {A : Type} (new old : option A) : option A :=
  match new with Some v => Some v | None => old end.

(** [{ ...d, ...patch }] *)
Definition merge (d : StoredDesign) (patch : Patch) : StoredDesign :=
  {| id := default (id d) (p_id patch);
     name := default (name d) (p_name patch);
     objectColor := over (p_objectColor patch) (objectColor d);
     keycapColor := over (p_keycapColor patch) (keycapColor d);
     textBorderColor := over (p_textBorderColor patch) (textBorderColor d);
     showBorder := over (p_showBorder patch) (showBorder d);
     numberOfKeys := over (p_numberOfKeys patch) (numberOfKeys d);
     keycapPositionsByCount :=
       over (p_keycapPositionsByCount patch) (keycapPositionsByCount d);
     keycapLettersByCount :=
       over (p_keycapLettersByCount patch) (keycapLettersByCount d);
     keycapSvgByCount := over (p_keycapSvgByCount patch) (keycapSvgByCount d);
     keycapSvgSizeMm := over (p_keycapSvgSizeMm patch) (keycapSvgSizeMm d) |}.

Definition updateActiveDesign (patch : Patch) (st : State) : State :=
  let i := activeIndex st in
  if ((i <? 0)%Z || (Z.of_nat (length (designs st)) <=? i)%Z)%bool then st
  else
    {| designs :=
         imap (fun idx d => if (Z.of_nat idx =? i)%Z then merge d patch else d)
              (designs st);
       activeIndex := i |}.

Definition addDesign (newId : string) (st : State) : State :=
  let name := ("Design " +:+ Js.decimal (length (designs st) + 1)%nat)%string in
  let designs := designs st ++ [createDefaultDesign newId name None] in
  {| designs := designs; activeIndex := Z.of_nat (length designs) - 1 |}.

Definition deleteDesign (index : Z) (st : State) : State :=
  if (length (designs st) <=? 1)%nat then st
  else
    let designs :=
      omap (fun o => o)
           (imap (fun i d => if (Z.of_nat i =? index)%Z then None
                                else Some d)
                    (designs st)) in
    let activeIndex := Z.min (activeIndex st) (Z.of_nat (length designs) - 1) in
    let activeIndex :=
      if (Z.of_nat (length designs) <=? activeIndex)%Z
      then Z.of_nat (length designs) - 1 else activeIndex in
    {| designs := designs; activeIndex := activeIndex |}.

(** [record?.[String(n)]] *)
Definition byCount {A : Type} (record : option (gmap string A)) (n : Z)
  : option A :=
  match record with Some m => m !! keyOf n | None => None end.

(** The derived values. *)
Definition numberOfKeysOf (st : State) : Z :=
  default 1%Z (activeDesign st ≫= numberOfKeys).

Definition showBorderOf (st : State) : bool :=
  match activeDesign st ≫= showBorder with Some false => false | _ => true end.

(** The lists stored for the current key count, if any. *)
Definition storedPositions (st : State) : option (list Vector3) :=
  match activeDesign st with
  | Some d => byCount (keycapPositionsByCount d) (numberOfKeysOf st)
  | None => None
  end.

Definition storedLetters (st : State) : option (list (option string)) :=
  match activeDesign st with
  | Some d => byCount (keycapLettersByCount d) (numberOfKeysOf st)
  | None => None
  end.

Definition storedSvg (st : State) : option (list (option string)) :=
  match activeDesign st with
  | Some d => byCount (keycapSvgByCount d) (numberOfKeysOf st)
  | None => None
  end.

Definition keycapPositions (st : State) : list Vector3 :=
  map (fun p => p)
      (default (getDefaultPositions (numberOfKeysOf st)) (storedPositions st)).

(** [None] when [Array(numberOfKeys)] throws. *)
Definition keycapLetters (st : State) : option (list string) :=
  let list :=
    match storedLetters st with
    | Some l => Some l
    | None => arrayFill (numberOfKeysOf st) (Some ""%string)
    end in
  map (fun c => match c with Some s => Js.slice01 s | None => ""%string end)
    <$> list.

Definition keycapSvg (st : State) : option (list (option string)) :=
  let list :=
    match storedSvg st with
    | Some l => Some l
    | None => arrayFill (numberOfKeysOf st) None
    end in
  map (fun s => s) <$> list.

Definition keycapSvgSizeMmOf (st : State) : Q :=
  default 8%Q (activeDesign st ≫= keycapSvgSizeMm).

Definition keycapPositionsForScene (st : State) : list Vector3 :=
  map (fun p => (vx p, vy p, vz p)) (keycapPositions st).

(** [id ? (SVG_URL_BY_ID.get(id) ?? null) : null] for each key. *)
Definition keycapSvgUrlsForScene (urlById : gmap string string) (st : State)
  : option (list (option string)) :=
  map (fun id => match id with
                 | Some s => if Js.truthy s then urlById !! s else None
                 | None => None
                 end)
    <$> keycapSvg st.

(** The props handed to [Scene]; [textSizeMm] is left to its default. *)
Definition sceneProps (urlById : gmap string string) (st : State)
  : option Layout.Props :=
  letters ← keycapLetters st;
  urls ← keycapSvgUrlsForScene urlById st;
  Some {| Layout.showBorder := showBorderOf st;
          Layout.numberOfKeys := numberOfKeysOf st;
          Layout.keycapPositionsProp := Some (keycapPositionsForScene st);
          Layout.keycapLetters := letters;
          Layout.keycapSvgUrls := urls;
          Layout.keycapSvgSizeMm := keycapSvgSizeMmOf st;
          Layout.textSizeMm := 8.7%Q |}.

(** The handlers of the controls. *)
Definition patchNumberOfKeys (n : Z) : Patch :=
  {| p_id := None; p_name := None; p_objectColor := None;
     p_keycapColor := None; p_textBorderColor := None; p_showBorder := None;
     p_numberOfKeys := Some n; p_keycapPositionsByCount := None;
     p_keycapLettersByCount := None; p_keycapSvgByCount := None;
     p_keycapSvgSizeMm := None |}.

(** The [onchange] of the key-count select. *)
Definition selectNumberOfKeys (n : Z) (st : State) : State :=
  updateActiveDesign (patchNumberOfKeys n) st.

(** The [oninput] of the letter box of key [i]. *)
Definition typeLetter (i : nat) (value : string) (st : State) : State :=
  let v := Js.slice01 value in
  match activeDesign st, keycapLetters st with
  | Some d, Some letters =>
      let next := imap (fun j l => if (j =? i)%nat then v else l) letters in
      updateActiveDesign
        {| p_id := None; p_name := None; p_objectColor := None;
           p_keycapColor := None; p_textBorderColor := None;
           p_showBorder := None; p_numberOfKeys := None;
           p_keycapPositionsByCount := None;
           p_keycapLettersByCount :=
             Some (<[keyOf (numberOfKeysOf st) := map Some next]>
                     (default ∅ (keycapLettersByCount d)));
           p_keycapSvgByCount := None;
           p_keycapSvgSizeMm := None |}
        st
  | _, _ => st
  end.

(** A click in the icon picker opened for key [i]: an asset id, or
    [None] for the entry that clears the icon. *)
Definition pickIcon (i : nat) (choice : option string) (st : State) : State :=
  match activeDesign st, keycapSvg st with
  | Some d, Some svg =>
      let next := imap (fun j s => if (j =? i)%nat then choice else s) svg in
      updateActiveDesign
        {| p_id := None; p_name := None; p_objectColor := None;
           p_keycapColor := None; p_textBorderColor := None;
           p_showBorder := None; p_numberOfKeys := None;
           p_keycapPositionsByCount := None;
           p_keycapLettersByCount := None;
           p_keycapSvgByCount :=
             Some (<[keyOf (numberOfKeysOf st) := next]>
                     (default ∅ (keycapSvgByCount d)));
           p_keycapSvgSizeMm := None |}
        st
  | _, _ => st
  end.

(** The [oninput] of the icon-size slider, for a value that is a number. *)
Definition slideSvgSize (v : Q) (st : State) : State :=
  updateActiveDesign
    {| p_id := None; p_name := None; p_objectColor := None;
       p_keycapColor := None; p_textBorderColor := None;
       p_showBorder := None; p_numberOfKeys := None;
       p_keycapPositionsByCount := None;
       p_keycapLettersByCount := None;
       p_keycapSvgByCount := None;
       p_keycapSvgSizeMm := Some (Qmax 1 (Qmin 30 v))%Q |}
    st.

End App.

(** ** Notions the properties are stated with *)

Module Spec.
Import Three Positions Layout Legend Exporter Snapshot.

(** In-plane footprint and depth of a legend geometry: the larger of
    its bounding box's x and y sizes, and its z size. *)
Definition inPlaneMax (g : BufferGeometry) : Q :=
  let size := sizeOf (boundingBox g) in Qmax (vx size) (vy size).

Definition depthOf (g : BufferGeometry) : Q :=
  vz (sizeOf (boundingBox g)).

(** A part of an exported file that is a letter. *)
Definition is_letter_part (pt : Part) : bool :=
  match part_kind pt with LetterPart _ => true | _ => false end.

(** Reading the index back from a file name: the digits that follow
    ["keycap-"]. *)
Definition is_digit (c : ascii) : bool :=
  let n := nat_of_ascii c in ((48 <=? n)%nat && (n <=? 57)%nat)%bool.

Fixpoint digits_of (s : string) : string :=
  match s with
  | String c s' => if is_digit c then String c (digits_of s') else EmptyString
  | EmptyString => EmptyString
  end.

Fixpoint strip_prefix (pre s : string) : option string :=
  match pre, s with
  | EmptyString, _ => Some s
  | String a pre', String b s' =>
      if Ascii.eqb a b then strip_prefix pre' s' else None
  | String _ _, EmptyString => None
  end.

Definition decodeIndex (name : string) : option nat :=
  rest ← strip_prefix "keycap-" name;
  Nat.of_uint <$> NilEmpty.uint_of_string (digits_of rest).

(** What the props assign to key [i], read off the props themselves: a
    letter that is not blank, an icon URL that is not blank. *)
Definition hasLetter (p : Props) (i : nat) : bool :=
  match keycapLetters p !! i with
  | Some letter => Js.truthy (Js.trim letter)
  | None => false
  end.

Definition hasIcon (p : Props) (i : nat) : bool :=
  match keycapSvgUrls p !! i with
  | Some (Some url) => Js.truthy (Js.trim url)
  | _ => false
  end.

(** Key [i] carries a text legend: a letter and no icon. *)
Definition carriesTextLegend (p : Props) (i : nat) : bool :=
  hasLetter p i && negb (hasIcon p i).

(** The two shapes of a name for the 1-based index [n]. *)
Definition indexOnlyName (n : nat) : string :=
  "keycap-" +:+ Js.decimal n +:+ ".stl".

Definition letterName (n : nat) (legend : string) : string :=
  "keycap-" +:+ Js.decimal n +:+ "-" +:+ legend +:+ ".stl".

(** What a file name says about key [i]: the 1-based index reads back
    from it; a key with an icon, and a key without a letter, has the bare
    index name; the name is the bare index name exactly when the key
    carries no text legend; and otherwise it is the index name extended
    with the upper-cased letter, whose first character is the one
    extruded. *)
Definition nameEncodes (p : Props) (i : nat) (name : string) : Prop :=
  decodeIndex name = Some (i + 1)%nat /\
  (hasIcon p i = true -> name = indexOnlyName (i + 1)) /\
  (hasLetter p i = false -> name = indexOnlyName (i + 1)) /\
  (name = indexOnlyName (i + 1) <-> carriesTextLegend p i = false) /\
  (carriesTextLegend p i = true ->
   exists letter,
     keycapLetters p !! i = Some letter /\
     name = letterName (i + 1) (Js.toUpperCase (Js.trim letter)) /\
     exists rest,
       Js.toUpperCase (Js.trim letter)
       = Js.slice01 (Js.toUpperCase (Js.trim letter)) +:+ rest /\
       Js.slice01 (Js.toUpperCase (Js.trim letter)) <> EmptyString).

(** What a capture reads back: the scene seen from [position] towards
    [target], on the scene's flat background (or [SNAPSHOT_BG]), opaque,
    at the snapshot size, rows bottom-up. *)
Definition capturedFrame (scene : Scene) (position target : Vector3) : Frame :=
  {| px_scene := scene;
     px_camera := {| cam_fov := FOV_DEG; cam_position := position;
                     cam_lookAt := target |};
     px_clearColor := default SNAPSHOT_BG (background scene);
     px_clearAlpha := 1;
     px_width := SNAPSHOT_SIZE;
     px_height := SNAPSHOT_SIZE;
     px_topDown := false |}.

(** The meshes that take part in the framing, in the spec's words: those
    whose largest bounding-box dimension does not exceed the threshold;
    the union of their world boxes; and its largest dimension. *)
Definition framedMeshes (scene : Scene) : list Mesh :=
  List.filter (fun m => negb (Num.gtb (meshDim m) MAX_MESH_SIZE))
              (meshes scene).

Definition framingUnion (scene : Scene) : Box3 :=
  fold_left union (map (fun m => Some (worldBox m)) (framedMeshes scene)) None.

Definition framingDimension (scene : Scene) : Q :=
  let size := getSize (framingUnion scene) in
  Num.max3 (vx size) (vy size) (vz size).

(** The context is ready when the renderer, the scene and the camera
    are all there. *)
Definition ready (w : World) : bool :=
  match renderer (threlte w), scene (threlte w), camera (threlte w) with
  | Some _, Some _, Some _ => true
  | _, _, _ => false
  end.

(** The image loads that one ready call schedules. *)
Definition scheduledLoad (M : MathLib) (sc : Scene) : PendingLoad :=
  let box := getModelBox sc in
  let cx := vx (center box) in
  let cy := vy (center box) in
  let cz := vz (center box) in
  let dist := distanceToFit M (maxDim box) FOV_DEG 1.4 in
  {| front_src :=
       PngUrl (Some (flipRows SNAPSHOT_SIZE SNAPSHOT_SIZE
                       (capturedFrame sc (cx, cy, cz + dist) (cx, cy, cz))));
     top_src :=
       PngUrl (Some (flipRows SNAPSHOT_SIZE SNAPSHOT_SIZE
                       (capturedFrame sc (cx, cy + dist, cz) (cx, cy, cz)))) |}.

End Spec.

(** ** Concrete scenes and inputs *)

Module Examples.
Import Three Positions Layout Legend Exporter Snapshot Spec.

Definition noAssets : Assets :=
  {| load := fun _ => None; font := None; svgGeometryByUrl := ∅ |}.

(** Two keys configured, three explicit positions supplied. *)
Definition threePositionsForTwoKeys : Props :=
  {| showBorder := true;
     numberOfKeys := 2;
     keycapPositionsProp := Some [(0, 0, 0); (10, 0, 0); (20, 0, 0)];
     keycapLetters := [];
     keycapSvgUrls := [];
     keycapSvgSizeMm := 10;
     textSizeMm := 8.7 |}.

(** A body 40 x 20 x 12, a keycap 18 x 18 x 7 and a border 18 x 18 x 1,
    all resting on their local [z = 0], each given by two opposite
    corners; and a square contour of side 1, used as a glyph and as an
    icon. *)
Definition demoBody : BufferGeometry :=
  {| vertex0 := (-20, -10, 0); vertices' := [(20, 10, 12)] |}.

Definition demoKeycap : BufferGeometry :=
  {| vertex0 := (-9, -9, 0); vertices' := [(9, 9, 7)] |}.

Definition demoBorder : BufferGeometry :=
  {| vertex0 := (-9, -9, 0); vertices' := [(9, 9, 1)] |}.

Definition squareOutline : Outline :=
  {| point0 := (0, 0); points' := [(1, 0); (1, 1); (0, 1)] |}.

Definition demoLoad (url : string) : option BufferGeometry :=
  if String.eqb url "clicker_1.stl" then Some demoBody
  else if String.eqb url keycapStl then Some demoKeycap
  else if String.eqb url borderStl then Some demoBorder
  else None.

Definition demoAssets : Assets :=
  {| load := demoLoad;
     font := Some (fun _ => squareOutline);
     svgGeometryByUrl := ∅ |}.

(** One key with the letter A at the default position. *)
Definition demoProps : Props :=
  {| showBorder := true;
     numberOfKeys := 1;
     keycapPositionsProp := None;
     keycapLetters := ["A"%string];
     keycapSvgUrls := [None];
     keycapSvgSizeMm := 10;
     textSizeMm := 8.7 |}.

(** A keycap mesh that does not rest on its local [z = 0]: it runs from
    [z = -3] to [z = 5], 8 mm high. *)
Definition offsetKeycap : BufferGeometry :=
  {| vertex0 := (-9, -9, -3); vertices' := [(9, 9, 5)] |}.

Definition offsetLoad (url : string) : option BufferGeometry :=
  if String.eqb url "clicker_1.stl" then Some demoBody
  else if String.eqb url keycapStl then Some offsetKeycap
  else if String.eqb url borderStl then Some demoBorder
  else None.

Definition offsetAssets : Assets :=
  {| load := offsetLoad;
     font := Some (fun _ => squareOutline);
     svgGeometryByUrl := ∅ |}.

(** The contour of a square icon of side 4000 ([squareOutline] serves as
    the icon of side 1). *)
Definition wideOutline : Outline :=
  {| point0 := (0, 0); points' := [(4000, 0); (4000, 4000); (0, 4000)] |}.

(** One key with both the letter a and the heart icon assigned; the icon
    geometry is not in the cache (its fetch is pending or has failed). *)
Definition letterAndIconProps : Props :=
  {| showBorder := true;
     numberOfKeys := 1;
     keycapPositionsProp := None;
     keycapLetters := ["a"%string];
     keycapSvgUrls := [Some "/assets/heart.svg"%string];
     keycapSvgSizeMm := 10;
     textSizeMm := 8.7 |}.

(** The same assets once the heart icon has been synthesised. *)
Definition demoAssetsWithHeart : Assets :=
  {| load := demoLoad;
     font := Some (fun _ => squareOutline);
     svgGeometryByUrl := {[ "/assets/heart.svg"%string := demoBorder ]} |}.

(** A renderer that is drawing into an offscreen target of its own. *)
Definition busyRenderer : WebGLRenderer :=
  {| clearColor := "#000000"%string;
     clearAlpha := 0;
     renderTarget := Some {| rt_id := 0; rt_width := 512; rt_height := 512;
                             rt_colorSpace := "srgb" |};
     canvasPixels := None;
     offscreen := [(0%nat, None)];
     nextTarget := 1 |}.

Definition emptyScene : Scene := {| background := None; meshes := [] |}.

(** A rational stand-in for [Math]: [PI] to the digits of its double, and
    the tangent by the first terms of its series. *)
Definition seriesMath : MathLib :=
  {| PI := 3.141592653589793;
     tan := fun x => x + x * x * x / 3 + 2 * x * x * x * x * x / 15 |}.

(** The 200 x 200 grid of the scene, on the plane [y = 0]. *)
Definition gridMesh : Mesh :=
  {| object3d := {| position := (0, 0, 0);
                    rotation := (Rad0, Rad0, Rad0);
                    scaling := (1, 1, 1) |};
     geometry := {| vertex0 := (-100, 0, -100);
                    vertices' := [(100, 0, -100); (100, 0, 100);
                                  (-100, 0, 100)] |} |}.

Definition gridOnlyScene : Scene :=
  {| background := Some "#d4d4d4"%string; meshes := [gridMesh] |}.

Definition idleBrowser : Browser :=
  {| canvas2d := true; now := 1700000000000%N; saved := []; pending := [];
     snapshotDownloaded := 0 |}.

Definition idleRenderer : WebGLRenderer :=
  {| clearColor := "#000000"%string; clearAlpha := 0; renderTarget := None;
     canvasPixels := None; offscreen := []; nextTarget := 0 |}.

Definition liveCamera : Camera :=
  {| cam_fov := 50; cam_position := (150, 150, 150); cam_lookAt := (0, 0, 0) |}.

(** Start-up: the scene exists but the renderer does not yet. *)
Definition startingWorld : World :=
  {| threlte := {| renderer := None; scene := Some gridOnlyScene;
                   camera := Some liveCamera |};
     browser := idleBrowser |}.

(** The context is ready, but no STL has loaded: the scene holds the
    grid only. *)
Definition noMeshWorld : World :=
  {| threlte := {| renderer := Some idleRenderer; scene := Some gridOnlyScene;
                   camera := Some liveCamera |};
     browser := idleBrowser |}.

Definition threeKeysProps : Props :=
  {| showBorder := true;
     numberOfKeys := 3;
     keycapPositionsProp := None;
     keycapLetters := [];
     keycapSvgUrls := [];
     keycapSvgSizeMm := 10;
     textSizeMm := 8.7 |}.

(** A square icon of side 24, the usual icon grid. *)
Definition iconOutline24 : Outline :=
  {| point0 := (0, 0); points' := [(24, 0); (24, 24); (0, 24)] |}.

End Examples.

(** ** Further notions the properties are stated with *)

Module Notions.
Import Three Layout PixelRows.

(** The centre of the range of a coordinate over a geometry, as
    [Box3.getCenter] computes it. *)
Definition midOf (f : Vector3 -> Q) (g : BufferGeometry) : Q :=
  (minOf f g + maxOf f g) * (1 # 2).

(** [outer] contains [inner], corner by corner. *)
Definition encloses (outer inner : Box) : Prop :=
  vx (bmin outer) <= vx (bmin inner) /\ vx (bmax inner) <= vx (bmax outer) /\
  vy (bmin outer) <= vy (bmin inner) /\ vy (bmax inner) <= vy (bmax outer) /\
  vz (bmin outer) <= vz (bmin inner) /\ vz (bmax inner) <= vz (bmax outer).

(** A box whose [min] corner does not exceed its [max] corner. *)
Definition proper (b : Box) : Prop :=
  vx (bmin b) <= vx (bmax b) /\ vy (bmin b) <= vy (bmax b) /\
  vz (bmin b) <= vz (bmax b).

(** A sequence of writes into a typed array. *)
Definition writes_to (ws : list (nat * N)) (data : Bytes) : Bytes :=
  fold_left (fun d w => <[fst w := snd w]> d) ws data.

(** The writes of the two loops, in order. *)
Definition pixelWrites (pixels : Bytes) (width height y x : nat)
  : list (nat * N) :=
  map (fun c => ((y * width * 4 + x * 4 + c)%nat,
                 byteAt pixels ((height - 1 - y) * width * 4 + x * 4 + c)))
      (seq 0 4).

Definition imageWrites (pixels : Bytes) (width height : nat) : list (nat * N) :=
  flat_map (fun y => flat_map (pixelWrites pixels width height y) (seq 0 width))
           (seq 0 height).

(** How many of the [n] indices from [s] on satisfy [P]. *)
Definition countBelow (P : nat -> bool) (s n : nat) : nat :=
  length (List.filter P (seq s n)).

(** The callbacks that [keycapLabels] and [keycapSvgSlots] map over the
    letters and over the positions. *)
Definition labelFor (p : Props) (a : Assets) (f : Font) (i : nat)
    (letter : string) : option Label :=
  if has_url (keycapSvgUrls p) i then None
  else
    match keycapPositions p !! i with
    | None => None
    | Some (x, y, z) =>
        if Js.truthy (Js.trim letter) then
          Some {| label_geometry := textGeometry f p letter;
                  label_position := (x, keycapTopY p a y, z) |}
        else None
    end.

Definition slotFor (p : Props) (a : Assets) (i : nat) (pos : Vector3)
  : option SvgSlot :=
  let '(x, y, z) := pos in
  match mjoin (keycapSvgUrls p !! i) with
  | None => None
  | Some url =>
      if Js.truthy (Js.trim url) then
        Some {| slot_position := (x, keycapTopY p a y, z); slot_url := url |}
      else None
  end.

(** A string, character by character. *)
Fixpoint mapChars (f : ascii -> ascii) (s : string) : string :=
  match s with
  | EmptyString => EmptyString
  | String c s' => String (f c) (mapChars f s')
  end.

(** What [nameFromId] makes of a character, letter case aside: a
    separator becomes a space. *)
Definition nameChar (c : ascii) : ascii :=
  if SvgAssets.is_sep c then " "%char else SvgAssets.lower_ascii c.

(** The active index points into the design list. *)
Definition selected (st : App.State) : Prop :=
  (0 <= App.activeIndex st < Z.of_nat (length (App.designs st)))%Z.

(** The state that holds one design. *)
Definition single (d : App.StoredDesign) : App.State :=
  {| App.designs := [d]; App.activeIndex := 0 |}.

End Notions.

(** ** Further inputs *)

Module MoreExamples.
Import Three Positions Layout Legend Exporter Snapshot IconCache Spec
  Examples.

(** A picture of two rows of two pixels. *)
Definition twoByTwo : list N :=
  [ 10; 11; 12; 255;  20; 21; 22; 255;
    30; 31; 32; 255;  40; 41; 42; 255 ]%N.

(** The demo keycap standing on the demo body, beside the grid. *)
Definition demoKeycapMesh : Mesh :=
  {| object3d := keycapMesh (4.5, 12, 0); geometry := demoKeycap |}.

Definition keycapScene : Scene :=
  {| background := Some "#d4d4d4"%string;
     meshes := [gridMesh; demoKeycapMesh] |}.

(** The context is ready and the scene holds the grid and one keycap. *)
Definition keycapWorld : World :=
  {| threlte := {| renderer := Some idleRenderer; scene := Some keycapScene;
                   camera := Some liveCamera |};
     browser := idleBrowser |}.

(** Three keys with two icons between them. *)
Definition heartStarHeart : list (option string) :=
  [ Some "/assets/heart.svg"%string; Some "/assets/star.svg"%string;
    Some "/assets/heart.svg"%string ].

(** The heart answers with the square icon; the star answers with an SVG
    that has no shape. *)
Definition heartOnly (url : string) : option (list Outline) :=
  if String.eqb url "/assets/heart.svg" then Some [squareOutline]
  else Some [].

(** The star's fetch completes first, then the heart's; the assignment of
    the heart's geometry makes the effect run again, which fetches the
    star once more; that fetch completes too. *)
Definition starFirst : list Event := [Done 1; Done 0; Rerun; Done 0].

(** Two entries of the glob of [svgAssets.ts]. *)
Definition demoModules : list (string * string) :=
  [ ("../assets/svg/heart.svg", "/assets/heart-1a2b.svg");
    ("../assets/svg/thumbs-up.svg", "/assets/thumbs-up-3c4d.svg") ]%string.

(** A stored configuration whose only design has the key count -1 and no
    other field, as [loadConfig] hands it over unchecked; and the state
    the component starts in from it. *)
Definition negativeCountDesign : App.StoredDesign :=
  {| App.id := "d1";
     App.name := "Design 1";
     App.objectColor := None;
     App.keycapColor := None;
     App.textBorderColor := None;
     App.showBorder := None;
     App.numberOfKeys := Some (-1)%Z;
     App.keycapPositionsByCount := None;
     App.keycapLettersByCount := None;
     App.keycapSvgByCount := None;
     App.keycapSvgSizeMm := None |}.

Definition negativeCountConfig : App.StoredConfig :=
  {| App.cfg_designs := Some [negativeCountDesign];
     App.cfg_activeIndex := Some 0%Z;
     App.cfg_flat := App.noPatch |}.

Definition negativeCountStart : App.State :=
  App.init (Some negativeCountConfig) "design-1".

(** The state of a first visit, and the same after one more design. *)
Definition firstRun : App.State := App.init None "design-1".

Definition twoDesigns : App.State := App.addDesign "design-2" firstRun.

End MoreExamples.

(** * Properties *)

(** ** Folds of [Qmin] and [Qmax] *)

Section Extrema.

Lemma Qmin_affine_pos (k c a b : Q) :
  0 <= k -> Qmin (a * k + c) (b * k + c) == Qmin a b * k + c.
Proof.
  intros Hk.
  destruct (Q.min_spec a b) as [[Hab ->] | [Hab ->]].
  - apply Q.min_l. apply Qplus_le_l, Qmult_le_compat_r; [lra | exact Hk].
  - apply Q.min_r. apply Qplus_le_l, Qmult_le_compat_r; [exact Hab | exact Hk].
Qed.

Lemma Qmax_affine_pos (k c a b : Q) :
  0 <= k -> Qmax (a * k + c) (b * k + c) == Qmax a b * k + c.
Proof.
  intros Hk.
  destruct (Q.max_spec a b) as [[Hab ->] | [Hab ->]].
  - apply Q.max_r. apply Qplus_le_l, Qmult_le_compat_r; [lra | exact Hk].
  - apply Q.max_l. apply Qplus_le_l, Qmult_le_compat_r; [exact Hab | exact Hk].
Qed.

Lemma Qmul_le_neg (k a b : Q) : k <= 0 -> a <= b -> b * k <= a * k.
Proof.
  intros Hk Hab.
  assert (H : a * (- k) <= b * (- k)) by (apply Qmult_le_compat_r; lra).
  lra.
Qed.

Lemma Qmin_affine_neg (k c a b : Q) :
  k <= 0 -> Qmin (a * k + c) (b * k + c) == Qmax a b * k + c.
Proof.
  intros Hk.
  destruct (Q.max_spec a b) as [[Hab ->] | [Hab ->]].
  - apply Q.min_r. apply Qplus_le_l, Qmul_le_neg; [exact Hk | lra].
  - apply Q.min_l. apply Qplus_le_l, Qmul_le_neg; [exact Hk | exact Hab].
Qed.

Lemma Qmax_affine_neg (k c a b : Q) :
  k <= 0 -> Qmax (a * k + c) (b * k + c) == Qmin a b * k + c.
Proof.
  intros Hk.
  destruct (Q.min_spec a b) as [[Hab ->] | [Hab ->]].
  - apply Q.max_l. apply Qplus_le_l, Qmul_le_neg; [exact Hk | lra].
  - apply Q.max_r. apply Qplus_le_l, Qmul_le_neg; [exact Hk | exact Hab].
Qed.

Variables (A : Type) (f h : A -> Q) (k c : Q).
Hypothesis f_affine : forall v, f v == h v * k + c.

Lemma fold_min_affine_pos (l : list A) (a a' : Q) :
  0 <= k -> a' == a * k + c ->
  fold_left Qmin (map f l) a' == fold_left Qmin (map h l) a * k + c.
Proof.
  intros Hk. revert a a'.
  induction l as [| v l IH]; intros a a' Ha; simpl; [exact Ha |].
  apply IH. rewrite Ha, f_affine. apply Qmin_affine_pos, Hk.
Qed.

Lemma fold_max_affine_pos (l : list A) (a a' : Q) :
  0 <= k -> a' == a * k + c ->
  fold_left Qmax (map f l) a' == fold_left Qmax (map h l) a * k + c.
Proof.
  intros Hk. revert a a'.
  induction l as [| v l IH]; intros a a' Ha; simpl; [exact Ha |].
  apply IH. rewrite Ha, f_affine. apply Qmax_affine_pos, Hk.
Qed.

Lemma fold_min_affine_neg (l : list A) (a a' : Q) :
  k <= 0 -> a' == a * k + c ->
  fold_left Qmin (map f l) a' == fold_left Qmax (map h l) a * k + c.
Proof.
  intros Hk. revert a a'.
  induction l as [| v l IH]; intros a a' Ha; simpl; [exact Ha |].
  apply IH. rewrite Ha, f_affine. apply Qmin_affine_neg, Hk.
Qed.

Lemma fold_max_affine_neg (l : list A) (a a' : Q) :
  k <= 0 -> a' == a * k + c ->
  fold_left Qmax (map f l) a' == fold_left Qmin (map h l) a * k + c.
Proof.
  intros Hk. revert a a'.
  induction l as [| v l IH]; intros a a' Ha; simpl; [exact Ha |].
  apply IH. rewrite Ha, f_affine. apply Qmax_affine_neg, Hk.
Qed.

End Extrema.

Section Bounds.

Lemma fold_min_le_init (l : list Q) (a : Q) : fold_left Qmin l a <= a.
Proof.
  revert a. induction l as [| x l IH]; intros a; simpl; [lra |].
  eapply Qle_trans; [apply IH | apply Q.le_min_l].
Qed.

Lemma fold_min_le_elem (l : list Q) (a x : Q) :
  In x l -> fold_left Qmin l a <= x.
Proof.
  revert a. induction l as [| y l IH]; intros a Hin; simpl in *; [tauto |].
  destruct Hin as [-> | Hin].
  - eapply Qle_trans; [apply fold_min_le_init | apply Q.le_min_r].
  - apply IH, Hin.
Qed.

Lemma fold_min_glb (l : list Q) (a m : Q) :
  m <= a -> (forall x, In x l -> m <= x) -> m <= fold_left Qmin l a.
Proof.
  revert a. induction l as [| y l IH]; intros a Ha Hl; simpl; [exact Ha |].
  apply IH.
  - apply Q.min_glb; [exact Ha | apply Hl; left; reflexivity].
  - intros x Hx. apply Hl. right. exact Hx.
Qed.

Lemma fold_max_ge_init (l : list Q) (a : Q) : a <= fold_left Qmax l a.
Proof.
  revert a. induction l as [| x l IH]; intros a; simpl; [lra |].
  eapply Qle_trans; [apply Q.le_max_l | apply IH].
Qed.

Lemma fold_max_ge_elem (l : list Q) (a x : Q) :
  In x l -> x <= fold_left Qmax l a.
Proof.
  revert a. induction l as [| y l IH]; intros a Hin; simpl in *; [tauto |].
  destruct Hin as [-> | Hin].
  - eapply Qle_trans; [apply Q.le_max_r | apply fold_max_ge_init].
  - apply IH, Hin.
Qed.

Lemma fold_max_lub (l : list Q) (a m : Q) :
  a <= m -> (forall x, In x l -> x <= m) -> fold_left Qmax l a <= m.
Proof.
  revert a. induction l as [| y l IH]; intros a Ha Hl; simpl; [exact Ha |].
  apply IH.
  - apply Q.max_lub; [exact Ha | apply Hl; left; reflexivity].
  - intros x Hx. apply Hl. right. exact Hx.
Qed.

Lemma fold_min_le_max (l : list Q) (a : Q) :
  fold_left Qmin l a <= fold_left Qmax l a.
Proof.
  eapply Qle_trans; [apply fold_min_le_init | apply fold_max_ge_init].
Qed.

(** Two sequences with the same elements have the same extrema. *)
Lemma fold_min_same (l l' : list Q) (a b : Q) :
  (forall x, In x (a :: l) -> In x (b :: l')) ->
  (forall x, In x (b :: l') -> In x (a :: l)) ->
  fold_left Qmin l a == fold_left Qmin l' b.
Proof.
  intros H1 H2. apply Qle_antisym; apply fold_min_glb.
  - destruct (H2 b (or_introl eq_refl)) as [<- | Hin];
      [apply fold_min_le_init | apply fold_min_le_elem, Hin].
  - intros x Hx. destruct (H2 x (or_intror Hx)) as [<- | Hin];
      [apply fold_min_le_init | apply fold_min_le_elem, Hin].
  - destruct (H1 a (or_introl eq_refl)) as [<- | Hin];
      [apply fold_min_le_init | apply fold_min_le_elem, Hin].
  - intros x Hx. destruct (H1 x (or_intror Hx)) as [<- | Hin];
      [apply fold_min_le_init | apply fold_min_le_elem, Hin].
Qed.

Lemma fold_max_same (l l' : list Q) (a b : Q) :
  (forall x, In x (a :: l) -> In x (b :: l')) ->
  (forall x, In x (b :: l') -> In x (a :: l)) ->
  fold_left Qmax l a == fold_left Qmax l' b.
Proof.
  intros H1 H2. apply Qle_antisym; apply fold_max_lub.
  - destruct (H1 a (or_introl eq_refl)) as [<- | Hin];
      [apply fold_max_ge_init | apply fold_max_ge_elem, Hin].
  - intros x Hx. destruct (H1 x (or_intror Hx)) as [<- | Hin];
      [apply fold_max_ge_init | apply fold_max_ge_elem, Hin].
  - destruct (H2 b (or_introl eq_refl)) as [<- | Hin];
      [apply fold_max_ge_init | apply fold_max_ge_elem, Hin].
  - intros x Hx. destruct (H2 x (or_intror Hx)) as [<- | Hin];
      [apply fold_max_ge_init | apply fold_max_ge_elem, Hin].
Qed.

End Bounds.

(** ** Bounding boxes under the maps the engine applies *)

Section GeometryFacts.
Import Three Layout Spec Examples.

Lemma gtb_true (a b : Q) : Num.gtb a b = true <-> b < a.
Proof.
  unfold Num.gtb. rewrite negb_true_iff, <- not_true_iff_false, Qle_bool_iff.
  split; [apply Qnot_le_lt | apply Qlt_not_le].
Qed.

Lemma gtb_false (a b : Q) : Num.gtb a b = false <-> a <= b.
Proof.
  unfold Num.gtb. rewrite negb_false_iff. apply Qle_bool_iff.
Qed.

Lemma minOf_mapGeometry (f : Vector3 -> Q) (m : Vector3 -> Vector3)
    (g : BufferGeometry) :
  minOf f (mapGeometry m g) = minOf (fun v => f (m v)) g.
Proof. unfold minOf, mapGeometry; simpl. now rewrite map_map. Qed.

Lemma maxOf_mapGeometry (f : Vector3 -> Q) (m : Vector3 -> Vector3)
    (g : BufferGeometry) :
  maxOf f (mapGeometry m g) = maxOf (fun v => f (m v)) g.
Proof. unfold maxOf, mapGeometry; simpl. now rewrite map_map. Qed.

Lemma minOf_affine_pos (f h : Vector3 -> Q) (k c : Q) (g : BufferGeometry) :
  0 <= k -> (forall v, f v == h v * k + c) ->
  minOf f g == minOf h g * k + c.
Proof.
  intros Hk Hf. unfold minOf, Num.qmin_list.
  apply fold_min_affine_pos; [exact Hf | exact Hk | apply Hf].
Qed.

Lemma maxOf_affine_pos (f h : Vector3 -> Q) (k c : Q) (g : BufferGeometry) :
  0 <= k -> (forall v, f v == h v * k + c) ->
  maxOf f g == maxOf h g * k + c.
Proof.
  intros Hk Hf. unfold maxOf, Num.qmax_list.
  apply fold_max_affine_pos; [exact Hf | exact Hk | apply Hf].
Qed.

Lemma minOf_affine_neg (f h : Vector3 -> Q) (k c : Q) (g : BufferGeometry) :
  k <= 0 -> (forall v, f v == h v * k + c) ->
  minOf f g == maxOf h g * k + c.
Proof.
  intros Hk Hf. unfold minOf, maxOf, Num.qmin_list, Num.qmax_list.
  apply fold_min_affine_neg; [exact Hf | exact Hk | apply Hf].
Qed.

Lemma maxOf_affine_neg (f h : Vector3 -> Q) (k c : Q) (g : BufferGeometry) :
  k <= 0 -> (forall v, f v == h v * k + c) ->
  maxOf f g == minOf h g * k + c.
Proof.
  intros Hk Hf. unfold minOf, maxOf, Num.qmin_list, Num.qmax_list.
  apply fold_max_affine_neg; [exact Hf | exact Hk | apply Hf].
Qed.

Lemma minOf_le_maxOf (f : Vector3 -> Q) (g : BufferGeometry) :
  minOf f g <= maxOf f g.
Proof. apply fold_min_le_max. Qed.

Lemma extent_nonneg (f : Vector3 -> Q) (g : BufferGeometry) : 0 <= extent f g.
Proof. unfold extent. pose proof (minOf_le_maxOf f g). lra. Qed.

Lemma sizeOf_boundingBox (g : BufferGeometry) :
  sizeOf (boundingBox g) = (extent vx g, extent vy g, extent vz g).
Proof. reflexivity. Qed.

(** A translation keeps every extent; a scaling by [k >= 0] along a
    coordinate multiplies that extent by [k]. *)
Lemma extent_affine_pos (f h : Vector3 -> Q) (k c : Q) (g : BufferGeometry) :
  0 <= k -> (forall v, f v == h v * k + c) ->
  extent f g == extent h g * k.
Proof.
  intros Hk Hf. unfold extent.
  rewrite (minOf_affine_pos f h k c g Hk Hf).
  rewrite (maxOf_affine_pos f h k c g Hk Hf). ring.
Qed.

Lemma extent_translate (t : Vector3) (g : BufferGeometry) :
  extent vx (translate t g) == extent vx g /\
  extent vy (translate t g) == extent vy g /\
  extent vz (translate t g) == extent vz g.
Proof.
  unfold extent, translate.
  rewrite !minOf_mapGeometry, !maxOf_mapGeometry.
  repeat split.
  - rewrite (minOf_affine_pos _ vx 1 (vx t)), (maxOf_affine_pos _ vx 1 (vx t));
      try lra; intros v; cbn; ring.
  - rewrite (minOf_affine_pos _ vy 1 (vy t)), (maxOf_affine_pos _ vy 1 (vy t));
      try lra; intros v; cbn; ring.
  - rewrite (minOf_affine_pos _ vz 1 (vz t)), (maxOf_affine_pos _ vz 1 (vz t));
      try lra; intros v; cbn; ring.
Qed.

Lemma extent_scale (s : Vector3) (g : BufferGeometry) :
  0 <= vx s -> 0 <= vy s -> 0 <= vz s ->
  extent vx (scale s g) == extent vx g * vx s /\
  extent vy (scale s g) == extent vy g * vy s /\
  extent vz (scale s g) == extent vz g * vz s.
Proof.
  intros Hx Hy Hz. unfold extent, scale.
  rewrite !minOf_mapGeometry, !maxOf_mapGeometry.
  repeat split.
  - rewrite (minOf_affine_pos _ vx (vx s) 0), (maxOf_affine_pos _ vx (vx s) 0);
      try assumption; try (intros v; cbn; ring). ring.
  - rewrite (minOf_affine_pos _ vy (vy s) 0), (maxOf_affine_pos _ vy (vy s) 0);
      try assumption; try (intros v; cbn; ring). ring.
  - rewrite (minOf_affine_pos _ vz (vz s) 0), (maxOf_affine_pos _ vz (vz s) 0);
      try assumption; try (intros v; cbn; ring). ring.
Qed.

End GeometryFacts.

(** ** Key count, body mesh and placement cardinality *)

Section KeyCount.
Import Three Positions Layout Spec Examples MoreExamples.

Lemma clampKeys_cases (n : Z) :
  let c := Num.clampKeys n in
  (c = 1 \/ c = 2 \/ c = 3 \/ c = 4 \/ c = 5 \/ c = 6 \/ c = 7)%Z.
Proof. unfold Num.clampKeys. lia. Qed.

Lemma clampKeys_id (n : Z) : (1 <= n <= 7)%Z -> Num.clampKeys n = n.
Proof. unfold Num.clampKeys. lia. Qed.

(** The table row that [keycapPositions] falls back to. *)
Lemma default_row_length (n : Z) :
  exists row,
    at_index KEYCAP_POSITIONS (Num.clampKeys n - 1) = Some row /\
    length row = Z.to_nat (Num.clampKeys n).
Proof.
  destruct (clampKeys_cases n) as [H | [H | [H | [H | [H | [H | H]]]]]];
    rewrite H; eexists; (split; [reflexivity | reflexivity]).
Qed.

Lemma keycapPositions_length (p : Props) :
  length (keycapPositions p) =
  match keycapPositionsProp p with
  | Some (v :: l) => length (v :: l)
  | _ => Z.to_nat (Num.clampKeys (numberOfKeys p))
  end.
Proof.
  unfold keycapPositions, keyIndex.
  destruct (default_row_length (numberOfKeys p)) as (row & Hrow & Hlen).
  destruct (keycapPositionsProp p) as [[| v l] |]; try reflexivity;
    rewrite Hrow; exact Hlen.
Qed.

Lemma keycapMeshPositions_length (p : Props) (a : Assets) :
  length (keycapMeshPositions p a) = length (keycapPositions p).
Proof. unfold keycapMeshPositions. apply length_map. Qed.

(** C10 in the code. In the scene, for every [numberOfKeys], [keyIndex] is
    [min(7, max(1, numberOfKeys)) - 1]: 0 for a count of 1 or less, the
    count less one from 1 to 7, and 6 for a count of 7 or more; so it lies
    within the seven body meshes, the store selected is the one loaded
    from the body mesh of the clamped count, and the default position
    table and [getDefaultPositions] are defined there, with as many
    entries as the clamped count. In [App.svelte] the count is not
    clamped where the letters and the icons are derived: for the stored
    design whose key count is -1, [getDefaultPositions] still answers
    with the row for one key, but [Array(numberOfKeys)] throws, so
    neither the letters nor the icons nor the props of the scene are
    defined. *)
Theorem negative_key_count_fails_in_app :
  (forall (p : Props) (a : Assets),
     let n := numberOfKeys p in
     let c := Z.min 7 (Z.max 1 n) in
     keyIndex p = (c - 1)%Z /\
     ((n <= 1)%Z -> keyIndex p = 0%Z) /\
     ((1 <= n <= 7)%Z -> keyIndex p = (n - 1)%Z) /\
     ((7 <= n)%Z -> keyIndex p = 6%Z) /\
     (0 <= keyIndex p < Z.of_nat (length CLICKER_URLS))%Z /\
     at_index CLICKER_URLS (keyIndex p)
       = Some ("clicker_" +:+ Js.decimal (Z.to_nat c) +:+ ".stl") /\
     currentGeometryStore p a
       = Some (load a ("clicker_" +:+ Js.decimal (Z.to_nat c) +:+ ".stl")) /\
     (exists row, at_index KEYCAP_POSITIONS (keyIndex p) = Some row /\
                  length row = Z.to_nat c) /\
     length (getDefaultPositions n) = Z.to_nat c) /\
  (App.numberOfKeysOf negativeCountStart = (-1)%Z /\
   App.keycapPositions negativeCountStart = [(4.5, 0, 0)] /\
   App.keycapLetters negativeCountStart = None /\
   App.keycapSvg negativeCountStart = None /\
   forall urlById, App.sceneProps urlById negativeCountStart = None).
Proof.
  split.
  - intros p a n c.
    assert (Hc : Num.clampKeys n = c) by reflexivity.
    unfold currentGeometryStore, geometryStores, keyIndex, getDefaultPositions.
    fold n. rewrite Hc.
    assert (Hcases : (c = 1 \/ c = 2 \/ c = 3 \/ c = 4 \/ c = 5 \/ c = 6
                      \/ c = 7)%Z) by (subst c; lia).
    assert (Hlo : ((n <= 1)%Z -> c = 1%Z)) by (subst c; lia).
    assert (Hmid : ((1 <= n <= 7)%Z -> c = n)) by (subst c; lia).
    assert (Hhi : ((7 <= n)%Z -> c = 7%Z)) by (subst c; lia).
    split; [reflexivity |].
    split; [intros H; rewrite (Hlo H); reflexivity |].
    split; [intros H; rewrite (Hmid H); reflexivity |].
    split; [intros H; rewrite (Hhi H); reflexivity |].
    clearbody c. clear Hc Hlo Hmid Hhi.
    destruct Hcases as [H | [H | [H | [H | [H | [H | H]]]]]]; subst c;
      (split; [cbn; lia |]);
      (split; [reflexivity |]);
      (split; [reflexivity |]);
      (split; [eexists; split; reflexivity | reflexivity]).
  - split; [reflexivity |].
    split; [reflexivity |].
    split; [reflexivity |].
    split; [reflexivity |].
    intros urlById. reflexivity.
Qed.

(** The default table, row by row: the row for [N] keys has [N] entries,
    each with a zero vertical offset. *)
Lemma default_table_rows :
  Forall2 (fun (N : nat) (row : list Vector3) =>
             length row = N /\ Forall (fun v => vy v = 0) row)
          (seq 1 7) KEYCAP_POSITIONS.
Proof.
  cbn [seq]. unfold KEYCAP_POSITIONS.
  repeat (constructor; [split; [reflexivity | repeat constructor] |]).
  constructor.
Qed.

(** C4, as stated, fails: with an explicit list of three positions and a
    key count of two, the layout yields three keycap placements. *)
Lemma placement_count_follows_explicit_list :
  numberOfKeys threePositionsForTwoKeys = 2%Z /\
  length (keycapMeshPositions threePositionsForTwoKeys noAssets) = 3%nat /\
  Z.of_nat (length (keycapMeshPositions threePositionsForTwoKeys noAssets))
    <> numberOfKeys threePositionsForTwoKeys.
Proof. repeat split. discriminate. Qed.

(** C4, amended. For [N] from 1 to 7 the default table supplies exactly
    [N] entries, each with a zero vertical offset. The layout yields one
    keycap placement per entry of the caller's position list when that
    list is non-empty, and otherwise exactly [min(7, max(1, N))]
    placements, which is [N] when [N] lies between 1 and 7. *)
Theorem placement_cardinality (p : Props) (a : Assets) :
  Forall2 (fun (N : nat) (row : list Vector3) =>
             length row = N /\ Forall (fun v => vy v = 0) row)
          (seq 1 7) KEYCAP_POSITIONS /\
  length (keycapMeshPositions p a) =
    match keycapPositionsProp p with
    | Some (v :: l) => length (v :: l)
    | _ => Z.to_nat (Num.clampKeys (numberOfKeys p))
    end /\
  (match keycapPositionsProp p with Some (_ :: _) => False | _ => True end ->
   (1 <= numberOfKeys p <= 7)%Z ->
   Z.of_nat (length (keycapMeshPositions p a)) = numberOfKeys p).
Proof.
  split; [exact default_table_rows |].
  rewrite keycapMeshPositions_length, keycapPositions_length.
  split; [reflexivity |].
  intros Hnone Hrange.
  destruct (keycapPositionsProp p) as [[| v l] |]; try tauto;
    rewrite clampKeys_id by exact Hrange; lia.
Qed.

End KeyCount.

(** ** Vertical stacking: body, keycap, border, legend *)

Section Stacking.
Import Three Positions Layout Spec Examples.

(** Every vertex of an extrusion lies at [z = 0] or at [z = depth]. *)
Lemma extrude_z_values (o : Outline) (d x : Q) :
  In x (map vz (vertices' (extrude o d))) -> x = 0 \/ x = d.
Proof.
  unfold extrude; cbn [vertices']. rewrite map_app, !map_map; cbn [vz snd].
  rewrite in_app_iff, !in_map_iff.
  intros [(q & <- & _) | (q & <- & _)]; [left | right]; reflexivity.
Qed.

Lemma extrude_has_depth (o : Outline) (d : Q) :
  In d (map vz (vertices' (extrude o d))).
Proof.
  unfold extrude; cbn [vertices']. rewrite map_app, !map_map; cbn [vz snd].
  apply in_or_app. right. left. reflexivity.
Qed.

Lemma extrude_minZ (o : Outline) (d : Q) : minOf vz (extrude o d) == Qmin 0 d.
Proof.
  unfold minOf, Num.qmin_list. apply Qle_antisym.
  - apply Q.min_glb.
    + apply (fold_min_le_init _ (vz (vertex0 (extrude o d)))).
    + apply fold_min_le_elem, extrude_has_depth.
  - apply fold_min_glb.
    + cbn. apply Q.le_min_l.
    + intros x Hx. destruct (extrude_z_values o d x Hx) as [-> | ->];
        [apply Q.le_min_l | apply Q.le_min_r].
Qed.

Lemma extrude_maxZ (o : Outline) (d : Q) : maxOf vz (extrude o d) == Qmax 0 d.
Proof.
  unfold maxOf, Num.qmax_list. apply Qle_antisym.
  - apply fold_max_lub.
    + cbn. apply Q.le_max_l.
    + intros x Hx. destruct (extrude_z_values o d x Hx) as [-> | ->];
        [apply Q.le_max_l | apply Q.le_max_r].
  - apply Q.max_lub.
    + apply (fold_max_ge_init _ (vz (vertex0 (extrude o d)))).
    + apply fold_max_ge_elem, extrude_has_depth.
Qed.

(** After recentring, a geometry spans [-e/2 .. e/2] in depth, [e] being
    its extent in z. *)
Lemma recenter_z (g : BufferGeometry) :
  minOf vz (recenter g) == - (extent vz g / 2) /\
  maxOf vz (recenter g) == extent vz g / 2.
Proof.
  unfold recenter, translate.
  rewrite minOf_mapGeometry, maxOf_mapGeometry.
  set (c := centerOf (boundingBox g)).
  assert (Hc : vz c == (minOf vz g + maxOf vz g) * (1 # 2)) by reflexivity.
  split.
  - etransitivity;
      [apply (minOf_affine_pos _ vz 1 (- vz c)); [lra | intros v; cbn; ring] |].
    rewrite Hc. unfold extent. field.
  - etransitivity;
      [apply (maxOf_affine_pos _ vz 1 (- vz c)); [lra | intros v; cbn; ring] |].
    rewrite Hc. unfold extent. field.
Qed.

(** World height of a local point under the scene's two orientations. *)
Lemma upright_world_y (pos : Vector3) (v : Vector3) :
  vy (localToWorld (borderMesh pos) v) == vz v * 1 + vy pos.
Proof. unfold localToWorld, rotate, borderMesh, FILE_TO_MM; cbn. ring. Qed.

Lemma label_world_y (p : Props) (pos : Vector3) (v : Vector3) :
  vy (localToWorld (labelMesh p pos) v) == vz v * (- textSizeMm p) + vy pos.
Proof. unfold localToWorld, rotate, labelMesh, FILE_TO_MM; cbn. ring. Qed.

(** The border mesh rests on [keycapTopY]. *)
Lemma border_base_on_keycap_top (p : Props) (a : Assets)
    (borderGeom : BufferGeometry) (x y z : Q) :
  borderGeometryStore a = Some borderGeom ->
  let border := borderOffset a in
  worldMinY
    (borderMesh (x - vx (bcenter border),
                 keycapTopY p a y - bminZ border,
                 z + vy (bcenter border)))
    borderGeom
  == keycapTopY p a y.
Proof.
  intros Hb border. unfold worldMinY.
  rewrite (minOf_affine_pos _ vz 1 _ borderGeom (ltac:(lra))
             (upright_world_y _)).
  subst border. unfold borderOffset. rewrite Hb. cbn. ring.
Qed.

(** The keycap mesh itself spans from the body top plus [y] upwards by
    its height. *)
Lemma keycap_world_extent (p : Props) (a : Assets)
    (keycapGeom : BufferGeometry) (x y z : Q) :
  keycapGeometryStore a = Some keycapGeom ->
  let offset := keycapOffset a in
  let pos := (x - vx (kcenter offset),
              clickerTopY p a + y - kminZ offset,
              z + vy (kcenter offset)) in
  worldMinY (keycapMesh pos) keycapGeom == clickerTopY p a + y /\
  worldMaxY (keycapMesh pos) keycapGeom
    == clickerTopY p a + y + keycapHeight a.
Proof.
  intros Hk offset pos. unfold worldMinY, worldMaxY.
  rewrite (minOf_affine_pos _ vz 1 _ keycapGeom (ltac:(lra))
             (upright_world_y _)).
  rewrite (maxOf_affine_pos _ vz 1 _ keycapGeom (ltac:(lra))
             (upright_world_y _)).
  subst pos offset. unfold keycapHeight, keycapOffset. rewrite Hk. cbn.
  split; ring.
Qed.

(** A letter, centred and scaled, straddles the plane of its position:
    half of [LEGEND_DEPTH_MM] below, half above. *)
Lemma label_straddles_position (p : Props) (f : Font) (letter : string)
    (pos : Vector3) :
  0 < textSizeMm p ->
  worldMinY (labelMesh p pos) (textGeometry f p letter)
    == vy pos - LEGEND_DEPTH_MM / 2 /\
  worldMaxY (labelMesh p pos) (textGeometry f p letter)
    == vy pos + LEGEND_DEPTH_MM / 2.
Proof.
  intros Hs. unfold worldMinY, worldMaxY.
  rewrite (minOf_affine_neg _ vz (- textSizeMm p) _ _ (ltac:(lra))
             (label_world_y p pos)).
  rewrite (maxOf_affine_neg _ vz (- textSizeMm p) _ _ (ltac:(lra))
             (label_world_y p pos)).
  unfold textGeometry.
  set (o := f _). set (d := LEGEND_DEPTH_MM / textSizeMm p).
  destruct (recenter_z (extrude o d)) as [Hmin Hmax].
  rewrite Hmin, Hmax. unfold extent.
  rewrite extrude_minZ, extrude_maxZ.
  assert (Hd : 0 < d).
  { unfold d. apply Qlt_shift_div_l; [exact Hs |]. unfold LEGEND_DEPTH_MM. lra. }
  rewrite Q.min_l, Q.max_r by lra.
  unfold d. split; field; lra.
Qed.

End Stacking.

Section StackingInvariant.
Import Three Positions Layout Spec Examples.

Lemma lookup_map {A B : Type} (f : A -> B) (l : list A) (i : nat) :
  map f l !! i = f <$> (l !! i).
Proof.
  revert i. induction l as [| x l IH]; intros [| i]; simpl; try reflexivity.
  apply IH.
Qed.

Lemma keycapHeight_nonneg (a : Assets) : 0 <= keycapHeight a.
Proof.
  unfold keycapHeight, keycapOffset.
  destruct (keycapGeometryStore a) as [g |]; cbn; [| lra].
  apply (extent_nonneg vz g).
Qed.

(** Where each label of [keycapLabels] comes from. *)
Lemma keycapLabels_origin (p : Props) (a : Assets) (lbl : Label) :
  lbl ∈ keycapLabels p a ->
  exists (f : Font) (i : nat) (letter : string) (x y z : Q),
    font a = Some f /\
    keycapLetters p !! i = Some letter /\
    has_url (keycapSvgUrls p) i = false /\
    Js.truthy (Js.trim letter) = true /\
    keycapPositions p !! i = Some (x, y, z) /\
    lbl = {| label_geometry := textGeometry f p letter;
             label_position := (x, keycapTopY p a y, z) |}.
Proof.
  unfold keycapLabels.
  destruct (font a) as [f |]; [| intros H; inversion H].
  destruct (keycapLetters p) as [| l0 ls] eqn:Hl; [intros H; inversion H |].
  destruct (keycapPositions p) as [| p0 ps] eqn:Hp; [intros H; inversion H |].
  rewrite list_elem_of_omap. intros (o & Ho & Hid). cbn in Hid. subst o.
  apply elem_of_lookup_imap in Ho. destruct Ho as (i & letter & Heq & Hi).
  exists f, i, letter.
  destruct (has_url (keycapSvgUrls p) i) eqn:Hu; [discriminate |].
  destruct ((p0 :: ps) !! i) as [[[x y] z] |] eqn:Hpos; [| discriminate].
  destruct (Js.truthy (Js.trim letter)) eqn:Ht; [| discriminate].
  exists x, y, z. inversion Heq. repeat split; try assumption; reflexivity.
Qed.

(** A key with a letter, no icon URL and a position gets a label. *)
Lemma keycapLabels_complete (p : Props) (a : Assets) (f : Font) (i : nat)
    (letter : string) (x y z : Q) :
  font a = Some f ->
  keycapLetters p !! i = Some letter ->
  has_url (keycapSvgUrls p) i = false ->
  Js.truthy (Js.trim letter) = true ->
  keycapPositions p !! i = Some (x, y, z) ->
  {| label_geometry := textGeometry f p letter;
     label_position := (x, keycapTopY p a y, z) |} ∈ keycapLabels p a.
Proof.
  intros Hf Hl Hu Ht Hp. unfold keycapLabels. rewrite Hf.
  destruct (keycapLetters p) as [| l0 ls] eqn:El; [discriminate |].
  destruct (keycapPositions p) as [| p0 ps] eqn:Ep; [discriminate |].
  rewrite list_elem_of_omap. eexists. split.
  - apply elem_of_lookup_imap. exists i, letter. split; [reflexivity | exact Hl].
  - cbn. rewrite Hu, Hp, Ht. reflexivity.
Qed.

End StackingInvariant.

(** ** Icon legend normalisation *)

Section Normalisation.
Import Three Layout Legend Spec Examples.

Lemma Qdiv_le_mono (a b c : Q) : 0 < c -> a <= b -> a / c <= b / c.
Proof.
  intros Hc Hab. unfold Qdiv. apply Qmult_le_compat_r; [exact Hab |].
  apply Qinv_le_0_compat. lra.
Qed.

Lemma max4_lower (a b c : Q) : 0.001 <= Num.max4 a b c 0.001.
Proof. unfold Num.max4. apply Q.le_max_r. Qed.

Lemma recenter_extents (g : BufferGeometry) :
  extent vx (recenter g) == extent vx g /\
  extent vy (recenter g) == extent vy g /\
  extent vz (recenter g) == extent vz g.
Proof. unfold recenter. apply extent_translate. Qed.

(** The extents of a normalised geometry, from those of the geometry
    that went in: the footprint is divided by the largest of the three
    extents (and of 0.001); the depth becomes 1 unless that division left
    it at 0.001 or less. *)
Lemma normalize_extents (g : BufferGeometry) :
  let M := Num.max4 (extent vx g) (extent vy g) (extent vz g) 0.001 in
  extent vx (normalize g) == extent vx g / M /\
  extent vy (normalize g) == extent vy g / M /\
  (0.001 < extent vz g / M -> extent vz (normalize g) == 1) /\
  (extent vz g / M <= 0.001 -> extent vz (normalize g) == extent vz g / M).
Proof.
  intros M. unfold normalize.
  destruct (recenter_extents g) as (Ex & Ey & Ez).
  set (g1 := recenter g) in *.
  rewrite (sizeOf_boundingBox g1). cbn [vx vy vz fst snd].
  set (M1 := Num.max4 (extent vx g1) (extent vy g1) (extent vz g1) 0.001).
  assert (HM : M1 == M).
  { unfold M1, M, Num.max4, Num.max3. rewrite Ex, Ey, Ez. reflexivity. }
  assert (HM1 : 0.001 <= M1) by apply max4_lower.
  assert (Hs : 0 <= 1 / M1).
  { apply Qle_shift_div_l; lra. }
  destruct (extent_scale (1 / M1, 1 / M1, 1 / M1) g1 Hs Hs Hs)
    as (Sx & Sy & Sz).
  cbn [vx vy vz fst snd] in Sx, Sy, Sz.
  set (g2 := scale (1 / M1, 1 / M1, 1 / M1) g1) in *.
  change (vz (bmax (boundingBox g2)) - vz (bmin (boundingBox g2)))
    with (extent vz g2).
  assert (Hz : extent vz g2 == extent vz g / M).
  { rewrite Sz, Ez, <- HM. field. lra. }
  assert (Hx : extent vx g2 == extent vx g / M).
  { rewrite Sx, Ex, <- HM. field. lra. }
  assert (Hy : extent vy g2 == extent vy g / M).
  { rewrite Sy, Ey, <- HM. field. lra. }
  destruct (Num.gtb (extent vz g2) 0.001) eqn:Hgt.
  - apply gtb_true in Hgt.
    assert (Hinv : 0 <= 1 / extent vz g2).
    { apply Qle_shift_div_l; lra. }
    destruct (extent_scale (1, 1, 1 / extent vz g2) g2
                ltac:(cbn; lra) ltac:(cbn; lra) Hinv) as (Tx & Ty & Tz).
    cbn [vx vy vz fst snd] in Tx, Ty, Tz.
    repeat split.
    + rewrite Tx, Hx. ring.
    + rewrite Ty, Hy. ring.
    + intros _. rewrite Tz. field. lra.
    + intros Hle. rewrite Hz in Hgt. lra.
  - apply gtb_false in Hgt.
    repeat split; try assumption.
    + intros Hlt. rewrite Hz in Hgt. lra.
    + intros _. exact Hz.
Qed.

(** Where the footprint is at least as large as the depth (and as
    0.001), and not so large that the scaled depth drops to 0.001, the
    normalised geometry has footprint 1 and depth 1. *)
Lemma normalize_unit (g : BufferGeometry) :
  let W := Qmax (extent vx g) (extent vy g) in
  0.001 <= W -> extent vz g <= W -> 0.001 * W < extent vz g ->
  inPlaneMax (normalize g) == 1 /\ depthOf (normalize g) == 1.
Proof.
  intros W H1 H2 H3.
  destruct (normalize_extents g) as (Hx & Hy & Hz & _).
  set (M := Num.max4 (extent vx g) (extent vy g) (extent vz g) 0.001) in *.
  assert (HM : M == W).
  { unfold M, Num.max4, Num.max3. fold W.
    rewrite (Q.max_l W (extent vz g)) by exact H2.
    apply Q.max_l. exact H1. }
  unfold inPlaneMax, depthOf. rewrite sizeOf_boundingBox.
  cbn [vx vy vz fst snd]. split.
  - rewrite Hx, Hy, HM.
    assert (HW : 0 < W) by lra.
    destruct (Q.max_spec (extent vx g) (extent vy g)) as [[Hlt HWe] | [Hle HWe]];
      fold W in HWe.
    + rewrite Q.max_r by (apply Qdiv_le_mono; lra).
      rewrite <- HWe. field. lra.
    + rewrite Q.max_l by (apply Qdiv_le_mono; lra).
      rewrite <- HWe. field. lra.
  - apply Hz. rewrite HM. apply Qlt_shift_div_l; lra.
Qed.

Lemma scale_z (s : Vector3) (g : BufferGeometry) :
  0 <= vz s ->
  minOf vz (scale s g) == minOf vz g * vz s /\
  maxOf vz (scale s g) == maxOf vz g * vz s.
Proof.
  intros Hs. unfold scale. rewrite minOf_mapGeometry, maxOf_mapGeometry.
  split.
  - etransitivity;
      [apply (minOf_affine_pos _ vz (vz s) 0); [exact Hs | intros v; cbn; ring] |].
    ring.
  - etransitivity;
      [apply (maxOf_affine_pos _ vz (vz s) 0); [exact Hs | intros v; cbn; ring] |].
    ring.
Qed.

(** A normalised geometry is centred in depth: it reaches as far below
    its local origin as above it. *)
Lemma normalize_symmetric (g : BufferGeometry) :
  minOf vz (normalize g) == - maxOf vz (normalize g).
Proof.
  unfold normalize.
  destruct (recenter_z g) as [Hmin Hmax].
  set (g1 := recenter g) in *.
  rewrite (sizeOf_boundingBox g1). cbn [vx vy vz fst snd].
  set (M1 := Num.max4 (extent vx g1) (extent vy g1) (extent vz g1) 0.001).
  assert (HM1 : 0.001 <= M1) by apply max4_lower.
  assert (Hs : 0 <= 1 / M1) by (apply Qle_shift_div_l; lra).
  destruct (scale_z (1 / M1, 1 / M1, 1 / M1) g1 Hs) as [Smin Smax].
  cbn [vz snd] in Smin, Smax.
  set (g2 := scale (1 / M1, 1 / M1, 1 / M1) g1) in *.
  assert (H2 : minOf vz g2 == - maxOf vz g2).
  { rewrite Smin, Smax, Hmin, Hmax. ring. }
  change (vz (bmax (boundingBox g2)) - vz (bmin (boundingBox g2)))
    with (extent vz g2).
  destruct (Num.gtb (extent vz g2) 0.001) eqn:Hgt; [| exact H2].
  apply gtb_true in Hgt.
  assert (Hinv : 0 <= 1 / extent vz g2) by (apply Qle_shift_div_l; lra).
  destruct (scale_z (1, 1, 1 / extent vz g2) g2 Hinv) as [Tmin Tmax].
  cbn [vz snd] in Tmin, Tmax.
  rewrite Tmin, Tmax, H2. ring.
Qed.

End Normalisation.

Section IconSynthesis.
Import Three Layout Legend Spec Examples.

Lemma extrude_first_z (o : Outline) (d : Q) : vz (vertex0 (extrude o d)) = 0.
Proof. reflexivity. Qed.

Lemma extrude_all_z (o : Outline) (d x : Q) :
  In x (map vz (vertices (extrude o d))) -> x = 0 \/ x = d.
Proof.
  unfold vertices. cbn [map]. intros [<- | Hin].
  - left. reflexivity.
  - apply (extrude_z_values o d x Hin).
Qed.

(** Merged extrusions of one depth keep that depth. *)
Lemma merged_depth (shapes : list Outline) (d : Q) (merged : BufferGeometry) :
  0 <= d ->
  mergeGeometries (map (fun shape => extrude shape d) shapes) = Some merged ->
  extent vz merged == d.
Proof.
  intros Hd Hm.
  destruct shapes as [| o rest]; [discriminate |].
  cbn [map mergeGeometries] in Hm. inversion Hm as [Heq]. clear Hm Heq.
  set (tail := vertices' (extrude o d)
               ++ flat_map vertices (map (fun shape => extrude shape d) rest)).
  assert (Hvals : forall x, In x (map vz tail) -> x = 0 \/ x = d).
  { intros x Hx. unfold tail in Hx. rewrite map_app, in_app_iff in Hx.
    destruct Hx as [Hx | Hx]; [apply (extrude_z_values o d x Hx) |].
    apply in_map_iff in Hx. destruct Hx as (v & <- & Hv).
    apply in_flat_map in Hv. destruct Hv as (g & Hg & Hv).
    apply in_map_iff in Hg. destruct Hg as (o' & <- & _).
    apply (extrude_all_z o' d). apply in_map. exact Hv. }
  assert (Hin : In d (map vz tail)).
  { unfold tail. rewrite map_app. apply in_or_app. left.
    apply extrude_has_depth. }
  change (fold_left Qmax (map vz tail) 0 - fold_left Qmin (map vz tail) 0 == d).
  assert (Hmax : fold_left Qmax (map vz tail) 0 == d).
  { apply Qle_antisym.
    - apply fold_max_lub; [exact Hd |].
      intros x Hx. destruct (Hvals x Hx) as [-> | ->]; lra.
    - apply fold_max_ge_elem, Hin. }
  assert (Hmin : fold_left Qmin (map vz tail) 0 == 0).
  { apply Qle_antisym.
    - apply fold_min_le_init.
    - apply fold_min_glb; [lra |].
      intros x Hx. destruct (Hvals x Hx) as [-> | ->]; lra. }
  rewrite Hmax, Hmin. ring.
Qed.

Lemma synthesize_merged (shapes : list Outline) (merged : BufferGeometry) :
  mergeGeometries (map (fun shape => extrude shape SVG_EXTRUDE_DEPTH) shapes)
    = Some merged ->
  synthesize shapes = Some (normalize merged).
Proof.
  unfold synthesize.
  destruct shapes as [| o [| o' rest]]; cbn [map]; intros Hm.
  - discriminate.
  - cbn in Hm. rewrite app_nil_r in Hm. inversion Hm. reflexivity.
  - rewrite Hm. reflexivity.
Qed.

(** X1. An icon whose footprint, before normalisation, is at least the
    extrusion depth 2 and below 2000 gets footprint 1 and depth 1. *)
Lemma synthesize_unit (shapes : list Outline) (merged : BufferGeometry) :
  mergeGeometries (map (fun shape => extrude shape SVG_EXTRUDE_DEPTH) shapes)
    = Some merged ->
  SVG_EXTRUDE_DEPTH <= inPlaneMax merged -> inPlaneMax merged < 2000 ->
  exists g, synthesize shapes = Some g /\
            inPlaneMax g == 1 /\ depthOf g == 1.
Proof.
  intros Hm Hlo Hhi. exists (normalize merged).
  split; [apply synthesize_merged, Hm |].
  assert (Hd : extent vz merged == SVG_EXTRUDE_DEPTH).
  { apply (merged_depth shapes); [unfold SVG_EXTRUDE_DEPTH; lra | exact Hm]. }
  unfold inPlaneMax in Hlo, Hhi. rewrite sizeOf_boundingBox in Hlo, Hhi.
  cbn [vx vy fst snd] in Hlo, Hhi. unfold SVG_EXTRUDE_DEPTH in *.
  apply normalize_unit; rewrite ?Hd; lra.
Qed.

Lemma synthesize_unit_witness :
  mergeGeometries
    (map (fun shape => extrude shape SVG_EXTRUDE_DEPTH) [iconOutline24])
  = Some (extrude iconOutline24 SVG_EXTRUDE_DEPTH) /\
  SVG_EXTRUDE_DEPTH <= inPlaneMax (extrude iconOutline24 SVG_EXTRUDE_DEPTH) /\
  inPlaneMax (extrude iconOutline24 SVG_EXTRUDE_DEPTH) < 2000 /\
  exists g, synthesize [iconOutline24] = Some g /\
            inPlaneMax g == 1 /\ depthOf g == 1.
Proof.
  assert (Hm : mergeGeometries
                 (map (fun shape => extrude shape SVG_EXTRUDE_DEPTH)
                      [iconOutline24])
               = Some (extrude iconOutline24 SVG_EXTRUDE_DEPTH))
    by (vm_compute; reflexivity).
  assert (Hlo : SVG_EXTRUDE_DEPTH
                <= inPlaneMax (extrude iconOutline24 SVG_EXTRUDE_DEPTH))
    by (vm_compute; discriminate).
  assert (Hhi : inPlaneMax (extrude iconOutline24 SVG_EXTRUDE_DEPTH) < 2000)
    by (vm_compute; reflexivity).
  split; [exact Hm |]. split; [exact Hlo |]. split; [exact Hhi |].
  exact (synthesize_unit [iconOutline24] _ Hm Hlo Hhi).
Defined.

(** C2 at two icons. A square of side 1 is smaller than the extrusion
    depth 2, so the first pass divides by 2 and leaves a footprint of
    one half. A square of side 4000 brings the depth down to 1/2000, under
    the 0.001 guard, so the depth is left there. *)
Theorem icon_normalisation_misses_unit :
  (exists g, synthesize [squareOutline] = Some g /\
             inPlaneMax g == 1 # 2 /\ depthOf g == 1 /\
             ~ inPlaneMax g == 1) /\
  (exists g, synthesize [wideOutline] = Some g /\
             inPlaneMax g == 1 /\ depthOf g == 1 # 2000 /\
             ~ depthOf g == 1).
Proof.
  split; eexists; (split; [vm_compute; reflexivity |]);
    (split; [vm_compute; reflexivity |]);
    (split; [vm_compute; reflexivity |]);
    intros H; vm_compute in H; discriminate.
Qed.

End IconSynthesis.

Section LegendStacking.
Import Three Positions Layout Legend Spec Examples.

Lemma svg_world_y (p : Props) (pos : Vector3) (v : Vector3) :
  vy (localToWorld (svgMesh p pos) v) == vz v * (- LEGEND_DEPTH_MM) + vy pos.
Proof.
  unfold localToWorld, rotate, svgMesh, FILE_TO_MM, LEGEND_DEPTH_MM; cbn. ring.
Qed.

(** A synthesised icon of depth 1, scaled to [LEGEND_DEPTH_MM], straddles
    the plane of its position like a letter does. *)
Lemma icon_straddles_position (p : Props) (pos : Vector3)
    (shapes : list Outline) (g : BufferGeometry) :
  synthesize shapes = Some g -> depthOf g == 1 ->
  worldMinY (svgMesh p pos) g == vy pos - LEGEND_DEPTH_MM / 2 /\
  worldMaxY (svgMesh p pos) g == vy pos + LEGEND_DEPTH_MM / 2.
Proof.
  intros Hg Hd.
  assert (Hsym : minOf vz g == - maxOf vz g).
  { unfold synthesize in Hg.
    destruct (map (fun shape => extrude shape SVG_EXTRUDE_DEPTH) shapes)
      as [| g0 [| g1 gs]]; [discriminate | |].
    - inversion Hg. apply normalize_symmetric.
    - destruct (mergeGeometries (g0 :: g1 :: gs)) as [m |]; [| discriminate].
      inversion Hg. apply normalize_symmetric. }
  unfold depthOf in Hd. rewrite sizeOf_boundingBox in Hd.
  cbn [vz snd] in Hd. unfold extent in Hd.
  assert (Hneg : - LEGEND_DEPTH_MM <= 0) by (unfold LEGEND_DEPTH_MM; lra).
  unfold worldMinY, worldMaxY.
  rewrite (minOf_affine_neg _ vz (- LEGEND_DEPTH_MM) _ g Hneg (svg_world_y p pos)).
  rewrite (maxOf_affine_neg _ vz (- LEGEND_DEPTH_MM) _ g Hneg (svg_world_y p pos)).
  assert (Hmax : maxOf vz g == 1 # 2) by lra.
  assert (Hmin : minOf vz g == - (1 # 2)) by lra.
  rewrite Hmax, Hmin. split; field.
Qed.

(** Where each slot of [keycapSvgSlots] comes from. *)
Lemma keycapSvgSlots_origin (p : Props) (a : Assets) (slot : SvgSlot) :
  slot ∈ keycapSvgSlots p a ->
  exists (i : nat) (x y z : Q),
    keycapPositions p !! i = Some (x, y, z) /\
    slot_position slot = (x, keycapTopY p a y, z).
Proof.
  unfold keycapSvgSlots.
  destruct (keycapSvgUrls p) as [| u0 us] eqn:Hu; [intros H; inversion H |].
  destruct (keycapPositions p) as [| p0 ps] eqn:Hp; [intros H; inversion H |].
  rewrite list_elem_of_omap. intros (o & Ho & Hid). cbn in Hid. subst o.
  apply elem_of_lookup_imap in Ho. destruct Ho as (i & [[x y] z] & Heq & Hi).
  exists i, x, y, z. split; [exact Hi |].
  destruct (mjoin ((u0 :: us) !! i)) as [url |]; [| discriminate].
  destruct (Js.truthy (Js.trim url)); [| discriminate].
  inversion Heq. reflexivity.
Qed.

(** The keycap mesh of key [i] as the scene places it, against the
    border placed for the same key: the keycap reaches from the body top
    plus [y] up by its own height, and the border's lowest point is the
    keycap's highest point less the keycap's [minZ]. *)
Lemma border_base_offset (p : Props) (a : Assets) (kg bg : BufferGeometry)
    (i : nat) (x y z : Q) :
  keycapGeometryStore a = Some kg ->
  borderGeometryStore a = Some bg ->
  keycapPositions p !! i = Some (x, y, z) ->
  exists kpos bpos,
    keycapMeshPositions p a !! i = Some kpos /\
    borderMeshPositions p a !! i = Some bpos /\
    worldMinY (keycapMesh kpos) kg == clickerTopY p a + y /\
    worldMaxY (keycapMesh kpos) kg == clickerTopY p a + y + extent vz kg /\
    worldMinY (borderMesh bpos) bg
      == worldMaxY (keycapMesh kpos) kg - minOf vz kg.
Proof.
  intros Hk Hb Hpos.
  destruct (keycap_world_extent p a kg x y z Hk) as [Hmin Hmax].
  pose proof (border_base_on_keycap_top p a bg x y z Hb) as Hborder.
  cbv zeta in Hmin, Hmax, Hborder.
  assert (Hh : keycapHeight a == extent vz kg).
  { unfold keycapHeight, keycapOffset. rewrite Hk. reflexivity. }
  assert (Hz : kminZ (keycapOffset a) == minOf vz kg).
  { unfold keycapOffset. rewrite Hk. reflexivity. }
  eexists. eexists.
  split; [unfold keycapMeshPositions; rewrite lookup_map;
          unfold Vector3 in *; rewrite Hpos; reflexivity |].
  split; [unfold borderMeshPositions; rewrite lookup_map;
          unfold Vector3 in *; rewrite Hpos; reflexivity |].
  split; [exact Hmin |].
  split; [rewrite Hmax, Hh; reflexivity |].
  fold (keycapBottomY p a y). fold (keycapTopY p a y).
  rewrite Hborder, Hmax. unfold keycapTopY, keycapBottomY.
  rewrite <- Hz. unfold keycapHeight. ring.
Qed.

(** C1 in the code. For every key the keycap mesh reaches from the body
    top plus [y] up by its height; the border's lowest point is the
    keycap's highest point less the keycap's [minZ], and the lowest point
    of a letter is half of [LEGEND_DEPTH_MM] lower still. So the border
    rests on the keycap only when the keycap mesh rests on its local
    [z = 0]. With a keycap mesh that runs from [z = -3] to [z = 5] on the
    demo body, the keycap spans the heights 12 to 20, the border starts at
    23 and the letter at 22.4. With the demo keycap, which rests on
    [z = 0], the border starts on the keycap top at 19 and the letter at
    18.4. *)
Theorem border_base_misses_keycap_top :
  (forall (p : Props) (a : Assets) (kg bg : BufferGeometry) (i : nat)
          (x y z : Q),
     keycapGeometryStore a = Some kg ->
     borderGeometryStore a = Some bg ->
     keycapPositions p !! i = Some (x, y, z) ->
     exists kpos bpos,
       keycapMeshPositions p a !! i = Some kpos /\
       borderMeshPositions p a !! i = Some bpos /\
       worldMinY (keycapMesh kpos) kg == clickerTopY p a + y /\
       worldMaxY (keycapMesh kpos) kg == clickerTopY p a + y + extent vz kg /\
       worldMinY (borderMesh bpos) bg
         == worldMaxY (keycapMesh kpos) kg - minOf vz kg) /\
  (forall (p : Props) (a : Assets) (kg : BufferGeometry) (lbl : Label),
     0 < textSizeMm p ->
     keycapGeometryStore a = Some kg ->
     lbl ∈ keycapLabels p a ->
     exists (i : nat) (x y z : Q) (kpos : Vector3),
       keycapPositions p !! i = Some (x, y, z) /\
       keycapMeshPositions p a !! i = Some kpos /\
       worldMinY (labelMesh p (label_position lbl)) (label_geometry lbl)
         == worldMaxY (keycapMesh kpos) kg - minOf vz kg
            - LEGEND_DEPTH_MM / 2) /\
  (exists kpos bpos lbl,
     keycapMeshPositions demoProps offsetAssets = [kpos] /\
     borderMeshPositions demoProps offsetAssets = [bpos] /\
     keycapLabels demoProps offsetAssets = [lbl] /\
     clickerTopY demoProps offsetAssets == 12 /\
     worldMinY (keycapMesh kpos) offsetKeycap == 12 /\
     worldMaxY (keycapMesh kpos) offsetKeycap == 20 /\
     worldMinY (borderMesh bpos) demoBorder == 23 /\
     worldMinY (labelMesh demoProps (label_position lbl)) (label_geometry lbl)
       == 22.4 /\
     ~ worldMinY (borderMesh bpos) demoBorder
       == worldMaxY (keycapMesh kpos) offsetKeycap /\
     ~ worldMinY (labelMesh demoProps (label_position lbl)) (label_geometry lbl)
       == worldMaxY (keycapMesh kpos) offsetKeycap) /\
  (exists kpos bpos lbl,
     keycapMeshPositions demoProps demoAssets = [kpos] /\
     borderMeshPositions demoProps demoAssets = [bpos] /\
     keycapLabels demoProps demoAssets = [lbl] /\
     worldMaxY (keycapMesh kpos) demoKeycap == 19 /\
     worldMinY (borderMesh bpos) demoBorder == 19 /\
     worldMinY (labelMesh demoProps (label_position lbl)) (label_geometry lbl)
       == 18.4 /\
     ~ worldMinY (labelMesh demoProps (label_position lbl)) (label_geometry lbl)
       == worldMinY (borderMesh bpos) demoBorder).
Proof.
  split; [exact border_base_offset |].
  split.
  - intros p a kg lbl Hs Hk Hin.
    destruct (keycapLabels_origin p a lbl Hin)
      as (f & i & letter & x & y & z & _ & _ & _ & _ & Hpos & ->).
    destruct (keycap_world_extent p a kg x y z Hk) as [_ Hmax].
    cbv zeta in Hmax.
    destruct (label_straddles_position p f letter (x, keycapTopY p a y, z) Hs)
      as [Hlo _].
    exists i, x, y, z. eexists.
    split; [exact Hpos |].
    split; [unfold keycapMeshPositions; rewrite lookup_map;
            unfold Vector3 in *; rewrite Hpos; reflexivity |].
    cbn [label_position label_geometry]. rewrite Hlo, Hmax.
    cbn [vy fst snd]. unfold keycapTopY, keycapBottomY, keycapHeight, keycapOffset.
    rewrite Hk. cbn [kminZ kmaxZ boundingBox bmin bmax vz snd]. ring.
  - split; eexists; eexists; eexists;
      repeat (split; [vm_compute; reflexivity |]).
    + split; intros H; vm_compute in H; discriminate.
    + intros H; vm_compute in H; discriminate.
Qed.

End LegendStacking.

(** ** Export: file names and legend precedence *)

Section ExportNames.
Import Three Layout Exporter Spec Examples.

Lemma append_cons (c : ascii) (s t : string) :
  String c s +:+ t = String c (s +:+ t).
Proof. reflexivity. Qed.

Lemma strip_prefix_app (pre s : string) : strip_prefix pre (pre +:+ s) = Some s.
Proof.
  induction pre as [| c pre IH]; [destruct s; reflexivity |].
  rewrite append_cons. cbn [strip_prefix]. rewrite Ascii.eqb_refl. exact IH.
Qed.

(** The digits of a decimal numeral are read back whole when what follows
    does not start with a digit. *)
Lemma digits_of_uint (d : Decimal.uint) (rest : string) :
  digits_of rest = EmptyString ->
  digits_of (NilEmpty.string_of_uint d +:+ rest) = NilEmpty.string_of_uint d.
Proof.
  intros Hrest.
  induction d as [| d IH | d IH | d IH | d IH | d IH | d IH | d IH | d IH
                  | d IH | d IH];
    cbn [NilEmpty.string_of_uint];
    [destruct rest; exact Hrest | ..];
    rewrite append_cons; cbn [digits_of];
    (replace (is_digit _) with true by reflexivity);
    rewrite IH; reflexivity.
Qed.

Lemma decodeIndex_name (n : nat) (rest : string) :
  digits_of rest = EmptyString ->
  decodeIndex ("keycap-" +:+ Js.decimal n +:+ rest) = Some n.
Proof.
  intros Hrest. unfold decodeIndex.
  rewrite strip_prefix_app. cbn [mbind option_bind].
  unfold Js.decimal. rewrite (digits_of_uint _ _ Hrest).
  rewrite NilEmpty.usu. cbn [fmap option_fmap option_map].
  rewrite DecimalNat.Unsigned.of_to. reflexivity.
Qed.

Lemma append_length (s t : string) :
  String.length (s +:+ t) = (String.length s + String.length t)%nat.
Proof.
  induction s as [| c s IH]; [reflexivity |].
  rewrite append_cons. cbn [String.length Nat.add]. now rewrite IH.
Qed.

Lemma letterName_not_indexOnly (n : nat) (legend : string) :
  letterName n legend <> indexOnlyName n.
Proof.
  intros H. apply (f_equal String.length) in H.
  unfold letterName, indexOnlyName in H.
  rewrite !append_length in H. cbn [String.length] in H. lia.
Qed.

Lemma toUpperCase_truthy (s : string) :
  Js.truthy s = true ->
  exists rest, Js.toUpperCase s = Js.slice01 (Js.toUpperCase s) +:+ rest /\
               Js.slice01 (Js.toUpperCase s) <> EmptyString.
Proof.
  destruct s as [| c s]; [discriminate |]. intros _.
  exists (Js.toUpperCase s). split; [reflexivity | discriminate].
Qed.

(** The export's two tests, [letter] and [svgUrl] after [trim()], against
    what the props assign to the key. *)
Lemma letterAt_hasLetter (p : Props) (i : nat) :
  truthy (letterAt p i) = hasLetter p i.
Proof.
  unfold letterAt, hasLetter.
  destruct (keycapLetters p !! i); reflexivity.
Qed.

Lemma svgUrlAt_hasIcon (p : Props) (i : nat) :
  truthy (svgUrlAt p i) = hasIcon p i.
Proof.
  unfold svgUrlAt, hasIcon.
  destruct (keycapSvgUrls p !! i) as [[url |] |]; reflexivity.
Qed.

Lemma exportName_encodes (p : Props) (i : nat) :
  nameEncodes p i (exportName p i).
Proof.
  unfold nameEncodes, exportName.
  rewrite letterAt_hasLetter, svgUrlAt_hasIcon.
  fold (carriesTextLegend p i).
  fold (indexOnlyName (i + 1)).
  fold (letterName (i + 1) (Js.toUpperCase (default "" (letterAt p i)))).
  destruct (carriesTextLegend p i) eqn:Hc.
  - unfold carriesTextLegend in Hc.
    apply andb_true_iff in Hc. destruct Hc as [Hl Hi].
    apply negb_true_iff in Hi.
    split; [apply decodeIndex_name; reflexivity |].
    split; [rewrite Hi; discriminate |].
    split; [rewrite Hl; discriminate |].
    split.
    + split; [intros H; exfalso; exact (letterName_not_indexOnly _ _ H)
             | discriminate].
    + intros _. unfold hasLetter in Hl. unfold letterAt.
      destruct (keycapLetters p !! i) as [letter |]; [| discriminate].
      exists letter. split; [reflexivity |]. split; [reflexivity |].
      apply toUpperCase_truthy. exact Hl.
  - split; [apply decodeIndex_name; reflexivity |].
    split; [reflexivity |].
    split; [reflexivity |].
    split; [split; reflexivity | discriminate].
Qed.

End ExportNames.

Section ExportFiles.
Import Three Layout Exporter Spec Examples.

Lemma keycapMeshPositions_lookup (p : Props) (a : Assets) (i : nat) :
  is_Some (keycapMeshPositions p a !! i) <-> is_Some (keycapPositions p !! i).
Proof.
  rewrite !lookup_lt_is_Some, keycapMeshPositions_length. reflexivity.
Qed.

Lemma exportOne_is_Some (p : Props) (a : Assets) (kg : BufferGeometry)
    (i : nat) :
  (i < length (keycapPositions p))%nat -> is_Some (exportOne p a kg i).
Proof.
  intros Hi. unfold exportOne.
  destruct (lookup_lt_is_Some_2 _ _ Hi) as [slot Hslot].
  destruct (proj2 (keycapMeshPositions_lookup p a i) (mk_is_Some _ _ Hslot))
    as [pos Hpos].
  rewrite Hpos, Hslot. eexists. reflexivity.
Qed.

Lemma exportOne_name (p : Props) (a : Assets) (kg : BufferGeometry)
    (i : nat) (f : StlFile) :
  exportOne p a kg i = Some f -> file_name f = exportName p i.
Proof.
  unfold exportOne.
  destruct (keycapMeshPositions p a !! i); [| discriminate].
  destruct (keycapPositions p !! i); [| discriminate].
  intros H. inversion H. reflexivity.
Qed.

Lemma omap_seq_lookup {A : Type} (g : nat -> option A) (n s j : nat) :
  (forall k, (s <= k < s + n)%nat -> is_Some (g k)) ->
  omap g (seq s n) !! j = if (j <? n)%nat then g (s + j)%nat else None.
Proof.
  revert s j. induction n as [| n IH]; intros s j Hall; [reflexivity |].
  destruct (Hall s ltac:(lia)) as [x Hx].
  assert (Hcons : omap g (seq s (S n)) = x :: omap g (seq (S s) n)).
  { cbn [seq]. change (omap g (s :: seq (S s) n))
      with (match g s with
            | Some y => y :: omap g (seq (S s) n)
            | None => omap g (seq (S s) n)
            end).
    rewrite Hx. reflexivity. }
  rewrite Hcons. destruct j as [| j].
  - cbn. rewrite Nat.add_0_r. symmetry. exact Hx.
  - change ((x :: omap g (seq (S s) n)) !! S j)
      with (omap g (seq (S s) n) !! j).
    rewrite IH by (intros k Hk; apply Hall; lia).
    replace (S s + j)%nat with (s + S j)%nat by lia.
    reflexivity.
Qed.

Lemma export_single (p : Props) (a : Assets) (i : nat) (f : StlFile) :
  f ∈ files (exportKeycapStl p a (Some i)) ->
  exists kg, keycapGeometryStore a = Some kg /\ exportOne p a kg i = Some f.
Proof.
  unfold exportKeycapStl.
  destruct (keycapGeometryStore a) as [kg |]; cbn [files];
    [| intros H; inversion H].
  cbn [omap list_omap].
  destruct (exportOne p a kg i) as [f' |] eqn:He; intros H.
  - apply list_elem_of_singleton in H. subst f'. exists kg.
    split; [reflexivity | exact He].
  - inversion H.
Qed.

Lemma export_batch (p : Props) (a : Assets) (j : nat) (f : StlFile) :
  files (exportKeycapStl p a None) !! j = Some f ->
  exists kg, keycapGeometryStore a = Some kg /\ exportOne p a kg j = Some f.
Proof.
  unfold exportKeycapStl.
  destruct (keycapGeometryStore a) as [kg |]; cbn [files];
    [| intros H; discriminate].
  rewrite omap_seq_lookup.
  - destruct (j <? _)%nat; [| discriminate].
    intros H. exists kg. split; [reflexivity | exact H].
  - intros k Hk. apply exportOne_is_Some.
    rewrite keycapMeshPositions_length in Hk. lia.
Qed.

(** C5. Every file the export produces for keycap [i] (0-based, whether
    asked for alone or as part of the batch) carries the 1-based index
    [i + 1] in its name, readable back from it. When the props assign a
    non-blank icon URL to the key, the name is the bare index name,
    whatever letter the key has; so it is when the key has no letter or a
    blank one. When the key has a non-blank letter and no icon, the name
    is the index name extended with the upper-cased letter. So the name
    is the bare index name exactly when the key carries no text legend.
    And a keycap within the placement does get its file, alone and in the
    batch, once the keycap mesh is loaded. *)
Theorem export_file_naming (p : Props) (a : Assets) :
  (forall (i : nat) (f : StlFile),
     f ∈ files (exportKeycapStl p a (Some i))
     \/ files (exportKeycapStl p a None) !! i = Some f ->
     decodeIndex (file_name f) = Some (i + 1)%nat /\
     (forall url,
        keycapSvgUrls p !! i = Some (Some url) -> Js.trim url <> EmptyString ->
        file_name f = "keycap-" +:+ Js.decimal (i + 1) +:+ ".stl") /\
     (keycapLetters p !! i = None
      \/ (exists letter, keycapLetters p !! i = Some letter /\
                         Js.trim letter = EmptyString) ->
      file_name f = "keycap-" +:+ Js.decimal (i + 1) +:+ ".stl") /\
     (forall letter,
        keycapLetters p !! i = Some letter -> Js.trim letter <> EmptyString ->
        keycapSvgUrls p !! i = None \/ keycapSvgUrls p !! i = Some None
        \/ (exists url, keycapSvgUrls p !! i = Some (Some url) /\
                        Js.trim url = EmptyString) ->
        file_name f
        = "keycap-" +:+ Js.decimal (i + 1) +:+ "-"
          +:+ Js.toUpperCase (Js.trim letter) +:+ ".stl" /\
        exists rest,
          Js.toUpperCase (Js.trim letter)
          = Js.slice01 (Js.toUpperCase (Js.trim letter)) +:+ rest /\
          Js.slice01 (Js.toUpperCase (Js.trim letter)) <> EmptyString) /\
     (file_name f = "keycap-" +:+ Js.decimal (i + 1) +:+ ".stl"
      <-> carriesTextLegend p i = false)) /\
  (forall (kg : BufferGeometry) (i : nat),
     keycapGeometryStore a = Some kg ->
     (i < length (keycapPositions p))%nat ->
     exists f,
       files (exportKeycapStl p a (Some i)) = [f] /\
       files (exportKeycapStl p a None) !! i = Some f).
Proof.
  split.
  - intros i f Hf.
    assert (He : exists kg, keycapGeometryStore a = Some kg /\
                            exportOne p a kg i = Some f).
    { destruct Hf as [H | H]; [exact (export_single p a i f H)
                              | exact (export_batch p a i f H)]. }
    destruct He as (kg & Hk & He).
    pose proof (exportName_encodes p i) as Henc.
    rewrite <- (exportOne_name _ _ _ _ _ He) in Henc.
    destruct Henc as (Hidx & Hicon & Hnone & Hiff & Htext).
    fold (indexOnlyName (i + 1)).
    split; [exact Hidx |].
    split.
    { intros url Hu Hne. apply Hicon. unfold hasIcon. rewrite Hu.
      destruct (Js.trim url); [congruence | reflexivity]. }
    split.
    { intros H. apply Hnone. unfold hasLetter.
      destruct H as [-> | (letter & -> & ->)]; reflexivity. }
    split; [| exact Hiff].
    intros letter Hl Hne Hu.
    assert (Hc : carriesTextLegend p i = true).
    { unfold carriesTextLegend, hasLetter, hasIcon. rewrite Hl.
      apply andb_true_iff. split.
      - destruct (Js.trim letter); [congruence | reflexivity].
      - destruct Hu as [-> | [-> | (url & -> & ->)]]; reflexivity. }
    destruct (Htext Hc) as (letter' & Hl' & Hname & Hrest).
    rewrite Hl in Hl'. injection Hl' as <-.
    split; [exact Hname | exact Hrest].
  - intros kg i Hk Hi. unfold exportKeycapStl. rewrite Hk.
    cbn [files omap list_omap].
    destruct (exportOne_is_Some p a kg i Hi) as [f Hf]. rewrite Hf.
    exists f. split; [reflexivity |].
    rewrite omap_seq_lookup.
    + rewrite keycapMeshPositions_length.
      replace (i <? length (keycapPositions p))%nat with true
        by (symmetry; apply Nat.ltb_lt; exact Hi).
      exact Hf.
    + intros k Hk'. apply exportOne_is_Some.
      rewrite keycapMeshPositions_length in Hk'. lia.
Qed.

End ExportFiles.

Section ExportNameExamples.
Import Three Layout Exporter Spec Examples.

(** Two files of the demo scene: the key with both a letter and an icon
    is named by its index alone, the key with the letter A by index and
    letter. *)
Lemma export_file_naming_witness :
  (exists f,
     files (exportKeycapStl letterAndIconProps demoAssets (Some 0%nat)) = [f] /\
     file_name f = "keycap-1.stl"%string) /\
  (exists f,
     files (exportKeycapStl demoProps demoAssets (Some 0%nat)) = [f] /\
     file_name f = "keycap-1-A.stl"%string).
Proof.
  split.
  - destruct (proj2 (export_file_naming letterAndIconProps demoAssets)
                demoKeycap 0%nat eq_refl ltac:(vm_compute; lia))
      as (f & Hone & _).
    exists f. split; [exact Hone |].
    destruct (proj1 (export_file_naming letterAndIconProps demoAssets) 0%nat f)
      as (_ & Hicon & _).
    { left. rewrite Hone. left. }
    exact (Hicon "/assets/heart.svg"%string eq_refl ltac:(discriminate)).
  - destruct (proj2 (export_file_naming demoProps demoAssets)
                demoKeycap 0%nat eq_refl ltac:(vm_compute; lia))
      as (f & Hone & _).
    exists f. split; [exact Hone |].
    destruct (proj1 (export_file_naming demoProps demoAssets) 0%nat f)
      as (_ & _ & _ & Htext & _).
    { left. rewrite Hone. left. }
    destruct (Htext "A"%string eq_refl ltac:(discriminate)
                ltac:(right; left; reflexivity)) as (Hname & _).
    exact Hname.
Defined.

End ExportNameExamples.

Section LegendPrecedence.
Import Three Layout Exporter Spec Examples.

(** In the display, a key with a non-empty icon URL never gets a letter
    label, whatever the cache holds. *)
Lemma display_has_no_letter_for_icon_key (p : Props) (a : Assets) (lbl : Label) :
  lbl ∈ keycapLabels p a ->
  exists i letter,
    keycapLetters p !! i = Some letter /\
    has_url (keycapSvgUrls p) i = false.
Proof.
  intros Hin.
  destruct (keycapLabels_origin p a lbl Hin)
    as (f & i & letter & x & y & z & _ & Hl & Hu & _).
  exists i, letter. split; assumption.
Qed.

(** With the icon geometry in the cache, the export carries the icon and
    no letter. *)
Lemma export_icon_when_cached (p : Props) (a : Assets) (i : nat)
    (slot : Vector3) (url : string) (geom : BufferGeometry) :
  svgUrlAt p i = Some url -> Js.truthy url = true ->
  svgGeometryByUrl a !! url = Some geom ->
  exists o, legendPart p a i slot
            = [ {| part_kind := IconPart url; part_object := o;
                   part_geometry := geom |} ].
Proof.
  intros Hu Ht Hc. unfold legendPart. destruct slot as [[x y] z].
  rewrite Hu. cbn [truthy default from_option id]. rewrite Ht, Hc. eexists. reflexivity.
Qed.

(** Without it, and with a letter and a font, the export carries the
    letter, although the key has an icon URL. *)
Lemma export_letter_when_icon_not_cached (p : Props) (a : Assets) (i : nat)
    (slot : Vector3) (url letter : string) (f : Font) :
  svgUrlAt p i = Some url -> Js.truthy url = true ->
  svgGeometryByUrl a !! url = None ->
  letterAt p i = Some letter -> Js.truthy letter = true ->
  font a = Some f ->
  exists o, legendPart p a i slot
            = [ {| part_kind := LetterPart (Js.slice01 (Js.toUpperCase letter));
                   part_object := o;
                   part_geometry := textGeometry f p letter |} ].
Proof.
  intros Hu Ht Hc Hl Hlt Hf. unfold legendPart. destruct slot as [[x y] z].
  rewrite Hu, Hl. cbn [truthy default from_option id]. rewrite Ht, Hc, Hf, Hlt.
  eexists. reflexivity.
Qed.

(** C3 at a key with both a letter and an icon whose geometry is not in
    the cache. The display shows neither a letter nor (yet) the icon; the
    export writes one file, named by the index alone, whose legend is the
    letter A. With the icon in the cache the file carries the icon. *)
Theorem export_falls_back_to_letter :
  keycapLabels letterAndIconProps demoAssets = [] /\
  map slot_url (keycapSvgSlots letterAndIconProps demoAssets)
    = ["/assets/heart.svg"%string] /\
  svgGeometryByUrl demoAssets !! "/assets/heart.svg"%string = None /\
  (exists f,
     files (exportKeycapStl letterAndIconProps demoAssets (Some 0%nat)) = [f] /\
     file_name f = "keycap-1.stl"%string /\
     map part_kind (file_parts f)
       = [KeycapPart; BorderPart; LetterPart "A"]) /\
  (exists f,
     files (exportKeycapStl letterAndIconProps demoAssetsWithHeart (Some 0%nat))
       = [f] /\
     file_name f = "keycap-1.stl"%string /\
     map part_kind (file_parts f)
       = [KeycapPart; BorderPart; IconPart "/assets/heart.svg"]).
Proof.
  split; [vm_compute; reflexivity |].
  split; [vm_compute; reflexivity |].
  split; [vm_compute; reflexivity |].
  split; eexists; (split; [vm_compute; reflexivity |]);
    split; vm_compute; reflexivity.
Qed.

(** X5. With the icon geometry in the cache, the file exported for a key
    with an icon URL carries that geometry, carries no letter, whatever
    letter is assigned, and is named by the index alone. *)
Lemma export_icon_wins_when_cached (p : Props) (a : Assets) (i : nat)
    (url : string) (geom : BufferGeometry) (f : StlFile) :
  svgUrlAt p i = Some url -> Js.truthy url = true ->
  svgGeometryByUrl a !! url = Some geom ->
  f ∈ files (exportKeycapStl p a (Some i)) ->
  (exists pt, pt ∈ file_parts f /\ part_kind pt = IconPart url /\
              part_geometry pt = geom) /\
  (forall pt, pt ∈ file_parts f -> is_letter_part pt = false) /\
  file_name f = indexOnlyName (i + 1).
Proof.
  intros Hu Ht Hc Hin.
  apply export_single in Hin. destruct Hin as (kg & _ & He).
  assert (Hname : file_name f = indexOnlyName (i + 1)).
  { rewrite (exportOne_name _ _ _ _ _ He). unfold exportName.
    rewrite Hu. cbn [truthy]. rewrite Ht, andb_false_r. reflexivity. }
  unfold exportOne in He.
  destruct (keycapMeshPositions p a !! i) as [pos |]; [| discriminate].
  destruct (keycapPositions p !! i) as [slot |]; [| discriminate].
  destruct (export_icon_when_cached p a i slot url geom Hu Ht Hc) as [o Hl].
  rewrite Hl in He. injection He as Hf. subst f. cbn [file_parts].
  split; [| split; [| exact Hname]].
  - eexists.
    split; [apply list_elem_of_further, elem_of_app; right; left
           | split; reflexivity].
  - intros pt Hpt. apply elem_of_cons in Hpt. destruct Hpt as [-> | Hpt];
      [reflexivity |].
    apply elem_of_app in Hpt. destruct Hpt as [Hpt | Hpt].
    + destruct (showBorder p), (borderGeometryStore a),
        (borderMeshPositions p a !! i);
        try (inversion Hpt; fail);
        apply list_elem_of_singleton in Hpt; subst pt; reflexivity.
    + apply list_elem_of_singleton in Hpt. subst pt. reflexivity.
Qed.

Lemma export_icon_wins_when_cached_witness :
  svgUrlAt letterAndIconProps 0 = Some "/assets/heart.svg"%string /\
  Js.truthy "/assets/heart.svg" = true /\
  svgGeometryByUrl demoAssetsWithHeart !! "/assets/heart.svg"%string
    = Some demoBorder /\
  exists f,
    f ∈ files (exportKeycapStl letterAndIconProps demoAssetsWithHeart
                 (Some 0%nat)) /\
    (exists pt, pt ∈ file_parts f /\
                part_kind pt = IconPart "/assets/heart.svg" /\
                part_geometry pt = demoBorder) /\
    (forall pt, pt ∈ file_parts f -> is_letter_part pt = false) /\
    file_name f = indexOnlyName (0 + 1).
Proof.
  split; [reflexivity |]. split; [reflexivity |].
  split; [vm_compute; reflexivity |].
  destruct (files (exportKeycapStl letterAndIconProps demoAssetsWithHeart
                     (Some 0%nat))) as [| f fs] eqn:Hfiles;
    [vm_compute in Hfiles; discriminate |].
  exists f. split; [left |].
  apply (export_icon_wins_when_cached letterAndIconProps demoAssetsWithHeart
           0 "/assets/heart.svg" demoBorder f);
    [reflexivity | reflexivity | vm_compute; reflexivity |].
  rewrite Hfiles. left.
Defined.

End LegendPrecedence.

(** ** Snapshots *)

Section CaptureView.
Import Three Snapshot Spec Examples.

Lemma captureView_pixels (r : WebGLRenderer) (scene : Scene)
    (position target : Vector3) :
  fst (captureView r scene position target)
  = Some (capturedFrame scene position target).
Proof.
  unfold captureView, readRenderTargetPixels, capturedFrame; cbn.
  rewrite Nat.eqb_refl. reflexivity.
Qed.

Lemma captureView_state (r : WebGLRenderer) (scene : Scene)
    (position target : Vector3) :
  let r' := snd (captureView r scene position target) in
  clearColor r' = clearColor r /\
  clearAlpha r' = clearAlpha r /\
  renderTarget r' = None /\
  canvasPixels r' = canvasPixels r.
Proof. unfold captureView; cbn. repeat split. Qed.

(** C9, as stated, fails for the render target: the function saves the
    clear colour and alpha but not the active target, and leaves the
    canvas active. *)
Lemma captureView_resets_render_target :
  let r' := snd (captureView busyRenderer emptyScene (0, 0, 100) (0, 0, 0)) in
  renderTarget busyRenderer <> None /\
  renderTarget r' = None /\
  renderTarget r' <> renderTarget busyRenderer.
Proof. cbn. repeat split; discriminate. Qed.

(** C9, amended. After [captureView] returns, the renderer's clear colour
    and clear alpha are what they were before the call, and the active
    render target is the canvas ([null]); so the target too is unchanged
    whenever the canvas was active before the call. The picture itself
    was drawn offscreen, on the scene's background with alpha 1, and the
    canvas contents are untouched. *)
Theorem captureView_frame (r : WebGLRenderer) (scene : Scene)
    (position target : Vector3) :
  let r' := snd (captureView r scene position target) in
  clearColor r' = clearColor r /\
  clearAlpha r' = clearAlpha r /\
  renderTarget r' = None /\
  (renderTarget r = None -> renderTarget r' = renderTarget r) /\
  canvasPixels r' = canvasPixels r /\
  fst (captureView r scene position target)
  = Some (capturedFrame scene position target).
Proof.
  destruct (captureView_state r scene position target) as (Hc & Ha & Ht & Hp).
  cbv zeta. repeat split; try assumption.
  - intros H. rewrite H. exact Ht.
  - apply captureView_pixels.
Qed.

(** X7. The transient render target of a capture is disposed of: the
    renderer's offscreen targets are those it had before the call. *)
Lemma captureView_disposes_target (r : WebGLRenderer) (scene : Scene)
    (position target : Vector3) :
  Forall (fun e => (fst e < nextTarget r)%nat) (offscreen r) ->
  offscreen (snd (captureView r scene position target)) = offscreen r.
Proof.
  intros Hids. unfold captureView; cbn. rewrite !Nat.eqb_refl. cbn.
  induction (offscreen r) as [| e l IH]; [reflexivity |].
  inversion Hids as [| e' l' He Hl]; subst.
  cbn [List.filter].
  replace (fst e =? nextTarget r)%nat with false
    by (symmetry; apply Nat.eqb_neq; lia).
  cbn [negb]. f_equal. apply IH, Hl.
Qed.

Lemma captureView_disposes_target_witness :
  Forall (fun e => (fst e < nextTarget busyRenderer)%nat)
         (offscreen busyRenderer) /\
  offscreen (snd (captureView busyRenderer emptyScene (0, 0, 100) (0, 0, 0)))
  = offscreen busyRenderer.
Proof.
  split; [repeat constructor |].
  apply (captureView_disposes_target busyRenderer emptyScene).
  repeat constructor.
Defined.

End CaptureView.

Section Framing.
Import Three Snapshot Spec Examples.

Lemma fold_visit_filter (ms : list Mesh) (box : Box3) :
  fold_left visit ms box
  = fold_left union
      (map (fun m => Some (worldBox m))
           (List.filter (fun m => negb (Num.gtb (meshDim m) MAX_MESH_SIZE))
                        ms))
      box.
Proof.
  revert box. induction ms as [| m ms IH]; intros box; [reflexivity |].
  cbn [fold_left List.filter]. unfold visit at 2.
  destruct (Num.gtb (meshDim m) MAX_MESH_SIZE); cbn [negb]; rewrite IH;
    reflexivity.
Qed.

Lemma getModelBox_framing (scene : Scene) :
  center (getModelBox scene) = getCenter (framingUnion scene) /\
  size (getModelBox scene) = getSize (framingUnion scene) /\
  maxDim (getModelBox scene)
  = if Qeq_bool (framingDimension scene) 0 then 80
    else framingDimension scene.
Proof.
  unfold getModelBox, framingDimension, framingUnion, framedMeshes.
  cbn [center size maxDim]. rewrite fold_visit_filter. repeat split.
Qed.

(** X6. A mesh above the threshold does not change the model box, wherever
    it stands in the scene. *)
Lemma getModelBox_ignores_large (bg : option Color) (before after : list Mesh)
    (m : Mesh) :
  Num.gtb (meshDim m) MAX_MESH_SIZE = true ->
  getModelBox {| background := bg; meshes := before ++ m :: after |}
  = getModelBox {| background := bg; meshes := before ++ after |}.
Proof.
  intros Hm.
  assert (Hv : forall box, visit box m = box)
    by (intros box; unfold visit; rewrite Hm; reflexivity).
  unfold getModelBox. cbn [meshes].
  rewrite !fold_left_app. cbn [fold_left]. rewrite Hv. reflexivity.
Qed.

Lemma getModelBox_ignores_large_witness :
  Num.gtb (meshDim gridMesh) MAX_MESH_SIZE = true /\
  getModelBox {| background := None; meshes := [] ++ gridMesh :: [] |}
  = getModelBox {| background := None; meshes := [] ++ [] |}.
Proof.
  split; [vm_compute; reflexivity |].
  apply (getModelBox_ignores_large None [] [] gridMesh).
  vm_compute; reflexivity.
Defined.

(** With no mesh at or under the threshold the box is empty, its centre
    is the origin and the dimension falls back to 80. *)
Lemma getModelBox_nothing_framed (scene : Scene) :
  framedMeshes scene = [] ->
  getModelBox scene = {| center := (0, 0, 0); size := (0, 0, 0); maxDim := 80 |}.
Proof.
  intros H. unfold getModelBox. rewrite fold_visit_filter.
  unfold framedMeshes in H. rewrite H. reflexivity.
Qed.

End Framing.

Section TakeSnapshot.
Import Three Snapshot Spec Examples MoreExamples.

Lemma ready_false (w : World) :
  renderer (threlte w) = None \/ scene (threlte w) = None
  \/ camera (threlte w) = None <->
  ready w = false.
Proof.
  unfold ready.
  destruct (renderer (threlte w)), (scene (threlte w)), (camera (threlte w));
    split; intros H; try reflexivity; try discriminate;
    try (destruct H as [H | [H | H]]; discriminate);
    auto.
Qed.

Lemma takeSnapshot_not_ready (M : MathLib) (w : World) :
  ready w = false -> takeSnapshot M w = (Returned, w).
Proof.
  unfold ready, takeSnapshot.
  destruct (renderer (threlte w)), (scene (threlte w)), (camera (threlte w));
    intros H; try discriminate; reflexivity.
Qed.

Lemma takeSnapshot_ready (M : MathLib) (w : World) (r : WebGLRenderer)
    (sc : Scene) (cam : Camera) :
  renderer (threlte w) = Some r -> scene (threlte w) = Some sc ->
  camera (threlte w) = Some cam -> canvas2d (browser w) = true ->
  fst (takeSnapshot M w) = Returned /\
  pending (browser (snd (takeSnapshot M w)))
  = pending (browser w) ++ [scheduledLoad M sc] /\
  saved (browser (snd (takeSnapshot M w))) = saved (browser w) /\
  now (browser (snd (takeSnapshot M w))) = now (browser w) /\
  snapshotDownloaded (browser (snd (takeSnapshot M w)))
  = snapshotDownloaded (browser w).
Proof.
  intros Hr Hs Hc H2d. unfold takeSnapshot. rewrite Hr, Hs, Hc.
  set (box := getModelBox sc).
  set (dist := distanceToFit M (maxDim box) FOV_DEG 1.4).
  set (front := (vx (center box), vy (center box), vz (center box) + dist)).
  set (top := (vx (center box), vy (center box) + dist, vz (center box))).
  set (at_ := (vx (center box), vy (center box), vz (center box))).
  pose proof (captureView_pixels r sc front at_) as Hf.
  destruct (captureView r sc front at_) as [frontPixels r1].
  pose proof (captureView_pixels r1 sc top at_) as Ht.
  destruct (captureView r1 sc top at_) as [topPixels r2].
  cbn [fst] in Hf, Ht. subst frontPixels topPixels.
  rewrite H2d. cbn [fst snd browser pending saved now snapshotDownloaded].
  unfold pixelsToDataUrl. rewrite H2d.
  repeat split.
Qed.

Lemma runLoad_scheduled (M : MathLib) (sc : Scene) (b : Browser) :
  exists d,
    download_name d = "clicker-snapshot-" +:+ Js.decimalN (now b) +:+ ".png" /\
    saved (runLoad (scheduledLoad M sc) b) = saved b ++ [d] /\
    snapshotDownloaded (runLoad (scheduledLoad M sc) b)
    = S (snapshotDownloaded b).
Proof.
  unfold scheduledLoad, runLoad.
  cbn [front_src top_src saved snapshotDownloaded].
  eexists. split; [| split; [reflexivity | reflexivity]]. reflexivity.
Qed.

(** C6. Whenever the renderer, the scene or the camera is missing when a
    snapshot is requested, [takeSnapshot] returns normally and leaves the
    world exactly as it was: nothing is saved, no image load is
    scheduled, and the renderer and the scene are untouched. *)
Theorem takeSnapshot_noop_when_not_ready (M : MathLib) (w : World) :
  renderer (threlte w) = None \/ scene (threlte w) = None
  \/ camera (threlte w) = None ->
  takeSnapshot M w = (Returned, w) /\
  saved (browser (settle (snd (takeSnapshot M w))))
  = saved (browser (settle w)).
Proof.
  intros H. apply ready_false in H.
  rewrite (takeSnapshot_not_ready M w H). split; reflexivity.
Qed.

Lemma takeSnapshot_noop_witness :
  (renderer (threlte startingWorld) = None
   \/ scene (threlte startingWorld) = None
   \/ camera (threlte startingWorld) = None) /\
  takeSnapshot seriesMath startingWorld = (Returned, startingWorld) /\
  saved (browser (settle (snd (takeSnapshot seriesMath startingWorld))))
  = saved (browser (settle startingWorld)).
Proof.
  split; [left; reflexivity |].
  apply (takeSnapshot_noop_when_not_ready seriesMath startingWorld).
  left; reflexivity.
Defined.

(** C7, as stated, fails: with the context ready and no mesh loaded, the
    call returns normally and, once the two images have loaded, a file
    has been saved and the callback has run. *)
Lemma snapshot_of_empty_scene_saves_file :
  framedMeshes gridOnlyScene = [] /\
  fst (takeSnapshot seriesMath noMeshWorld) = Returned /\
  map download_name
      (saved (browser (settle (snd (takeSnapshot seriesMath noMeshWorld)))))
  = ["clicker-snapshot-1700000000000.png"%string] /\
  snapshotDownloaded
    (browser (settle (snd (takeSnapshot seriesMath noMeshWorld)))) = 1%nat.
Proof. repeat split; vm_compute; reflexivity. Qed.

(** C7, amended. A snapshot requested before the renderer, the scene or
    the camera exists returns without producing a file and without
    raising an error. Once they exist (and a canvas gives a 2D context),
    a snapshot taken while no mesh is framed, in particular before any
    mesh has loaded, also returns without error, and it does produce a
    file: both views look at the origin from the distance that fits the
    fallback dimension 80. *)
Theorem snapshot_before_meshes (M : MathLib) (w : World) :
  pending (browser w) = [] ->
  (ready w = false ->
   fst (takeSnapshot M w) = Returned /\
   saved (browser (settle (snd (takeSnapshot M w)))) = saved (browser w)) /\
  (forall r sc cam,
     renderer (threlte w) = Some r -> scene (threlte w) = Some sc ->
     camera (threlte w) = Some cam -> canvas2d (browser w) = true ->
     framedMeshes sc = [] ->
     let dist := distanceToFit M 80 FOV_DEG 1.4 in
     fst (takeSnapshot M w) = Returned /\
     exists d,
       saved (browser (settle (snd (takeSnapshot M w))))
       = saved (browser w) ++ [d] /\
       download_name d
       = "clicker-snapshot-" +:+ Js.decimalN (now (browser w)) +:+ ".png" /\
       px_camera <$> download_upper d
       = Some {| cam_fov := FOV_DEG; cam_position := (0, 0, 0 + dist);
                 cam_lookAt := (0, 0, 0) |} /\
       px_camera <$> download_lower d
       = Some {| cam_fov := FOV_DEG; cam_position := (0, 0 + dist, 0);
                 cam_lookAt := (0, 0, 0) |}).
Proof.
  intros Hpending. split.
  - intros Hn. rewrite (takeSnapshot_not_ready M w Hn). cbn [fst snd].
    split; [reflexivity |]. unfold settle. rewrite Hpending. reflexivity.
  - intros r sc cam Hr Hs Hc H2d Hnone dist.
    destruct (takeSnapshot_ready M w r sc cam Hr Hs Hc H2d)
      as (Hout & Hpend & Hsaved & Hnow & _).
    split; [exact Hout |].
    unfold settle. rewrite Hpend, Hsaved, Hnow, Hpending. cbn [app fold_left].
    unfold scheduledLoad. rewrite (getModelBox_nothing_framed sc Hnone).
    cbn. eexists. repeat split.
Qed.

Lemma snapshot_before_meshes_witness :
  pending (browser noMeshWorld) = [] /\
  (exists d,
     saved (browser (settle (snd (takeSnapshot seriesMath noMeshWorld))))
     = saved (browser noMeshWorld) ++ [d] /\
     download_name d = "clicker-snapshot-1700000000000.png"%string).
Proof.
  split; [reflexivity |].
  destruct (proj2 (snapshot_before_meshes seriesMath noMeshWorld eq_refl)
              idleRenderer gridOnlyScene liveCamera
              eq_refl eq_refl eq_refl eq_refl eq_refl)
    as (_ & d & Hsaved & Hname & _).
  exists d. split; [exact Hsaved | exact Hname].
Defined.

(** The file a ready snapshot saves, once the two images have loaded:
    its upper half is the view from the front and its lower half the
    view from the top, both looking at the centre of the model box from
    [distanceToFit(maxDim, FOV_DEG)]. *)
Lemma takeSnapshot_cameras (M : MathLib) (w : World) (r : WebGLRenderer)
    (sc : Scene) (cam : Camera) :
  renderer (threlte w) = Some r -> scene (threlte w) = Some sc ->
  camera (threlte w) = Some cam -> canvas2d (browser w) = true ->
  pending (browser w) = [] ->
  let box := getModelBox sc in
  let c := center box in
  let dist := distanceToFit M (maxDim box) FOV_DEG 1.4 in
  exists d,
    saved (browser (settle (snd (takeSnapshot M w)))) = saved (browser w) ++ [d] /\
    px_camera <$> download_upper d
    = Some {| cam_fov := FOV_DEG;
              cam_position := (vx c, vy c, vz c + dist);
              cam_lookAt := (vx c, vy c, vz c) |} /\
    px_camera <$> download_lower d
    = Some {| cam_fov := FOV_DEG;
              cam_position := (vx c, vy c + dist, vz c);
              cam_lookAt := (vx c, vy c, vz c) |}.
Proof.
  intros Hr Hs Hc H2d Hpending box c dist.
  destruct (takeSnapshot_ready M w r sc cam Hr Hs Hc H2d)
    as (_ & Hpend & Hsaved & Hnow & _).
  unfold settle. rewrite Hpend, Hsaved, Hnow, Hpending. cbn [app fold_left].
  unfold scheduledLoad. cbn. eexists. repeat split.
Qed.

(** C8, as stated, fails where nothing is framed. In the scene that holds
    the grid only, the union box is empty and its largest dimension is
    0, yet the snapshot is taken from the distance that fits 80, not
    from the distance 0 the formula gives for 0. *)
Lemma framing_falls_back_to_80 :
  framedMeshes gridOnlyScene = [] /\
  framingDimension gridOnlyScene == 0 /\
  exists d front,
    saved (browser (settle (snd (takeSnapshot seriesMath noMeshWorld)))) = [d] /\
    px_camera <$> download_upper d = Some front /\
    cam_lookAt front = (0, 0, 0) /\
    vz (cam_position front)
    == 80 / 2 / tan seriesMath ((45 / 2) * (PI seriesMath / 180)) * 1.4 /\
    ~ vz (cam_position front)
      == framingDimension gridOnlyScene / 2
         / tan seriesMath ((45 / 2) * (PI seriesMath / 180)) * 1.4.
Proof.
  split; [vm_compute; reflexivity |].
  split; [vm_compute; reflexivity |].
  eexists. eexists.
  split; [vm_compute; reflexivity |].
  split; [vm_compute; reflexivity |].
  split; [vm_compute; reflexivity |].
  split; [vm_compute; reflexivity |].
  intros H. vm_compute in H. discriminate.
Qed.

(** C8, amended. When the context is ready, the file [takeSnapshot]
    saves shows the scene twice, from the front and from the top; both
    cameras look at the centre of the union box and stand at the
    distance [(maxDimension / 2) / tan(fov / 2)] times the margin 1.4
    from it, with the field of view of 45 degrees they render with.
    [maxDimension] is the largest dimension of the union of the world
    boxes of exactly those meshes of the scene whose own largest
    bounding-box dimension does not exceed 150, or 80 when that
    dimension is zero (in particular when no mesh is framed); a mesh
    above the threshold has no part in it. *)
Theorem auto_framing_distance (M : MathLib) (w : World) (r : WebGLRenderer)
    (sc : Scene) (cam : Camera) :
  renderer (threlte w) = Some r -> scene (threlte w) = Some sc ->
  camera (threlte w) = Some cam -> canvas2d (browser w) = true ->
  pending (browser w) = [] ->
  let maxDimension :=
    if Qeq_bool (framingDimension sc) 0 then 80 else framingDimension sc in
  let distance := maxDimension / 2 / tan M ((45 / 2) * (PI M / 180)) * 1.4 in
  let c := getCenter (framingUnion sc) in
  (forall m, m ∈ framedMeshes sc <-> m ∈ meshes sc /\ meshDim m <= 150) /\
  exists d,
    saved (browser (settle (snd (takeSnapshot M w)))) = saved (browser w) ++ [d] /\
    px_camera <$> download_upper d
    = Some {| cam_fov := 45;
              cam_position := (vx c, vy c, vz c + distance);
              cam_lookAt := (vx c, vy c, vz c) |} /\
    px_camera <$> download_lower d
    = Some {| cam_fov := 45;
              cam_position := (vx c, vy c + distance, vz c);
              cam_lookAt := (vx c, vy c, vz c) |}.
Proof.
  intros Hr Hs Hc H2d Hpending maxDimension distance c.
  split.
  - intros m. unfold framedMeshes. change 150 with MAX_MESH_SIZE.
    rewrite !list_elem_of_In, filter_In, negb_true_iff, gtb_false.
    reflexivity.
  - destruct (takeSnapshot_cameras M w r sc cam Hr Hs Hc H2d Hpending)
      as (d & Hsaved & Hup & Hlow).
    destruct (getModelBox_framing sc) as (Hcentre & _ & Hmax).
    cbv zeta in Hup, Hlow. rewrite Hcentre, Hmax in Hup, Hlow.
    exists d. split; [exact Hsaved |]. split; [exact Hup | exact Hlow].
Qed.

(** The scene with the grid and one keycap 18 mm wide: the grid is left
    out, the framing dimension is 18, and both cameras stand at the
    distance that fits 18. *)
Lemma auto_framing_distance_witness :
  framingDimension keycapScene == 18 /\
  let distance :=
    (if Qeq_bool (framingDimension keycapScene) 0 then 80
     else framingDimension keycapScene) / 2
    / tan seriesMath ((45 / 2) * (PI seriesMath / 180)) * 1.4 in
  let c := getCenter (framingUnion keycapScene) in
  exists d,
    saved (browser (settle (snd (takeSnapshot seriesMath keycapWorld))))
    = saved (browser keycapWorld) ++ [d] /\
    px_camera <$> download_upper d
    = Some {| cam_fov := 45;
              cam_position := (vx c, vy c, vz c + distance);
              cam_lookAt := (vx c, vy c, vz c) |} /\
    px_camera <$> download_lower d
    = Some {| cam_fov := 45;
              cam_position := (vx c, vy c + distance, vz c);
              cam_lookAt := (vx c, vy c, vz c) |}.
Proof.
  split; [vm_compute; reflexivity |].
  exact (proj2 (auto_framing_distance seriesMath keycapWorld idleRenderer
                  keycapScene liveCamera eq_refl eq_refl eq_refl eq_refl
                  eq_refl)).
Defined.

End TakeSnapshot.

(** ** Further properties of the engine *)

Section BodyAndKeycaps.
Import Three Positions Layout Spec Examples.

Lemma upright_world_x (o : Object3D) (v : Vector3) :
  rotation o = (NegHalfPi, Rad0, Rad0) ->
  scaling o = (FILE_TO_MM, FILE_TO_MM, FILE_TO_MM) ->
  vx (localToWorld o v) == vx v * 1 + vx (position o) /\
  vy (localToWorld o v) == vz v * 1 + vy (position o) /\
  vz (localToWorld o v) == vy v * (- (1)) + vz (position o).
Proof.
  intros Hr Hs. unfold localToWorld, rotate. rewrite Hr, Hs.
  unfold FILE_TO_MM; cbn. repeat split; ring.
Qed.

(** X2. Body placement: the body rests on the ground plane, its top is
    [clickerTopY], and its bounding box is centred on the origin in X
    and in Z. *)
Lemma body_rests_on_ground (p : Props) (a : Assets) (geom : BufferGeometry) :
  stlGeometry p a = Some geom ->
  worldMinY (bodyMesh p a) geom == 0 /\
  worldMaxY (bodyMesh p a) geom == clickerTopY p a /\
  minOf (fun v => vx (localToWorld (bodyMesh p a) v)) geom
  + maxOf (fun v => vx (localToWorld (bodyMesh p a) v)) geom == 0 /\
  minOf (fun v => vz (localToWorld (bodyMesh p a) v)) geom
  + maxOf (fun v => vz (localToWorld (bodyMesh p a) v)) geom == 0.
Proof.
  intros Hg.
  assert (Hw : forall v,
            vx (localToWorld (bodyMesh p a) v)
              == vx v * 1 + vx (meshPosition p a) /\
            vy (localToWorld (bodyMesh p a) v)
              == vz v * 1 + vy (meshPosition p a) /\
            vz (localToWorld (bodyMesh p a) v)
              == vy v * (- (1)) + vz (meshPosition p a)).
  { intros v. apply (upright_world_x (bodyMesh p a) v); reflexivity. }
  unfold worldMinY, worldMaxY.
  rewrite (minOf_affine_pos _ vz 1 _ geom ltac:(lra) (fun v => proj1 (proj2 (Hw v)))).
  rewrite (maxOf_affine_pos _ vz 1 _ geom ltac:(lra) (fun v => proj1 (proj2 (Hw v)))).
  rewrite (minOf_affine_pos _ vx 1 _ geom ltac:(lra) (fun v => proj1 (Hw v))).
  rewrite (maxOf_affine_pos _ vx 1 _ geom ltac:(lra) (fun v => proj1 (Hw v))).
  rewrite (minOf_affine_neg _ vy (- (1)) _ geom ltac:(lra)
             (fun v => proj2 (proj2 (Hw v)))).
  rewrite (maxOf_affine_neg _ vy (- (1)) _ geom ltac:(lra)
             (fun v => proj2 (proj2 (Hw v)))).
  unfold clickerTopY, meshPosition. rewrite Hg.
  cbn [vx vy vz fst snd centerOf boundingBox bmin bmax].
  repeat split; ring.
Qed.

Lemma body_rests_on_ground_witness :
  stlGeometry demoProps demoAssets = Some demoBody /\
  worldMinY (bodyMesh demoProps demoAssets) demoBody == 0 /\
  worldMaxY (bodyMesh demoProps demoAssets) demoBody
    == clickerTopY demoProps demoAssets /\
  minOf (fun v => vx (localToWorld (bodyMesh demoProps demoAssets) v)) demoBody
  + maxOf (fun v => vx (localToWorld (bodyMesh demoProps demoAssets) v)) demoBody
    == 0 /\
  minOf (fun v => vz (localToWorld (bodyMesh demoProps demoAssets) v)) demoBody
  + maxOf (fun v => vz (localToWorld (bodyMesh demoProps demoAssets) v)) demoBody
    == 0.
Proof.
  split; [reflexivity |].
  apply (body_rests_on_ground demoProps demoAssets demoBody). reflexivity.
Defined.

(** X3. Keycap vertical placement: the keycap placed for a slot with offset
    [y] has its lowest point at the body top plus [y] and its highest
    point one keycap height above. *)
Lemma keycap_rests_on_body (p : Props) (a : Assets)
    (keycapGeom : BufferGeometry) (i : nat) (x y z : Q) :
  keycapGeometryStore a = Some keycapGeom ->
  keycapPositions p !! i = Some (x, y, z) ->
  exists pos,
    keycapMeshPositions p a !! i = Some pos /\
    worldMinY (keycapMesh pos) keycapGeom == clickerTopY p a + y /\
    worldMaxY (keycapMesh pos) keycapGeom
      == clickerTopY p a + y + keycapHeight a.
Proof.
  intros Hk Hpos. eexists. split.
  - unfold keycapMeshPositions. rewrite lookup_map.
    unfold Vector3 in *. rewrite Hpos. reflexivity.
  - apply (keycap_world_extent p a keycapGeom x y z Hk).
Qed.

Lemma keycap_rests_on_body_witness :
  keycapGeometryStore demoAssets = Some demoKeycap /\
  keycapPositions demoProps !! 0%nat = Some (4.5, 0, 0) /\
  exists pos,
    keycapMeshPositions demoProps demoAssets !! 0%nat = Some pos /\
    worldMinY (keycapMesh pos) demoKeycap
      == clickerTopY demoProps demoAssets + 0 /\
    worldMaxY (keycapMesh pos) demoKeycap
      == clickerTopY demoProps demoAssets + 0 + keycapHeight demoAssets.
Proof.
  split; [reflexivity |]. split; [reflexivity |].
  apply (keycap_rests_on_body demoProps demoAssets demoKeycap 0 4.5 0 0);
    reflexivity.
Defined.

(** Scenario A: three keys and no override give the three default
    positions of the table, each with a zero vertical offset. *)
Lemma three_keys_default_positions (p : Props) (a : Assets) :
  numberOfKeys p = 3%Z -> keycapPositionsProp p = None ->
  keycapPositions p = [(-17.7, 0, 0); (4.5, 0, 0); (26.7, 0, 0)] /\
  length (keycapMeshPositions p a) = 3%nat /\
  Forall (fun pos => vy pos == clickerTopY p a - kminZ (keycapOffset a))
         (keycapMeshPositions p a).
Proof.
  intros Hn Hp.
  assert (Hk : keycapPositions p = [(-17.7, 0, 0); (4.5, 0, 0); (26.7, 0, 0)]).
  { unfold keycapPositions, keyIndex. rewrite Hp, Hn. reflexivity. }
  split; [exact Hk |].
  unfold keycapMeshPositions. rewrite Hk. cbn [map length].
  split; [reflexivity |].
  repeat constructor; cbn [vy fst snd]; ring.
Qed.

Lemma three_keys_default_positions_witness :
  numberOfKeys threeKeysProps = 3%Z /\
  keycapPositionsProp threeKeysProps = None /\
  keycapPositions threeKeysProps = [(-17.7, 0, 0); (4.5, 0, 0); (26.7, 0, 0)] /\
  length (keycapMeshPositions threeKeysProps demoAssets) = 3%nat /\
  Forall (fun pos => vy pos == clickerTopY threeKeysProps demoAssets
                               - kminZ (keycapOffset demoAssets))
         (keycapMeshPositions threeKeysProps demoAssets).
Proof.
  split; [reflexivity |]. split; [reflexivity |].
  apply (three_keys_default_positions threeKeysProps demoAssets); reflexivity.
Defined.

End BodyAndKeycaps.

(** ** The pixel loop of the snapshot *)

Section PixelLoop.
Import PixelRows Notions MoreExamples.

Lemma writes_to_length (ws : list (nat * N)) (data : Bytes) :
  length (writes_to ws data) = length data.
Proof.
  revert data. induction ws as [|w ws IH]; intros data; [reflexivity|].
  change (writes_to (w :: ws) data)
    with (writes_to ws (<[fst w := snd w]> data)).
  rewrite IH. apply length_insert.
Qed.

Lemma writes_to_lookup (ws : list (nat * N)) (data : Bytes) (j : nat) (v : N) :
  (j < length data)%nat ->
  (forall w, In w ws -> fst w = j -> snd w = v) ->
  (data !! j = Some v \/ exists w, In w ws /\ fst w = j) ->
  writes_to ws data !! j = Some v.
Proof.
  revert data. induction ws as [|w ws IH]; intros data Hj Hall Hex.
  - cbn. destruct Hex as [H|[w [[] _]]]. exact H.
  - change (writes_to (w :: ws) data)
      with (writes_to ws (<[fst w := snd w]> data)).
    apply IH.
    + rewrite length_insert. exact Hj.
    + intros w' Hin. apply Hall. right. exact Hin.
    + destruct (Nat.eq_dec (fst w) j) as [E|E].
      * left. rewrite E. rewrite list_lookup_insert_eq by exact Hj.
        f_equal. apply Hall; [left; reflexivity | exact E].
      * rewrite list_lookup_insert_ne by exact E.
        destruct Hex as [H|[w' [[Hw|Hin] Hf]]].
        -- left. exact H.
        -- subst w'. contradiction.
        -- right. exists w'. split; assumption.
Qed.

Lemma fold_left_flat_map {A B C : Type} (f : A -> B -> A) (g : C -> list B)
    (l : list C) (a : A) :
  fold_left f (flat_map g l) a
  = fold_left (fun a x => fold_left f (g x) a) l a.
Proof.
  revert a. induction l as [|x l IH]; intros a; [reflexivity|].
  cbn. rewrite fold_left_app. apply IH.
Qed.

Lemma fold_left_pointwise {A B : Type} (f g : A -> B -> A) (l : list B) (a : A) :
  (forall a x, f a x = g a x) -> fold_left f l a = fold_left g l a.
Proof.
  intros H. revert a. induction l as [|x l IH]; intros a; [reflexivity|].
  cbn. rewrite H. apply IH.
Qed.

Lemma flipImage_writes (pixels : Bytes) (width height : nat) :
  flipImage pixels width height
  = writes_to (imageWrites pixels width height) (createImageData width height).
Proof.
  unfold flipImage, writes_to, imageWrites.
  rewrite fold_left_flat_map.
  apply fold_left_pointwise. intros data y.
  rewrite fold_left_flat_map. unfold copyRow.
  apply fold_left_pointwise. intros d x.
  unfold copyPixel, pixelWrites. cbn.
  rewrite !Nat.add_0_r. reflexivity.
Qed.

Lemma imageWrites_In (pixels : Bytes) (width height : nat) (w : nat * N) :
  In w (imageWrites pixels width height) <->
  exists y x c, (y < height)%nat /\ (x < width)%nat /\ (c < 4)%nat /\
    w = ((y * width * 4 + x * 4 + c)%nat,
         byteAt pixels ((height - 1 - y) * width * 4 + x * 4 + c)).
Proof.
  unfold imageWrites, pixelWrites. split.
  - intros H. apply in_flat_map in H as [y [Hy H]].
    apply in_flat_map in H as [x [Hx H]].
    apply in_map_iff in H as [c [Hw Hc]].
    apply in_seq in Hy, Hx, Hc.
    exists y, x, c. repeat split; try lia. symmetry. exact Hw.
  - intros [y [x [c [Hy [Hx [Hc Hw]]]]]].
    apply in_flat_map. exists y. split; [apply in_seq; lia|].
    apply in_flat_map. exists x. split; [apply in_seq; lia|].
    apply in_map_iff. exists c. split; [symmetry; exact Hw | apply in_seq; lia].
Qed.

(** A byte offset determines its row, column and channel. *)
Lemma offset_unique (width y x c y' x' c' : nat) :
  (x < width)%nat -> (c < 4)%nat -> (x' < width)%nat -> (c' < 4)%nat ->
  (y * width * 4 + x * 4 + c = y' * width * 4 + x' * 4 + c')%nat ->
  y = y' /\ x = x' /\ c = c'.
Proof.
  intros Hx Hc Hx' Hc' E.
  assert (y = y') as -> by nia.
  assert (x = x') as -> by nia.
  repeat split; lia.
Qed.

Lemma offset_decompose (width height k : nat) :
  (k < width * height * 4)%nat ->
  exists y x c, (y < height)%nat /\ (x < width)%nat /\ (c < 4)%nat /\
                k = (y * width * 4 + x * 4 + c)%nat.
Proof.
  intros Hk.
  assert (Hw : width <> 0%nat) by (intros ->; lia).
  exists (k / (width * 4))%nat, ((k mod (width * 4)) / 4)%nat,
         ((k mod (width * 4)) mod 4)%nat.
  pose proof (Nat.div_mod_eq k (width * 4)) as E1.
  pose proof (Nat.div_mod_eq (k mod (width * 4)) 4) as E2.
  pose proof (Nat.mod_upper_bound k (width * 4) ltac:(lia)) as B1.
  pose proof (Nat.mod_upper_bound (k mod (width * 4)) 4 ltac:(lia)) as B2.
  repeat split.
  - apply Nat.Div0.div_lt_upper_bound. lia.
  - apply Nat.Div0.div_lt_upper_bound. lia.
  - exact B2.
  - lia.
Qed.

(** X8. The loop of [pixelsToDataUrl] turns the picture upside down:
    the image data has [width * height * 4] bytes, and the byte of
    channel [c] of the pixel in column [x] of row [y] is the byte the
    buffer holds for the same column and channel of row
    [height - 1 - y] (0 where the buffer is too short). *)
Theorem flipImage_flips_rows (pixels : Bytes) (width height : nat) :
  length (flipImage pixels width height) = (width * height * 4)%nat /\
  forall y x c, (y < height)%nat -> (x < width)%nat -> (c < 4)%nat ->
    flipImage pixels width height !! (y * width * 4 + x * 4 + c)%nat
    = Some (byteAt pixels ((height - 1 - y) * width * 4 + x * 4 + c)).
Proof.
  rewrite flipImage_writes. split.
  - rewrite writes_to_length. apply length_replicate.
  - intros y x c Hy Hx Hc. apply writes_to_lookup.
    + unfold createImageData. rewrite length_replicate. nia.
    + intros w Hin Hw. apply imageWrites_In in Hin
        as [y' [x' [c' [Hy' [Hx' [Hc' ->]]]]]].
      cbn in Hw |- *.
      destruct (offset_unique width y' x' c' y x c Hx' Hc' Hx Hc Hw)
        as [-> [-> ->]].
      reflexivity.
    + right. eexists. split.
      * apply imageWrites_In. exists y, x, c. repeat split; try eassumption.
      * reflexivity.
Qed.

(** X9. Flipping is its own inverse: applied twice to a buffer of
    [width * height * 4] bytes, the loop gives the buffer back. *)
Theorem flipImage_involutive (pixels : Bytes) (width height : nat) :
  length pixels = (width * height * 4)%nat ->
  flipImage (flipImage pixels width height) width height = pixels.
Proof.
  intros Hlen.
  destruct (flipImage_flips_rows pixels width height) as [L1 F1].
  destruct (flipImage_flips_rows (flipImage pixels width height) width height)
    as [L2 F2].
  apply list_eq. intros k.
  destruct (Nat.lt_ge_cases k (width * height * 4)) as [Hk|Hk].
  - destruct (offset_decompose width height k Hk)
      as [y [x [c [Hy [Hx [Hc ->]]]]]].
    rewrite F2 by assumption. unfold byteAt at 1.
    rewrite F1 by (try assumption; lia).
    cbn. unfold byteAt.
    replace (height - 1 - (height - 1 - y))%nat with y by lia.
    destruct (pixels !! (y * width * 4 + x * 4 + c)%nat) eqn:E; [reflexivity|].
    apply lookup_ge_None in E. nia.
  - rewrite (proj2 (lookup_ge_None _ _)) by lia.
    rewrite (proj2 (lookup_ge_None _ _)) by lia. reflexivity.
Qed.

Lemma flipImage_involutive_witness :
  length twoByTwo = (2%nat * 2%nat * 4)%nat /\
  (flipImage (flipImage twoByTwo 2%nat 2%nat) 2%nat 2%nat = twoByTwo).
Proof.
  split; [reflexivity |].
  apply (flipImage_involutive twoByTwo 2%nat 2%nat);
    [reflexivity].
Defined.

End PixelLoop.

(** ** Horizontal alignment, and the display against the export *)

Section Alignment.
Import Three Positions Layout Legend Exporter Spec Examples StlOutput Notions
  MoreExamples.

Lemma midOf_affine_pos (f h : Vector3 -> Q) (k c : Q) (g : BufferGeometry) :
  0 <= k -> (forall v, f v == h v * k + c) ->
  midOf f g == midOf h g * k + c.
Proof.
  intros Hk Hf. unfold midOf.
  rewrite (minOf_affine_pos f h k c g Hk Hf), (maxOf_affine_pos f h k c g Hk Hf).
  ring.
Qed.

Lemma midOf_affine_neg (f h : Vector3 -> Q) (k c : Q) (g : BufferGeometry) :
  k <= 0 -> (forall v, f v == h v * k + c) ->
  midOf f g == midOf h g * k + c.
Proof.
  intros Hk Hf. unfold midOf.
  rewrite (minOf_affine_neg f h k c g Hk Hf), (maxOf_affine_neg f h k c g Hk Hf).
  ring.
Qed.

Lemma midOf_affine (f h : Vector3 -> Q) (k c : Q) (g : BufferGeometry) :
  (forall v, f v == h v * k + c) ->
  midOf f g == midOf h g * k + c.
Proof.
  intros Hf. destruct (Qlt_le_dec k 0) as [Hk|Hk].
  - apply midOf_affine_neg; [lra | exact Hf].
  - apply midOf_affine_pos; [lra | exact Hf].
Qed.

Lemma recenter_centred (g : BufferGeometry) :
  midOf vx (recenter g) == 0 /\
  midOf vy (recenter g) == 0 /\
  midOf vz (recenter g) == 0.
Proof.
  unfold recenter, translate, midOf.
  rewrite !minOf_mapGeometry, !maxOf_mapGeometry.
  set (c := centerOf (boundingBox g)).
  assert (Hx : vx c == (minOf vx g + maxOf vx g) * (1 # 2)) by reflexivity.
  assert (Hy : vy c == (minOf vy g + maxOf vy g) * (1 # 2)) by reflexivity.
  assert (Hz : vz c == (minOf vz g + maxOf vz g) * (1 # 2)) by reflexivity.
  repeat split.
  - pose proof (midOf_affine_pos
                  (fun v => vx (vx v + vx (- vx c, - vy c, - vz c),
                                vy v + vy (- vx c, - vy c, - vz c),
                                vz v + vz (- vx c, - vy c, - vz c)))
                  vx 1 (- vx c) g ltac:(lra) ltac:(intros v; cbn; ring)) as H.
    unfold midOf in H. rewrite H, Hx. ring.
  - pose proof (midOf_affine_pos
                  (fun v => vy (vx v + vx (- vx c, - vy c, - vz c),
                                vy v + vy (- vx c, - vy c, - vz c),
                                vz v + vz (- vx c, - vy c, - vz c)))
                  vy 1 (- vy c) g ltac:(lra) ltac:(intros v; cbn; ring)) as H.
    unfold midOf in H. rewrite H, Hy. ring.
  - pose proof (midOf_affine_pos
                  (fun v => vz (vx v + vx (- vx c, - vy c, - vz c),
                                vy v + vy (- vx c, - vy c, - vz c),
                                vz v + vz (- vx c, - vy c, - vz c)))
                  vz 1 (- vz c) g ltac:(lra) ltac:(intros v; cbn; ring)) as H.
    unfold midOf in H. rewrite H, Hz. ring.
Qed.

Lemma scale_centred (s : Vector3) (g : BufferGeometry) :
  midOf vx (scale s g) == midOf vx g * vx s /\
  midOf vy (scale s g) == midOf vy g * vy s /\
  midOf vz (scale s g) == midOf vz g * vz s.
Proof.
  unfold scale, midOf. rewrite !minOf_mapGeometry, !maxOf_mapGeometry.
  repeat split.
  - pose proof (midOf_affine
                  (fun v => vx (vx v * vx s, vy v * vy s, vz v * vz s))
                  vx (vx s) 0 g ltac:(intros v; cbn; ring)) as H.
    unfold midOf in H. rewrite H. ring.
  - pose proof (midOf_affine
                  (fun v => vy (vx v * vx s, vy v * vy s, vz v * vz s))
                  vy (vy s) 0 g ltac:(intros v; cbn; ring)) as H.
    unfold midOf in H. rewrite H. ring.
  - pose proof (midOf_affine
                  (fun v => vz (vx v * vx s, vy v * vy s, vz v * vz s))
                  vz (vz s) 0 g ltac:(intros v; cbn; ring)) as H.
    unfold midOf in H. rewrite H. ring.
Qed.

Lemma normalize_centred (g : BufferGeometry) :
  midOf vx (normalize g) == 0 /\
  midOf vy (normalize g) == 0 /\
  midOf vz (normalize g) == 0.
Proof.
  unfold normalize.
  destruct (recenter_centred g) as [Hx [Hy Hz]].
  set (k := 1 / _).
  destruct (scale_centred (k, k, k) (recenter g)) as [Sx [Sy Sz]].
  rewrite Hx in Sx. rewrite Hy in Sy. rewrite Hz in Sz.
  destruct (Num.gtb _ 0.001).
  - set (z := vz _ - vz _).
    destruct (scale_centred (1, 1, 1 / z) (Three.scale (k, k, k) (recenter g)))
      as [Tx [Ty Tz]].
    rewrite Sx in Tx. rewrite Sy in Ty. rewrite Sz in Tz.
    rewrite Tx, Ty, Tz. repeat split; ring.
  - rewrite Sx, Sy, Sz. repeat split; ring.
Qed.

(** X10. Horizontal alignment: for the slot [(x, y, z)] of key [i],
    the keycap mesh, the border mesh, the letter and a synthesised icon
    placed for it all have a world bounding box centred on [x] along X
    and on [z] along Z. *)
Theorem parts_centred_on_slot (p : Props) (a : Assets) (i : nat) (x y z : Q) :
  keycapPositions p !! i = Some (x, y, z) ->
  (forall kg, keycapGeometryStore a = Some kg ->
     exists pos,
       keycapMeshPositions p a !! i = Some pos /\
       midOf (fun v => vx (localToWorld (keycapMesh pos) v)) kg == x /\
       midOf (fun v => vz (localToWorld (keycapMesh pos) v)) kg == z) /\
  (forall bg, borderGeometryStore a = Some bg ->
     exists pos,
       borderMeshPositions p a !! i = Some pos /\
       midOf (fun v => vx (localToWorld (borderMesh pos) v)) bg == x /\
       midOf (fun v => vz (localToWorld (borderMesh pos) v)) bg == z) /\
  (forall f letter,
     midOf (fun v => vx (localToWorld
                              (labelMesh p (x, keycapTopY p a y, z)) v))
              (textGeometry f p letter) == x /\
     midOf (fun v => vz (localToWorld
                              (labelMesh p (x, keycapTopY p a y, z)) v))
              (textGeometry f p letter) == z) /\
  (forall shapes g, synthesize shapes = Some g ->
     midOf (fun v => vx (localToWorld
                              (svgMesh p (x, keycapTopY p a y, z)) v)) g
       == x /\
     midOf (fun v => vz (localToWorld
                              (svgMesh p (x, keycapTopY p a y, z)) v)) g
       == z).
Proof.
  intros Hpos. split; [| split; [| split]].
  - intros kg Hk. eexists. split.
    + unfold keycapMeshPositions. rewrite lookup_map.
      unfold Vector3 in *. rewrite Hpos. reflexivity.
    + set (pos := (_, _, _)).
      assert (Hw : forall v,
                vx (localToWorld (keycapMesh pos) v) == vx v * 1 + vx pos /\
                vy (localToWorld (keycapMesh pos) v) == vz v * 1 + vy pos /\
                vz (localToWorld (keycapMesh pos) v)
                  == vy v * (- (1)) + vz pos).
      { intros v. apply (upright_world_x (keycapMesh pos) v); reflexivity. }
      rewrite (midOf_affine _ vx 1 (vx pos) kg (fun v => proj1 (Hw v))).
      rewrite (midOf_affine _ vy (- (1)) (vz pos) kg
                 (fun v => proj2 (proj2 (Hw v)))).
      subst pos. unfold keycapOffset. rewrite Hk.
      unfold midOf.
      cbn [vx vy vz fst snd centerOf boundingBox bmin bmax kcenter].
      split; ring.
  - intros bg Hb. eexists. split.
    + unfold borderMeshPositions. rewrite lookup_map.
      unfold Vector3 in *. rewrite Hpos. reflexivity.
    + set (pos := (_, _, _)).
      assert (Hw : forall v,
                vx (localToWorld (borderMesh pos) v) == vx v * 1 + vx pos /\
                vy (localToWorld (borderMesh pos) v) == vz v * 1 + vy pos /\
                vz (localToWorld (borderMesh pos) v)
                  == vy v * (- (1)) + vz pos).
      { intros v. apply (upright_world_x (borderMesh pos) v); reflexivity. }
      rewrite (midOf_affine _ vx 1 (vx pos) bg (fun v => proj1 (Hw v))).
      rewrite (midOf_affine _ vy (- (1)) (vz pos) bg
                 (fun v => proj2 (proj2 (Hw v)))).
      subst pos. unfold borderOffset. rewrite Hb.
      unfold midOf.
      cbn [vx vy vz fst snd centerOf boundingBox bmin bmax bcenter].
      split; ring.
  - intros f letter. unfold textGeometry.
    set (g := extrude _ _).
    destruct (recenter_centred g) as [Hx [Hy _]].
    set (o := labelMesh p (x, keycapTopY p a y, z)).
    assert (Wx : forall v, vx (localToWorld o v) == vx v * textSizeMm p + x).
    { intros v. unfold o, localToWorld, rotate, labelMesh, FILE_TO_MM; cbn.
      ring. }
    assert (Wz : forall v, vz (localToWorld o v) == vy v * (- textSizeMm p) + z).
    { intros v. unfold o, localToWorld, rotate, labelMesh, FILE_TO_MM; cbn.
      ring. }
    rewrite (midOf_affine _ vx _ _ (recenter g) Wx).
    rewrite (midOf_affine _ vy _ _ (recenter g) Wz).
    rewrite Hx, Hy. split; ring.
  - intros shapes g Hs.
    assert (Hc : midOf vx g == 0 /\ midOf vy g == 0).
    { unfold synthesize in Hs.
      destruct (map _ shapes) as [|g0 [|g1 rest]] eqn:E; [discriminate | |].
      - injection Hs as <-. destruct (normalize_centred g0) as [? [? ?]].
        split; assumption.
      - destruct (mergeGeometries _) as [m|]; [|discriminate].
        injection Hs as <-. destruct (normalize_centred m) as [? [? ?]].
        split; assumption. }
    destruct Hc as [Hx Hy].
    set (o := svgMesh p (x, keycapTopY p a y, z)).
    assert (Wx : forall v, vx (localToWorld o v) == vx v * keycapSvgSizeMm p + x).
    { intros v. unfold o, localToWorld, rotate, svgMesh, FILE_TO_MM; cbn.
      ring. }
    assert (Wz : forall v, vz (localToWorld o v) == vy v * keycapSvgSizeMm p + z).
    { intros v. unfold o, localToWorld, rotate, svgMesh, FILE_TO_MM; cbn.
      ring. }
    rewrite (midOf_affine _ vx _ _ g Wx).
    rewrite (midOf_affine _ vy _ _ g Wz).
    rewrite Hx, Hy. split; ring.
Qed.

Lemma parts_centred_on_slot_witness :
  keycapPositions demoProps !! 0%nat = Some (4.5, 0, 0) /\
  ((forall kg, keycapGeometryStore demoAssets = Some kg ->
     exists pos,
       keycapMeshPositions demoProps demoAssets !! 0%nat = Some pos /\
       midOf (fun v => vx (localToWorld (keycapMesh pos) v)) kg == 4.5 /\
       midOf (fun v => vz (localToWorld (keycapMesh pos) v)) kg == 0) /\
  (forall bg, borderGeometryStore demoAssets = Some bg ->
     exists pos,
       borderMeshPositions demoProps demoAssets !! 0%nat = Some pos /\
       midOf (fun v => vx (localToWorld (borderMesh pos) v)) bg == 4.5 /\
       midOf (fun v => vz (localToWorld (borderMesh pos) v)) bg == 0) /\
  (forall f letter,
     midOf (fun v => vx (localToWorld
                              (labelMesh demoProps (4.5, keycapTopY demoProps demoAssets 0, 0)) v))
              (textGeometry f demoProps letter) == 4.5 /\
     midOf (fun v => vz (localToWorld
                              (labelMesh demoProps (4.5, keycapTopY demoProps demoAssets 0, 0)) v))
              (textGeometry f demoProps letter) == 0) /\
  (forall shapes g, synthesize shapes = Some g ->
     midOf (fun v => vx (localToWorld
                              (svgMesh demoProps (4.5, keycapTopY demoProps demoAssets 0, 0)) v)) g
       == 4.5 /\
     midOf (fun v => vz (localToWorld
                              (svgMesh demoProps (4.5, keycapTopY demoProps demoAssets 0, 0)) v)) g
       == 0)).
Proof.
  split; [reflexivity |].
  apply (parts_centred_on_slot demoProps demoAssets 0%nat 4.5 0 0);
    [reflexivity].
Defined.

End Alignment.

Section DisplayAndExport.
Import Three Positions Layout Legend Exporter Spec Examples StlOutput Notions
  MoreExamples.

(** A key with an icon URL that is not blank and a position gets a slot. *)
Lemma keycapSvgSlots_complete (p : Props) (a : Assets) (i : nat)
    (url : string) (x y z : Q) :
  mjoin (keycapSvgUrls p !! i) = Some url ->
  Js.truthy (Js.trim url) = true ->
  keycapPositions p !! i = Some (x, y, z) ->
  {| slot_position := (x, keycapTopY p a y, z); slot_url := url |}
    ∈ keycapSvgSlots p a.
Proof.
  intros Hu Ht Hp. unfold keycapSvgSlots.
  destruct (keycapSvgUrls p) as [| u0 us] eqn:Eu; [discriminate |].
  destruct (keycapPositions p) as [| p0 ps] eqn:Ep; [discriminate |].
  rewrite list_elem_of_omap. eexists. split.
  - apply elem_of_lookup_imap. exists i, (x, y, z).
    split; [reflexivity | exact Hp].
  - cbn. rewrite Hu, Ht. reflexivity.
Qed.

(** The export transform of a letter against its display transform. *)
Lemma letter_transforms (s : Q) (pos v : Vector3) :
  let E := {| position := pos; rotation := (HalfPi, Pi, Pi);
              scaling := (s * FILE_TO_MM, s * FILE_TO_MM, s * FILE_TO_MM) |} in
  let D := {| position := pos; rotation := (HalfPi, Rad0, Rad0);
              scaling := (s * FILE_TO_MM, - s * FILE_TO_MM, s * FILE_TO_MM) |} in
  vx (localToWorld E v) == vx (localToWorld D v) /\
  vz (localToWorld E v) == vz (localToWorld D v) /\
  vy (localToWorld E v) - vy pos == - (vy (localToWorld D v) - vy pos) /\
  vy (localToWorld E v) == vz v * s + vy pos.
Proof.
  unfold localToWorld, rotate, FILE_TO_MM; cbn. repeat split; ring.
Qed.

(** X11. What is exported for a letter is what is displayed: for a key
    with a letter, no icon and a positive text size, the export builds
    the geometry of the displayed label and puts it at the same
    position; every vertex gets the same world x and z as on display and
    the height mirrored through the keycap-top plane, so the exported
    letter spans the same heights as the displayed one. *)
Theorem export_letter_matches_display (p : Props) (a : Assets) (f : Font)
    (i : nat) (letter : string) (x y z : Q) :
  0 < textSizeMm p ->
  font a = Some f ->
  keycapPositions p !! i = Some (x, y, z) ->
  keycapLetters p !! i = Some letter ->
  Js.trim letter = letter -> Js.truthy letter = true ->
  mjoin (keycapSvgUrls p !! i) = None ->
  exists lbl pt,
    lbl ∈ keycapLabels p a /\
    legendPart p a i (x, y, z) = [pt] /\
    part_geometry pt = label_geometry lbl /\
    position (part_object pt) = label_position lbl /\
    (forall v,
       let e := localToWorld (part_object pt) v in
       let d := localToWorld (labelMesh p (label_position lbl)) v in
       vx e == vx d /\ vz e == vz d /\
       vy e - keycapTopY p a y == - (vy d - keycapTopY p a y)) /\
    worldMinY (part_object pt) (part_geometry pt)
      == worldMinY (labelMesh p (label_position lbl)) (label_geometry lbl) /\
    worldMaxY (part_object pt) (part_geometry pt)
      == worldMaxY (labelMesh p (label_position lbl)) (label_geometry lbl).
Proof.
  intros Hs Hf Hp Hl Htrim Ht Hu.
  assert (Hurl : has_url (keycapSvgUrls p) i = false).
  { unfold has_url. rewrite Hu. reflexivity. }
  exists {| label_geometry := textGeometry f p letter;
            label_position := (x, keycapTopY p a y, z) |}.
  eexists. split; [| split].
  - apply (keycapLabels_complete p a f i letter x y z); try assumption.
    rewrite Htrim. exact Ht.
  - unfold legendPart, letterAt, svgUrlAt. rewrite Hl, Hu, Hf.
    cbn [fmap option_fmap option_map truthy default from_option id].
    rewrite Htrim, Ht. reflexivity.
  - cbn [part_geometry part_object position label_geometry label_position].
    split; [reflexivity |]. split; [reflexivity |].
    pose proof (letter_transforms (textSizeMm p) (x, keycapTopY p a y, z))
      as HT.
    split.
    + intros v. destruct (HT v) as [H1 [H2 [H3 _]]].
      cbn zeta. split; [exact H1 | split; [exact H2 | exact H3]].
    + destruct (label_straddles_position p f letter
                  (x, keycapTopY p a y, z) Hs) as [Dmin Dmax].
      rewrite Dmin, Dmax. unfold worldMinY, worldMaxY.
      rewrite (minOf_affine_pos _ vz (textSizeMm p) (keycapTopY p a y) _
                 ltac:(lra) (fun v => proj2 (proj2 (proj2 (HT v))))).
      rewrite (maxOf_affine_pos _ vz (textSizeMm p) (keycapTopY p a y) _
                 ltac:(lra) (fun v => proj2 (proj2 (proj2 (HT v))))).
      unfold textGeometry.
      set (o := f _). set (d := LEGEND_DEPTH_MM / textSizeMm p).
      destruct (recenter_z (extrude o d)) as [Hmin Hmax].
      rewrite Hmin, Hmax. unfold extent.
      rewrite extrude_minZ, extrude_maxZ.
      assert (Hd : 0 < d).
      { unfold d. apply Qlt_shift_div_l; [exact Hs |].
        unfold LEGEND_DEPTH_MM. lra. }
      rewrite Q.min_l, Q.max_r by lra.
      cbn [vy fst snd]. unfold d. split; field; lra.
Qed.

Lemma export_letter_matches_display_witness :
  0 < textSizeMm demoProps /\
  font demoAssets = Some (fun _ => squareOutline) /\
  keycapPositions demoProps !! 0%nat = Some (4.5, 0, 0) /\
  keycapLetters demoProps !! 0%nat = Some "A"%string /\
  Js.trim "A"%string = "A"%string /\
  Js.truthy "A"%string = true /\
  mjoin (keycapSvgUrls demoProps !! 0%nat) = None /\
  (exists lbl pt,
    lbl ∈ keycapLabels demoProps demoAssets /\
    legendPart demoProps demoAssets 0%nat (4.5, 0, 0) = [pt] /\
    part_geometry pt = label_geometry lbl /\
    position (part_object pt) = label_position lbl /\
    (forall v,
       let e := localToWorld (part_object pt) v in
       let d := localToWorld (labelMesh demoProps (label_position lbl)) v in
       vx e == vx d /\ vz e == vz d /\
       vy e - keycapTopY demoProps demoAssets 0 == - (vy d - keycapTopY demoProps demoAssets 0)) /\
    worldMinY (part_object pt) (part_geometry pt)
      == worldMinY (labelMesh demoProps (label_position lbl)) (label_geometry lbl) /\
    worldMaxY (part_object pt) (part_geometry pt)
      == worldMaxY (labelMesh demoProps (label_position lbl)) (label_geometry lbl)).
Proof.
  split; [vm_compute; reflexivity |].
  split; [reflexivity |].
  split; [reflexivity |].
  split; [reflexivity |].
  split; [reflexivity |].
  split; [reflexivity |].
  split; [reflexivity |].
  apply (export_letter_matches_display demoProps demoAssets (fun _ => squareOutline) 0%nat "A"%string 4.5 0 0);
    [vm_compute; reflexivity | reflexivity | reflexivity | reflexivity | reflexivity | reflexivity | reflexivity].
Defined.

(** The export transform of an icon against its display transform. *)
Lemma icon_transforms (k d : Q) (pos v : Vector3) :
  let E := {| position := pos; rotation := (HalfPi, Pi, Rad0);
              scaling := (k * FILE_TO_MM, k * FILE_TO_MM, d) |} in
  let D := {| position := pos; rotation := (HalfPi, Rad0, Rad0);
              scaling := (k * FILE_TO_MM, k * FILE_TO_MM, d) |} in
  vx (localToWorld E v) - vx pos == - (vx (localToWorld D v) - vx pos) /\
  vz (localToWorld E v) == vz (localToWorld D v) /\
  vy (localToWorld E v) - vy pos == - (vy (localToWorld D v) - vy pos) /\
  vx (localToWorld D v) == vx v * k + vx pos.
Proof.
  unfold localToWorld, rotate, FILE_TO_MM; cbn. repeat split; ring.
Qed.

(** X12. The exported icon against the displayed one: for a key
    whose icon is cached, the export takes the cached geometry to the
    position of the displayed slot; every vertex keeps its world z, has
    its height mirrored through the keycap-top plane, and has its world
    x mirrored about the slot's x (the [rotation.y = Math.PI] of the
    export). *)
Theorem export_icon_mirrors_display (p : Props) (a : Assets) (i : nat)
    (url : string) (geom : BufferGeometry) (x y z : Q) :
  keycapPositions p !! i = Some (x, y, z) ->
  mjoin (keycapSvgUrls p !! i) = Some url ->
  Js.trim url = url -> Js.truthy url = true ->
  svgGeometryByUrl a !! url = Some geom ->
  exists slot pt,
    slot ∈ keycapSvgSlots p a /\ slot_url slot = url /\
    legendPart p a i (x, y, z) = [pt] /\
    part_geometry pt = geom /\
    position (part_object pt) = slot_position slot /\
    slot_position slot = (x, keycapTopY p a y, z) /\
    forall v,
      let e := localToWorld (part_object pt) v in
      let d := localToWorld (svgMesh p (slot_position slot)) v in
      vx e - x == - (vx d - x) /\
      vz e == vz d /\
      vy e - keycapTopY p a y == - (vy d - keycapTopY p a y).
Proof.
  intros Hp Hu Htrim Ht Hc.
  exists {| slot_position := (x, keycapTopY p a y, z); slot_url := url |}.
  eexists. split; [| split; [reflexivity | split]].
  - apply (keycapSvgSlots_complete p a i url x y z); try assumption.
    rewrite Htrim. exact Ht.
  - unfold legendPart, svgUrlAt. rewrite Hu.
    cbn [fmap option_fmap option_map truthy default from_option id mjoin].
    rewrite Htrim, Ht, Hc. reflexivity.
  - cbn [part_geometry part_object position slot_position].
    split; [reflexivity |]. split; [reflexivity |]. split; [reflexivity |].
    intros v.
    destruct (icon_transforms (keycapSvgSizeMm p) (LEGEND_DEPTH_MM * FILE_TO_MM)
                (x, keycapTopY p a y, z) v) as [H1 [H2 [H3 _]]].
    cbn zeta. split; [exact H1 | split; [exact H2 | exact H3]].
Qed.

Lemma export_icon_mirrors_display_witness :
  keycapPositions letterAndIconProps !! 0%nat = Some (4.5, 0, 0) /\
  mjoin (keycapSvgUrls letterAndIconProps !! 0%nat) = Some "/assets/heart.svg"%string /\
  Js.trim "/assets/heart.svg"%string = "/assets/heart.svg"%string /\
  Js.truthy "/assets/heart.svg"%string = true /\
  svgGeometryByUrl demoAssetsWithHeart !! "/assets/heart.svg"%string = Some demoBorder /\
  (exists slot pt,
    slot ∈ keycapSvgSlots letterAndIconProps demoAssetsWithHeart /\ slot_url slot = "/assets/heart.svg"%string /\
    legendPart letterAndIconProps demoAssetsWithHeart 0%nat (4.5, 0, 0) = [pt] /\
    part_geometry pt = demoBorder /\
    position (part_object pt) = slot_position slot /\
    slot_position slot = (4.5, keycapTopY letterAndIconProps demoAssetsWithHeart 0, 0) /\
    forall v,
      let e := localToWorld (part_object pt) v in
      let d := localToWorld (svgMesh letterAndIconProps (slot_position slot)) v in
      vx e - 4.5 == - (vx d - 4.5) /\
      vz e == vz d /\
      vy e - keycapTopY letterAndIconProps demoAssetsWithHeart 0 == - (vy d - keycapTopY letterAndIconProps demoAssetsWithHeart 0)).
Proof.
  split; [reflexivity |].
  split; [reflexivity |].
  split; [reflexivity |].
  split; [reflexivity |].
  split; [reflexivity |].
  apply (export_icon_mirrors_display letterAndIconProps demoAssetsWithHeart 0%nat "/assets/heart.svg"%string demoBorder 4.5 0 0);
    [reflexivity | reflexivity | reflexivity | reflexivity | reflexivity].
Defined.

(** The file's axes against the scene's. *)
Lemma root_rotation_axes (w : Vector3) :
  vx (rotate (HalfPi, Rad0, Rad0) w) == vx w /\
  vy (rotate (HalfPi, Rad0, Rad0) w) == - vz w /\
  vz (rotate (HalfPi, Rad0, Rad0) w) == vy w.
Proof. unfold rotate; cbn. repeat split; ring. Qed.

(** X13. The exported file is Z-up: the root rotation sends the
    scene's height (world y) to the file's z, keeps x and sends world z
    to minus y, for every part; the keycap comes out in the orientation
    of its source mesh, translated only, and its lowest point in the
    file is at the height of the body top plus the slot's [y]. *)
Theorem exported_file_is_z_up (p : Props) (a : Assets) (kg : BufferGeometry)
    (i : nat) (f : StlFile) (x y z : Q) :
  exportOne p a kg i = Some f ->
  keycapPositions p !! i = Some (x, y, z) ->
  (forall pt v,
     pt ∈ file_parts f ->
     let w := localToWorld (part_object pt) v in
     vx (fileVertex f pt v) == vx w /\
     vy (fileVertex f pt v) == - vz w /\
     vz (fileVertex f pt v) == vy w) /\
  exists kpt rest,
    file_parts f = kpt :: rest /\
    part_kind kpt = KeycapPart /\ part_geometry kpt = kg /\
    (forall v,
       vx (fileVertex f kpt v) == vx v + (x - vx (kcenter (keycapOffset a))) /\
       vy (fileVertex f kpt v) == vy v - (z + vy (kcenter (keycapOffset a))) /\
       vz (fileVertex f kpt v)
         == vz v + (clickerTopY p a + y - kminZ (keycapOffset a))) /\
    (keycapGeometryStore a = Some kg ->
     minOf (fun v => vz (fileVertex f kpt v)) kg == clickerTopY p a + y).
Proof.
  intros He Hp. unfold exportOne in He.
  assert (Hpos : keycapMeshPositions p a !! i
                 = Some (x - vx (kcenter (keycapOffset a)),
                         clickerTopY p a + y - kminZ (keycapOffset a),
                         z + vy (kcenter (keycapOffset a)))).
  { unfold keycapMeshPositions. rewrite lookup_map.
    unfold Vector3 in *. rewrite Hp. reflexivity. }
  unfold Vector3 in *. rewrite Hpos, Hp in He.
  injection He as Hf. subst f. split.
  - intros pt v _. unfold fileVertex. cbn [root_rotation].
    destruct (root_rotation_axes (localToWorld (part_object pt) v))
      as [H1 [H2 H3]].
    cbn zeta. split; [exact H1 | split; [exact H2 | exact H3]].
  - eexists. eexists. split; [reflexivity |].
    split; [reflexivity |]. split; [reflexivity |].
    assert (Hv : forall v : Q * Q * Q,
      vx (fileVertex
            {| file_name := exportName p i;
               root_rotation := (HalfPi, Rad0, Rad0);
               file_parts := [] |}
            {| part_kind := KeycapPart;
               part_object :=
                 {| position := (x - vx (kcenter (keycapOffset a)),
                                 clickerTopY p a + y - kminZ (keycapOffset a),
                                 z + vy (kcenter (keycapOffset a)));
                    rotation := (NegHalfPi, Rad0, Rad0);
                    scaling := (FILE_TO_MM, FILE_TO_MM, FILE_TO_MM) |};
               part_geometry := kg |} v)
        == vx v + (x - vx (kcenter (keycapOffset a))) /\
      vy (fileVertex
            {| file_name := exportName p i;
               root_rotation := (HalfPi, Rad0, Rad0);
               file_parts := [] |}
            {| part_kind := KeycapPart;
               part_object :=
                 {| position := (x - vx (kcenter (keycapOffset a)),
                                 clickerTopY p a + y - kminZ (keycapOffset a),
                                 z + vy (kcenter (keycapOffset a)));
                    rotation := (NegHalfPi, Rad0, Rad0);
                    scaling := (FILE_TO_MM, FILE_TO_MM, FILE_TO_MM) |};
               part_geometry := kg |} v)
        == vy v - (z + vy (kcenter (keycapOffset a))) /\
      vz (fileVertex
            {| file_name := exportName p i;
               root_rotation := (HalfPi, Rad0, Rad0);
               file_parts := [] |}
            {| part_kind := KeycapPart;
               part_object :=
                 {| position := (x - vx (kcenter (keycapOffset a)),
                                 clickerTopY p a + y - kminZ (keycapOffset a),
                                 z + vy (kcenter (keycapOffset a)));
                    rotation := (NegHalfPi, Rad0, Rad0);
                    scaling := (FILE_TO_MM, FILE_TO_MM, FILE_TO_MM) |};
               part_geometry := kg |} v)
        == vz v * 1 + (clickerTopY p a + y - kminZ (keycapOffset a))).
    { intros v. unfold fileVertex, localToWorld, rotate, FILE_TO_MM; cbn.
      repeat split; ring. }
    split.
    + intros v. destruct (Hv v) as [H1 [H2 H3]].
      split; [exact H1 |]. split; [exact H2 |].
      unfold fileVertex in *. cbn [root_rotation part_object] in *.
      rewrite H3. ring.
    + intros Hk.
      unfold fileVertex in *. cbn [root_rotation part_object] in *.
      rewrite (minOf_affine_pos _ vz 1 _ kg ltac:(lra)
                 (fun v => proj2 (proj2 (Hv v)))).
      unfold keycapOffset. rewrite Hk. cbn. ring.
Qed.

Lemma exported_file_is_z_up_witness :
  exists f,
    exportOne demoProps demoAssets demoKeycap 0 = Some f /\
    keycapPositions demoProps !! 0%nat = Some (4.5, 0, 0) /\
    (forall pt v,
       pt ∈ file_parts f ->
       let w := localToWorld (part_object pt) v in
       vx (fileVertex f pt v) == vx w /\
       vy (fileVertex f pt v) == - vz w /\
       vz (fileVertex f pt v) == vy w).
Proof.
  eexists. split; [reflexivity |]. split; [reflexivity |].
  apply (exported_file_is_z_up demoProps demoAssets demoKeycap 0 _ 4.5 0 0);
    reflexivity.
Defined.

End DisplayAndExport.

Section LegendCount.
Import Three Positions Layout Spec Examples Notions.

Lemma omap_imap_length {A B : Type} (F : nat -> A -> option B) (l : list A)
    (k : nat) :
  length (omap id (imap (fun i => F (k + i)%nat) l))
  = countBelow (fun i => match l !! (i - k)%nat with
                         | Some x => bool_decide (is_Some (F i x))
                         | None => false
                         end) k (length l).
Proof.
  unfold countBelow. revert k. induction l as [| x l IH]; intros k;
    [reflexivity |].
  rewrite imap_cons. cbn [length seq List.filter].
  change (omap id (?h :: ?t))
    with (match h with Some y => y :: omap id t | None => omap id t end).
  rewrite Nat.sub_diag, Nat.add_0_r. cbn [lookup list_lookup].
  rewrite (imap_ext _ (fun i => F (S k + i)%nat) l)
    by (intros i y _; cbn; f_equal; lia).
  assert (Hrest : List.filter
            (fun i => match (x :: l) !! (i - k)%nat with
                      | Some x0 => bool_decide (is_Some (F i x0))
                      | None => false
                      end) (seq (S k) (length l))
          = List.filter
            (fun i => match l !! (i - S k)%nat with
                      | Some x0 => bool_decide (is_Some (F i x0))
                      | None => false
                      end) (seq (S k) (length l))).
  { apply filter_ext_in. intros i Hi. apply in_seq in Hi.
    replace (i - k)%nat with (S (i - S k)) by lia. reflexivity. }
  rewrite Hrest.
  destruct (F k x) as [y |].
  - rewrite bool_decide_eq_true_2 by (eexists; reflexivity).
    cbn [length]. rewrite <- IH. reflexivity.
  - rewrite bool_decide_eq_false_2 by (intros [? ?]; discriminate).
    rewrite <- IH. reflexivity.
Qed.

Lemma countBelow_disjoint (P Q : nat -> bool) (s n : nat) :
  (forall i, P i = true -> Q i = true -> False) ->
  (countBelow P s n + countBelow Q s n <= n)%nat.
Proof.
  intros Hd. unfold countBelow. revert s.
  induction n as [| n IH]; intros s; [cbn; lia |].
  cbn [seq List.filter]. specialize (IH (S s)).
  destruct (P s) eqn:EP, (Q s) eqn:EQ; cbn [length]; try lia.
  exfalso. exact (Hd s EP EQ).
Qed.

Lemma filter_none {A : Type} (P : A -> bool) (l : list A) :
  (forall x, In x l -> P x = false) -> List.filter P l = [].
Proof.
  induction l as [| x l IH]; intros H; [reflexivity |].
  cbn [List.filter]. rewrite (H x) by (left; reflexivity).
  apply IH. intros y Hy. apply H. right. exact Hy.
Qed.

Lemma countBelow_bounded (P : nat -> bool) (m n : nat) :
  (forall i, P i = true -> (i < n)%nat) ->
  (countBelow P 0 m <= countBelow P 0 n)%nat.
Proof.
  intros Hb. unfold countBelow.
  destruct (Nat.le_ge_cases m n) as [H | H].
  - replace n with (m + (n - m))%nat by lia.
    rewrite seq_app, List.filter_app, length_app. lia.
  - replace m with (n + (m - n))%nat at 1 by lia.
    rewrite seq_app, List.filter_app, length_app.
    rewrite (filter_none P (seq (0 + n) (m - n))); [cbn; lia |].
    intros i Hi. apply in_seq in Hi.
    destruct (P i) eqn:E; [| reflexivity].
    apply Hb in E. lia.
Qed.

Lemma keycapLabels_length (p : Props) (a : Assets) (f : Font) :
  font a = Some f ->
  (length (keycapLabels p a)
   <= length (omap id (imap (labelFor p a f) (keycapLetters p))))%nat.
Proof.
  intros Hf. unfold keycapLabels. rewrite Hf.
  destruct (keycapLetters p) as [| l0 ls]; [cbn; lia |].
  destruct (keycapPositions p) as [| p0 ps] eqn:Ep; [cbn; lia |].
  apply Nat.eq_le_incl. f_equal. f_equal. apply imap_ext.
  intros i letter _. unfold labelFor. rewrite Ep. reflexivity.
Qed.

Lemma keycapSvgSlots_length (p : Props) (a : Assets) :
  (length (keycapSvgSlots p a)
   <= length (omap id (imap (slotFor p a) (keycapPositions p))))%nat.
Proof.
  unfold keycapSvgSlots.
  destruct (keycapSvgUrls p) as [| u0 us] eqn:Eu; [cbn; lia |].
  destruct (keycapPositions p) as [| p0 ps]; [cbn; lia |].
  apply Nat.eq_le_incl. f_equal. f_equal. apply imap_ext.
  intros i [[x y] z] _. unfold slotFor. rewrite Eu. reflexivity.
Qed.

(** X14. The display never shows more legends than keys: the letter
    labels and the icon slots together are at most as many as the
    keycap positions, since a key with an icon URL gets no label and a
    key without one gets no slot. *)
Theorem one_legend_per_key_on_display (p : Props) (a : Assets) :
  (length (keycapLabels p a) + length (keycapSvgSlots p a)
   <= length (keycapPositions p))%nat.
Proof.
  destruct (font a) as [f |] eqn:Hf.
  2:{ unfold keycapLabels at 1. rewrite Hf. cbn [length].
      pose proof (keycapSvgSlots_length p a) as HS.
      rewrite (omap_imap_length (fun i => slotFor p a i) _ 0) in HS.
      pose proof (countBelow_disjoint (fun _ => false)
                    (fun i => match keycapPositions p !! (i - 0)%nat with
                              | Some x => bool_decide (is_Some (slotFor p a i x))
                              | None => false
                              end) 0 (length (keycapPositions p))
                    ltac:(intros; discriminate)) as HC.
      lia. }
  pose proof (keycapLabels_length p a f Hf) as HL.
  pose proof (keycapSvgSlots_length p a) as HS.
  rewrite (omap_imap_length (fun i => labelFor p a f i) _ 0) in HL.
  rewrite (omap_imap_length (fun i => slotFor p a i) _ 0) in HS.
  set (P := fun i => match keycapLetters p !! (i - 0)%nat with
                     | Some x => bool_decide (is_Some (labelFor p a f i x))
                     | None => false
                     end) in HL.
  set (Q := fun i => match keycapPositions p !! (i - 0)%nat with
                     | Some x => bool_decide (is_Some (slotFor p a i x))
                     | None => false
                     end) in HS.
  assert (HP : forall i, P i = true -> (i < length (keycapPositions p))%nat).
  { intros i. unfold P, labelFor. rewrite Nat.sub_0_r.
    destruct (keycapLetters p !! i) as [letter |]; [| discriminate].
    destruct (has_url (keycapSvgUrls p) i);
      [rewrite bool_decide_eq_false_2 by (intros [? ?]; discriminate);
       discriminate |].
    destruct (keycapPositions p !! i) as [[[x y] z] |] eqn:E;
      [| rewrite bool_decide_eq_false_2 by (intros [? ?]; discriminate);
         discriminate].
    intros _. apply lookup_lt_is_Some. eexists. exact E. }
  assert (HD : forall i, P i = true -> Q i = true -> False).
  { intros i. unfold P, Q, labelFor, slotFor, has_url. rewrite Nat.sub_0_r.
    destruct (keycapLetters p !! i) as [letter |]; [| discriminate].
    destruct (keycapPositions p !! i) as [[[x y] z] |]; [| discriminate].
    destruct (mjoin (keycapSvgUrls p !! i)) as [url |].
    - destruct url as [| c url].
      + intros _. cbn.
        try rewrite bool_decide_eq_false_2 by (intros [? ?]; discriminate).
        discriminate.
      + cbn [Js.truthy].
        rewrite bool_decide_eq_false_2 by (intros [? ?]; discriminate).
        discriminate.
    - intros _.
      rewrite bool_decide_eq_false_2 by (intros [? ?]; discriminate).
      discriminate. }
  pose proof (countBelow_bounded P (length (keycapLetters p))
                (length (keycapPositions p)) HP) as HB.
  pose proof (countBelow_disjoint P Q 0 (length (keycapPositions p)) HD) as HC.
  lia.
Qed.

Lemma getDefaultPositions_row (n : Z) :
  getDefaultPositions n
  = default [] (at_index KEYCAP_POSITIONS (Num.clampKeys n - 1)) /\
  Forall (fun v => vy v = 0) (getDefaultPositions n).
Proof.
  assert (H : getDefaultPositions n
              = default [] (at_index KEYCAP_POSITIONS (Num.clampKeys n - 1))).
  { unfold getDefaultPositions.
    erewrite map_ext; [apply map_id |]. intros [[x y] z]. reflexivity. }
  split; [exact H |]. rewrite H.
  destruct (clampKeys_cases n) as [E | [E | [E | [E | [E | [E | E]]]]]];
    cbv zeta in E; rewrite E; cbn; repeat constructor.
Qed.

(** X4. The fallback of the scene is the default of the caller:
    without a position override the scene places the keys at
    [getDefaultPositions(numberOfKeys)], so handing these positions over
    explicitly changes no keycap and no border placement; there are as
    many keycaps as the clamped key count, each with a zero vertical
    offset from the body top. *)
Theorem explicit_defaults_equal_fallback (p : Props) (a : Assets) :
  keycapPositionsProp p = None ->
  let p' := {| showBorder := showBorder p;
               numberOfKeys := numberOfKeys p;
               keycapPositionsProp :=
                 Some (getDefaultPositions (numberOfKeys p));
               keycapLetters := keycapLetters p;
               keycapSvgUrls := keycapSvgUrls p;
               keycapSvgSizeMm := keycapSvgSizeMm p;
               textSizeMm := textSizeMm p |} in
  keycapPositions p = getDefaultPositions (numberOfKeys p) /\
  keycapPositions p' = keycapPositions p /\
  keycapMeshPositions p' a = keycapMeshPositions p a /\
  borderMeshPositions p' a = borderMeshPositions p a /\
  length (keycapMeshPositions p a) = Z.to_nat (Num.clampKeys (numberOfKeys p)) /\
  Forall (fun pos => vy pos == clickerTopY p a - kminZ (keycapOffset a))
         (keycapMeshPositions p a).
Proof.
  intros Hnone p'.
  destruct (getDefaultPositions_row (numberOfKeys p)) as [Hrow Hy].
  assert (H1 : keycapPositions p = getDefaultPositions (numberOfKeys p)).
  { unfold keycapPositions, keyIndex. rewrite Hnone, Hrow. reflexivity. }
  assert (H2 : keycapPositions p' = keycapPositions p).
  { rewrite H1. unfold keycapPositions, keyIndex.
    cbn [p' keycapPositionsProp numberOfKeys]. rewrite <- Hrow.
    destruct (getDefaultPositions (numberOfKeys p)); reflexivity. }
  assert (HT : clickerTopY p' a = clickerTopY p a) by reflexivity.
  split; [exact H1 |]. split; [exact H2 |].
  split; [| split; [| split]].
  - unfold keycapMeshPositions. rewrite H2, HT. reflexivity.
  - unfold borderMeshPositions. rewrite H2, HT. reflexivity.
  - rewrite keycapMeshPositions_length, keycapPositions_length, Hnone.
    reflexivity.
  - unfold keycapMeshPositions. rewrite H1.
    apply Forall_forall. intros pos Hin. apply list_elem_of_In in Hin.
    apply in_map_iff in Hin as ([[x y] z] & <- & Hv).
    apply list_elem_of_In in Hv.
    pose proof (proj1 (Forall_forall _ _) Hy _ Hv) as H0.
    cbn [vy fst snd] in H0 |- *. rewrite H0. ring.
Qed.

Lemma explicit_defaults_equal_fallback_witness :
  keycapPositionsProp threeKeysProps = None /\
  (let p' := {| showBorder := showBorder threeKeysProps;
               numberOfKeys := numberOfKeys threeKeysProps;
               keycapPositionsProp :=
                 Some (getDefaultPositions (numberOfKeys threeKeysProps));
               keycapLetters := keycapLetters threeKeysProps;
               keycapSvgUrls := keycapSvgUrls threeKeysProps;
               keycapSvgSizeMm := keycapSvgSizeMm threeKeysProps;
               textSizeMm := textSizeMm threeKeysProps |} in
  keycapPositions threeKeysProps = getDefaultPositions (numberOfKeys threeKeysProps) /\
  keycapPositions p' = keycapPositions threeKeysProps /\
  keycapMeshPositions p' demoAssets = keycapMeshPositions threeKeysProps demoAssets /\
  borderMeshPositions p' demoAssets = borderMeshPositions threeKeysProps demoAssets /\
  length (keycapMeshPositions threeKeysProps demoAssets) = Z.to_nat (Num.clampKeys (numberOfKeys threeKeysProps)) /\
  Forall (fun pos => vy pos == clickerTopY threeKeysProps demoAssets - kminZ (keycapOffset demoAssets))
         (keycapMeshPositions threeKeysProps demoAssets)).
Proof.
  split; [reflexivity |].
  apply (explicit_defaults_equal_fallback threeKeysProps demoAssets);
    [reflexivity].
Defined.

End LegendCount.

(** ** The batch export and the shape of a file *)

Section ExportBatch.
Import Three Layout Exporter Spec Examples Notions MoreExamples.

Lemma omap_seq_length {A : Type} (g : nat -> option A) (n s : nat) :
  (forall k, (s <= k < s + n)%nat -> is_Some (g k)) ->
  length (omap g (seq s n)) = n.
Proof.
  revert s. induction n as [| n IH]; intros s Hall; [reflexivity |].
  destruct (Hall s ltac:(lia)) as [x Hx].
  cbn [seq]. change (omap g (s :: seq (S s) n))
    with (match g s with
          | Some y => y :: omap g (seq (S s) n)
          | None => omap g (seq (S s) n)
          end).
  rewrite Hx. cbn [length]. f_equal. apply IH. intros k Hk. apply Hall. lia.
Qed.

Lemma exportOne_out_of_range (p : Props) (a : Assets) (kg : BufferGeometry)
    (i : nat) :
  (length (keycapPositions p) <= i)%nat -> exportOne p a kg i = None.
Proof.
  intros Hi. unfold exportOne.
  rewrite (proj2 (lookup_ge_None (keycapMeshPositions p a) i))
    by (rewrite keycapMeshPositions_length; exact Hi).
  reflexivity.
Qed.

(** X18. The batch export writes one file per keycap placement, and
    the file at place [j] is the one a single export of key [j] writes.
    An index past the placements writes no file, yet the call still
    reports completion; and while the keycap mesh has not loaded,
    nothing is written and nothing is reported. *)
Theorem export_one_file_per_placement (p : Props) (a : Assets) :
  (keycapGeometryStore a = None ->
   forall k, exportKeycapStl p a k = {| files := []; batchDone := false |}) /\
  (forall kg, keycapGeometryStore a = Some kg ->
     length (files (exportKeycapStl p a None)) = length (keycapPositions p) /\
     (forall k, batchDone (exportKeycapStl p a k) = true) /\
     (forall j, (j < length (keycapPositions p))%nat ->
        exists f, files (exportKeycapStl p a None) !! j = Some f /\
                  files (exportKeycapStl p a (Some j)) = [f]) /\
     (forall i, (length (keycapPositions p) <= i)%nat ->
        files (exportKeycapStl p a (Some i)) = [])).
Proof.
  split.
  - intros Hk k. unfold exportKeycapStl. rewrite Hk. reflexivity.
  - intros kg Hk. unfold exportKeycapStl. rewrite Hk. cbn [files batchDone].
    assert (Hall : forall k,
              (0 <= k < 0 + length (keycapMeshPositions p a))%nat ->
              is_Some (exportOne p a kg k)).
    { intros k Hk'. apply exportOne_is_Some.
      rewrite keycapMeshPositions_length in Hk'. lia. }
    split; [| split; [| split]].
    + rewrite omap_seq_length by exact Hall.
      apply keycapMeshPositions_length.
    + intros k. reflexivity.
    + intros j Hj. rewrite omap_seq_lookup by exact Hall.
      rewrite keycapMeshPositions_length.
      replace (j <? length (keycapPositions p))%nat with true
        by (symmetry; apply Nat.ltb_lt; exact Hj).
      cbn [Nat.add omap list_omap].
      destruct (exportOne_is_Some p a kg j Hj) as [f Hf].
      rewrite Hf. exists f. split; reflexivity.
    + intros i Hi. cbn [omap list_omap].
      rewrite (exportOne_out_of_range p a kg i Hi). reflexivity.
Qed.

Lemma legendPart_shape (p : Props) (a : Assets) (i : nat) (slot : Vector3) :
  legendPart p a i slot = [] \/
  exists pt, legendPart p a i slot = [pt] /\
    ((exists url, part_kind pt = IconPart url /\
                  svgGeometryByUrl a !! url = Some (part_geometry pt)) \/
     (exists c, part_kind pt = LetterPart c)).
Proof.
  unfold legendPart. destruct slot as [[x y] z].
  destruct (truthy (svgUrlAt p i)).
  - destruct (svgGeometryByUrl a !! default ""%string (svgUrlAt p i))
      as [geom |] eqn:Hc.
    + right. eexists. split; [reflexivity |]. left. eexists.
      split; [reflexivity | exact Hc].
    + destruct (font a); [| left; reflexivity].
      destruct (truthy (letterAt p i)); [| left; reflexivity].
      right. eexists. split; [reflexivity |]. right. eexists. reflexivity.
  - destruct (font a); [| left; reflexivity].
    destruct (truthy (letterAt p i)); [| left; reflexivity].
    right. eexists. split; [reflexivity |]. right. eexists. reflexivity.
Qed.

(** X19. The shape of an exported file: the keycap first, then the
    border exactly when the border is shown and its mesh has loaded,
    then at most one legend, which is an icon taken from the cache or a
    letter. *)
Theorem exported_file_parts (p : Props) (a : Assets) (kg : BufferGeometry)
    (i : nat) (f : StlFile) :
  exportOne p a kg i = Some f ->
  exists kpt border legend,
    file_parts f = kpt :: border ++ legend /\
    part_kind kpt = KeycapPart /\ part_geometry kpt = kg /\
    match showBorder p, borderGeometryStore a with
    | true, Some bg =>
        exists b, border = [b] /\ part_kind b = BorderPart /\
                  part_geometry b = bg
    | _, _ => border = []
    end /\
    (legend = [] \/
     exists pt, legend = [pt] /\
       ((exists url, part_kind pt = IconPart url /\
                     svgGeometryByUrl a !! url = Some (part_geometry pt)) \/
        (exists c, part_kind pt = LetterPart c))).
Proof.
  intros He. unfold exportOne in He.
  destruct (keycapMeshPositions p a !! i) as [pos |] eqn:Hpos; [| discriminate].
  destruct (keycapPositions p !! i) as [slot |] eqn:Hslot; [| discriminate].
  injection He as Hf. subst f. cbn [file_parts].
  eexists. eexists. exists (legendPart p a i slot).
  split; [reflexivity |]. split; [reflexivity |]. split; [reflexivity |].
  split; [| apply legendPart_shape].
  destruct (showBorder p); [| reflexivity].
  destruct (borderGeometryStore a) as [bg |]; [| reflexivity].
  assert (Hb : is_Some (borderMeshPositions p a !! i)).
  { apply lookup_lt_is_Some. unfold borderMeshPositions.
    rewrite length_map. apply lookup_lt_is_Some. eexists. exact Hslot. }
  destruct Hb as [bpos Hb]. rewrite Hb.
  eexists. split; [reflexivity |]. split; reflexivity.
Qed.

Lemma exported_file_parts_witness :
  exists f,
    exportOne demoProps demoAssets demoKeycap 0 = Some f /\
    exists kpt border legend,
      file_parts f = kpt :: border ++ legend /\
      part_kind kpt = KeycapPart /\ part_geometry kpt = demoKeycap /\
      match showBorder demoProps, borderGeometryStore demoAssets with
      | true, Some bg =>
          exists b, border = [b] /\ part_kind b = BorderPart /\
                    part_geometry b = bg
      | _, _ => border = []
      end /\
      (legend = [] \/
       exists pt, legend = [pt] /\
         ((exists url, part_kind pt = IconPart url /\
                       svgGeometryByUrl demoAssets !! url
                       = Some (part_geometry pt)) \/
          (exists c, part_kind pt = LetterPart c))).
Proof.
  eexists. split; [reflexivity |].
  apply (exported_file_parts demoProps demoAssets demoKeycap 0). reflexivity.
Defined.

End ExportBatch.

(** ** The framing box and the live renderer *)

Section FramingBox.
Import Three Layout Snapshot Spec Examples Notions MoreExamples.

Lemma encloses_refl (b : Box) : encloses b b.
Proof. unfold encloses. repeat split; apply Qle_refl. Qed.

Lemma encloses_trans (a b c : Box) : encloses a b -> encloses b c -> encloses a c.
Proof.
  unfold encloses. intros (A1 & A2 & A3 & A4 & A5 & A6) (B1 & B2 & B3 & B4 & B5 & B6).
  repeat split; lra.
Qed.

Lemma unionBox_encloses (a b : Box) :
  encloses (unionBox a b) a /\ encloses (unionBox a b) b.
Proof.
  unfold encloses, unionBox; cbn [bmin bmax vx vy vz fst snd].
  repeat split;
    first [apply Q.le_min_l | apply Q.le_min_r | apply Q.le_max_l | apply Q.le_max_r].
Qed.

Lemma unionBox_proper (a b : Box) : proper a -> proper b -> proper (unionBox a b).
Proof.
  unfold proper, unionBox; cbn [bmin bmax vx vy vz fst snd].
  intros (A1 & A2 & A3) (B1 & B2 & B3).
  repeat split.
  - eapply Qle_trans; [apply Q.le_min_l |]. eapply Qle_trans; [exact A1 |].
    apply Q.le_max_l.
  - eapply Qle_trans; [apply Q.le_min_l |]. eapply Qle_trans; [exact A2 |].
    apply Q.le_max_l.
  - eapply Qle_trans; [apply Q.le_min_l |]. eapply Qle_trans; [exact A3 |].
    apply Q.le_max_l.
Qed.

Lemma boundingBox_proper (g : BufferGeometry) : proper (boundingBox g).
Proof.
  unfold proper, boundingBox; cbn [bmin bmax vx vy vz fst snd].
  repeat split; apply minOf_le_maxOf.
Qed.

Lemma worldBox_proper (m : Mesh) : proper (worldBox m).
Proof. unfold worldBox, applyMatrix4. apply boundingBox_proper. Qed.

(** The union of a list of boxes, starting from a box or from nothing. *)
Lemma fold_union_encloses (bs : list Box) (acc : Box3) :
  match fold_left union (map Some bs) acc with
  | Some r =>
      (forall b, In b bs -> encloses r b) /\
      (forall a, acc = Some a -> encloses r a) /\
      ((forall b, In b bs -> proper b) ->
       (forall a, acc = Some a -> proper a) -> proper r)
  | None => bs = [] /\ acc = None
  end.
Proof.
  revert acc. induction bs as [| b bs IH]; intros acc.
  - cbn. destruct acc as [a |]; [| split; reflexivity].
    split; [intros b [] |]. split.
    + intros a' [= <-]. apply encloses_refl.
    + intros _ H. apply H. reflexivity.
  - cbn [map fold_left]. specialize (IH (union acc (Some b))).
    destruct (fold_left union (map Some bs) (union acc (Some b))) as [r |].
    + destruct IH as (Hin & Hacc & Hprop). split; [| split].
      * intros b' [<- | Hb']; [| apply Hin; exact Hb'].
        destruct acc as [a |]; cbn [union] in Hacc.
        -- eapply encloses_trans; [apply Hacc; reflexivity |].
           apply unionBox_encloses.
        -- apply Hacc. reflexivity.
      * intros a ->. cbn [union] in Hacc.
        eapply encloses_trans; [apply Hacc; reflexivity |].
        apply unionBox_encloses.
      * intros Hbs Ha. apply Hprop.
        -- intros b' Hb'. apply Hbs. right. exact Hb'.
        -- intros u Hu. destruct acc as [a |]; cbn [union] in Hu.
           ++ injection Hu as <-. apply unionBox_proper.
              ** apply Ha. reflexivity.
              ** apply Hbs. left. reflexivity.
           ++ injection Hu as <-. apply Hbs. left. reflexivity.
    + destruct IH as (_ & Hacc). destruct acc; discriminate.
Qed.

Lemma max3_upper (a b c : Q) :
  a <= Num.max3 a b c /\ b <= Num.max3 a b c /\ c <= Num.max3 a b c.
Proof.
  unfold Num.max3. repeat split.
  - eapply Qle_trans; [apply Q.le_max_l |]. apply Q.le_max_l.
  - eapply Qle_trans; [apply Q.le_max_r |]. apply Q.le_max_l.
  - apply Q.le_max_r.
Qed.

Lemma or_default_ge (x d : Q) : 0 <= d -> x <= Num.or_default x d.
Proof.
  intros Hd. unfold Num.or_default.
  destruct (Qeq_bool x 0) eqn:E; [| apply Qle_refl].
  apply Qeq_bool_iff in E. rewrite E. exact Hd.
Qed.

Lemma or_default_pos (x d : Q) : 0 <= x -> 0 < d -> 0 < Num.or_default x d.
Proof.
  intros Hx Hd. unfold Num.or_default.
  destruct (Qeq_bool x 0) eqn:E; [exact Hd |].
  apply Qeq_bool_neq in E. destruct (Qle_lt_or_eq _ _ Hx) as [H | H];
    [exact H | exfalso; apply E; symmetry; exact H].
Qed.

Lemma framingUnion_proper (sc : Scene) (b : Box) :
  framingUnion sc = Some b -> proper b.
Proof.
  unfold framingUnion. rewrite <- (map_map worldBox Some).
  pose proof (fold_union_encloses (map worldBox (framedMeshes sc)) None) as H.
  intros E. rewrite E in H. destruct H as (_ & _ & Hp). apply Hp.
  - intros b' Hb'. apply in_map_iff in Hb' as (m & <- & _).
    apply worldBox_proper.
  - intros a [=].
Qed.

(** X15. The model box of [getModelBox] contains the world box of
    every mesh that takes part in the framing; its centre and size are
    those of the union, and the framing dimension is at least each of
    the three sizes. *)
Theorem getModelBox_encloses_framed (sc : Scene) (m : Mesh) :
  m ∈ framedMeshes sc ->
  exists b,
    framingUnion sc = Some b /\
    encloses b (worldBox m) /\
    center (getModelBox sc) = centerOf b /\
    size (getModelBox sc) = sizeOf b /\
    vx (sizeOf b) <= maxDim (getModelBox sc) /\
    vy (sizeOf b) <= maxDim (getModelBox sc) /\
    vz (sizeOf b) <= maxDim (getModelBox sc).
Proof.
  intros Hm. apply list_elem_of_In in Hm.
  destruct (getModelBox_framing sc) as (Hc & Hs & _).
  pose proof (fold_union_encloses (map worldBox (framedMeshes sc)) None) as H.
  rewrite map_map in H. fold (framingUnion sc) in H.
  destruct (framingUnion sc) as [b |] eqn:E.
  - destruct H as (Hin & _ & _). exists b. split; [reflexivity |].
    split; [apply Hin, in_map, Hm |].
    rewrite Hc, Hs. cbn [getCenter getSize].
    split; [reflexivity |]. split; [reflexivity |].
    unfold getModelBox. cbn [maxDim].
    rewrite fold_visit_filter.
    change (fold_left union
              (map (fun m0 => Some (worldBox m0))
                   (List.filter
                      (fun m0 => negb (Num.gtb (meshDim m0) MAX_MESH_SIZE))
                      (meshes sc))) None)
      with (framingUnion sc).
    rewrite E. cbn [getSize].
    set (M3 := Num.max3 _ _ _).
    destruct (max3_upper (vx (sizeOf b)) (vy (sizeOf b)) (vz (sizeOf b)))
      as (H1 & H2 & H3).
    pose proof (or_default_ge M3 80 ltac:(lra)) as Hge.
    repeat split; eapply Qle_trans; try eassumption.
  - destruct H as (Hnil & _). apply map_eq_nil in Hnil.
    rewrite Hnil in Hm. destruct Hm.
Qed.

Lemma getModelBox_encloses_framed_witness :
  demoKeycapMesh ∈ framedMeshes keycapScene /\
  (exists b,
    framingUnion keycapScene = Some b /\
    encloses b (worldBox demoKeycapMesh) /\
    center (getModelBox keycapScene) = centerOf b /\
    size (getModelBox keycapScene) = sizeOf b /\
    vx (sizeOf b) <= maxDim (getModelBox keycapScene) /\
    vy (sizeOf b) <= maxDim (getModelBox keycapScene) /\
    vz (sizeOf b) <= maxDim (getModelBox keycapScene)).
Proof.
  split; [apply list_elem_of_In; left; reflexivity |].
  apply (getModelBox_encloses_framed keycapScene demoKeycapMesh);
    [apply list_elem_of_In; left; reflexivity].
Defined.

Lemma distanceToFit_pos (M : MathLib) (d fov margin : Q) :
  0 < d -> 0 < margin -> 0 < tan M ((fov / 2) * (PI M / 180)) ->
  0 < distanceToFit M d fov margin.
Proof.
  intros Hd Hm Ht. unfold distanceToFit.
  apply Qmult_lt_0_compat; [| exact Hm].
  apply Qlt_shift_div_l; [exact Ht |]. rewrite Qmult_0_l.
  apply Qlt_shift_div_l; lra.
Qed.

(** X16. The framing dimension is positive for every scene, and so is
    the camera distance when the tangent of half the field of view is:
    the snapshot cameras never sit on the point they look at. *)
Theorem framing_distance_positive (M : MathLib) (sc : Scene) :
  0 < tan M ((FOV_DEG / 2) * (PI M / 180)) ->
  0 < maxDim (getModelBox sc) /\
  0 < distanceToFit M (maxDim (getModelBox sc)) FOV_DEG 1.4.
Proof.
  intros Ht.
  assert (Hpos : 0 < maxDim (getModelBox sc)).
  { destruct (getModelBox_framing sc) as (_ & _ & ->).
    change (0 < Num.or_default (framingDimension sc) 80).
    apply or_default_pos; [| lra].
    unfold framingDimension.
    destruct (framingUnion sc) as [b |] eqn:E; cbn [getSize].
    - destruct (framingUnion_proper sc b E) as (H1 & _ & _).
      destruct (max3_upper (vx (sizeOf b)) (vy (sizeOf b)) (vz (sizeOf b)))
        as (U1 & _ & _).
      eapply Qle_trans; [| exact U1].
      change (0 <= vx (bmax b) - vx (bmin b)). lra.
    - unfold Num.max3; cbn. apply Qle_refl. }
  split; [exact Hpos |].
  apply distanceToFit_pos; [exact Hpos | lra | exact Ht].
Qed.

Lemma framing_distance_positive_witness :
  0 < tan seriesMath ((FOV_DEG / 2) * (PI seriesMath / 180)) /\
  0 < maxDim (getModelBox gridOnlyScene) /\
  0 < distanceToFit seriesMath (maxDim (getModelBox gridOnlyScene)) FOV_DEG 1.4.
Proof.
  split; [vm_compute; reflexivity |].
  apply (framing_distance_positive seriesMath gridOnlyScene).
  vm_compute; reflexivity.
Defined.

Lemma captureView_bookkeeping (r : WebGLRenderer) (scene : Scene)
    (position target : Vector3) :
  Forall (fun e => (fst e < nextTarget r)%nat) (offscreen r) ->
  offscreen (snd (captureView r scene position target)) = offscreen r /\
  nextTarget (snd (captureView r scene position target)) = S (nextTarget r).
Proof.
  intros Hids. split; [| reflexivity].
  unfold captureView; cbn. rewrite !Nat.eqb_refl. cbn.
  induction (offscreen r) as [| e l IH]; [reflexivity |].
  inversion Hids as [| e' l' He Hl]; subst.
  cbn [List.filter].
  replace (fst e =? nextTarget r)%nat with false
    by (symmetry; apply Nat.eqb_neq; lia).
  cbn [negb]. f_equal. apply IH, Hl.
Qed.

(** X17. A snapshot leaves the live renderer as it found it: after
    [takeSnapshot], with or without a 2D canvas, the clear colour, the
    clear alpha, the canvas contents and the offscreen targets are those
    before the call, the canvas is the active target, and the scene and
    the live camera are untouched. *)
Theorem takeSnapshot_leaves_renderer (M : MathLib) (w : World)
    (r : WebGLRenderer) (sc : Scene) (cam : Camera) :
  renderer (threlte w) = Some r -> scene (threlte w) = Some sc ->
  camera (threlte w) = Some cam ->
  Forall (fun e => (fst e < nextTarget r)%nat) (offscreen r) ->
  exists r',
    renderer (threlte (snd (takeSnapshot M w))) = Some r' /\
    clearColor r' = clearColor r /\
    clearAlpha r' = clearAlpha r /\
    renderTarget r' = None /\
    canvasPixels r' = canvasPixels r /\
    offscreen r' = offscreen r /\
    scene (threlte (snd (takeSnapshot M w))) = Some sc /\
    camera (threlte (snd (takeSnapshot M w))) = Some cam.
Proof.
  intros Hr Hs Hc Hids. unfold takeSnapshot. rewrite Hr, Hs, Hc.
  set (box := getModelBox sc).
  set (dist := distanceToFit M (maxDim box) FOV_DEG 1.4).
  set (p1 := (vx (center box), vy (center box), vz (center box) + dist)).
  set (p2 := (vx (center box), vy (center box) + dist, vz (center box))).
  set (tg := (vx (center box), vy (center box), vz (center box))).
  destruct (captureView r sc p1 tg) as [px1 r1] eqn:E1.
  destruct (captureView r1 sc p2 tg) as [px2 r2] eqn:E2.
  exists r2.
  pose proof (captureView_state r sc p1 tg) as S1.
  pose proof (captureView_bookkeeping r sc p1 tg Hids) as B1.
  rewrite E1 in S1, B1. cbn [snd] in S1, B1.
  destruct S1 as (C1 & A1 & T1 & P1). destruct B1 as (O1 & N1).
  assert (Hids1 : Forall (fun e => (fst e < nextTarget r1)%nat) (offscreen r1)).
  { rewrite O1, N1. eapply Forall_impl; [exact Hids |].
    intros e He. cbn in He |- *. lia. }
  pose proof (captureView_state r1 sc p2 tg) as S2.
  pose proof (captureView_bookkeeping r1 sc p2 tg Hids1) as B2.
  rewrite E2 in S2, B2. cbn [snd] in S2, B2.
  destruct S2 as (C2 & A2 & T2 & P2). destruct B2 as (O2 & N2).
  assert (Hall : clearColor r2 = clearColor r /\ clearAlpha r2 = clearAlpha r /\
                 renderTarget r2 = None /\ canvasPixels r2 = canvasPixels r /\
                 offscreen r2 = offscreen r).
  { repeat split; congruence. }
  destruct (canvas2d (browser w)); cbn [snd threlte renderer scene camera];
    (split; [reflexivity |]); destruct Hall as (? & ? & ? & ? & ?);
    repeat split; assumption.
Qed.

Lemma takeSnapshot_leaves_renderer_witness :
  renderer (threlte noMeshWorld) = Some idleRenderer /\
  scene (threlte noMeshWorld) = Some gridOnlyScene /\
  camera (threlte noMeshWorld) = Some liveCamera /\
  Forall (fun e => (fst e < nextTarget idleRenderer)%nat) (offscreen idleRenderer) /\
  (exists r',
    renderer (threlte (snd (takeSnapshot seriesMath noMeshWorld))) = Some r' /\
    clearColor r' = clearColor idleRenderer /\
    clearAlpha r' = clearAlpha idleRenderer /\
    renderTarget r' = None /\
    canvasPixels r' = canvasPixels idleRenderer /\
    offscreen r' = offscreen idleRenderer /\
    scene (threlte (snd (takeSnapshot seriesMath noMeshWorld))) = Some gridOnlyScene /\
    camera (threlte (snd (takeSnapshot seriesMath noMeshWorld))) = Some liveCamera).
Proof.
  split; [reflexivity |].
  split; [reflexivity |].
  split; [reflexivity |].
  split; [constructor |].
  apply (takeSnapshot_leaves_renderer seriesMath noMeshWorld idleRenderer gridOnlyScene liveCamera);
    [reflexivity | reflexivity | reflexivity | constructor].
Defined.

End FramingBox.

(** ** The icon cache *)

Section IconEffect.
Import Three Layout Legend IconCache Spec Examples MoreExamples.

Lemma uniq_acc (l seen : list string) :
  NoDup seen ->
  let r := fold_left (fun seen x => if bool_decide (x ∈ seen) then seen
                                    else seen ++ [x]) l seen in
  NoDup r /\ (forall x, x ∈ r <-> x ∈ seen \/ x ∈ l).
Proof.
  revert seen. induction l as [| y l IH]; intros seen Hnd; cbn zeta.
  - cbn. split; [exact Hnd |]. intros x. split; [auto |].
    intros [H | H]; [exact H | inversion H].
  - cbn [fold_left]. destruct (bool_decide (y ∈ seen)) eqn:E.
    + apply bool_decide_eq_true in E.
      destruct (IH seen Hnd) as [H1 H2]. split; [exact H1 |].
      intros x. rewrite H2. split.
      * intros [H | H]; [left; exact H | right; right; exact H].
      * intros [H | H]; [left; exact H |].
        apply elem_of_cons in H as [-> | H]; [left; exact E | right; exact H].
    + apply bool_decide_eq_false in E.
      assert (Hnd' : NoDup (seen ++ [y])).
      { apply NoDup_app. split; [exact Hnd |]. split.
        - intros x Hx Hy. apply list_elem_of_singleton in Hy. subst x.
          contradiction.
        - apply NoDup_singleton. }
      destruct (IH (seen ++ [y]) Hnd') as [H1 H2]. split; [exact H1 |].
      intros x. rewrite H2, elem_of_app, list_elem_of_singleton, elem_of_cons.
      tauto.
Qed.

Lemma uniq_spec (l : list string) :
  NoDup (uniq l) /\ forall x, x ∈ uniq l <-> x ∈ l.
Proof.
  destruct (uniq_acc l [] (NoDup_nil_2)) as [H1 H2]. split; [exact H1 |].
  intros x. unfold uniq. rewrite H2. split; [| auto].
  intros [H | H]; [inversion H | exact H].
Qed.

Lemma truthyUrls_spec (urls : list (option string)) (url : string) :
  url ∈ truthyUrls urls <-> Some url ∈ urls /\ Js.truthy url = true.
Proof.
  unfold truthyUrls. rewrite list_elem_of_omap. split.
  - intros (u & Hu & Hm). destruct u as [s |]; [| discriminate].
    destruct (Js.truthy s) eqn:E; [| discriminate].
    injection Hm as ->. split; assumption.
  - intros [Hu Ht]. exists (Some url). split; [exact Hu |].
    rewrite Ht. reflexivity.
Qed.

Lemma effect_fetches_spec (urls : list (option string))
    (current : gmap string BufferGeometry) :
  NoDup (effectFetches urls current) /\
  (forall url,
     url ∈ effectFetches urls current <->
     Some url ∈ urls /\ Js.truthy url = true /\ current !! url = None) /\
  ((forall url, Some url ∈ urls -> Js.truthy url = true ->
                is_Some (current !! url)) ->
   effectFetches urls current = []).
Proof.
  assert (Hmem : forall url,
            url ∈ effectFetches urls current <->
            Some url ∈ urls /\ Js.truthy url = true /\ current !! url = None).
  { intros url. unfold effectFetches.
    rewrite list_elem_of_In, filter_In, <- list_elem_of_In.
    rewrite (proj2 (uniq_spec _)), truthyUrls_spec, negb_true_iff,
      bool_decide_eq_false, <- eq_None_not_Some.
    tauto. }
  split; [| split; [exact Hmem |]].
  - unfold effectFetches. apply NoDup_ListNoDup, List.NoDup_filter,
      NoDup_ListNoDup, uniq_spec.
  - intros Hall.
    destruct (effectFetches urls current) as [| u l] eqn:E; [reflexivity |].
    assert (Hu : u ∈ u :: l) by apply list_elem_of_here.
    apply Hmem in Hu as (Hin & Ht & Hn).
    destruct (Hall u Hin Ht) as [g Hg]. congruence.
Qed.

(** What holds of the loader whatever has happened since the scene was
    mounted with the cache [cache0]. *)
Lemma loader_invariant (urls : list (option string))
    (resp : string -> option (list Outline))
    (cache0 : gmap string BufferGeometry) (events : list Event) :
  let s := run urls resp events (mount urls cache0) in
  (forall url g, cache0 !! url = Some g -> cached s !! url = Some g) /\
  (forall url,
     cache0 !! url = None ->
     cached s !! url = None
     \/ (url ∈ truthyUrls urls /\ cached s !! url = resp url ≫= synthesize)) /\
  (forall url,
     url ∈ inFlight s -> url ∈ truthyUrls urls /\ cache0 !! url = None) /\
  (forall url,
     url ∈ truthyUrls urls ->
     is_Some (cached s !! url) \/ url ∈ inFlight s
     \/ resp url ≫= synthesize = None).
Proof.
  cbv zeta. unfold run.
  assert (Hmount : forall url,
            url ∈ effectFetches urls cache0 <->
            url ∈ truthyUrls urls /\ cache0 !! url = None).
  { intros url.
    rewrite (proj1 (proj2 (effect_fetches_spec urls cache0)) url),
      truthyUrls_spec. tauto. }
  set (Inv := fun s : Loader =>
    (forall url g, cache0 !! url = Some g -> cached s !! url = Some g) /\
    (forall url,
       cache0 !! url = None ->
       cached s !! url = None
       \/ (url ∈ truthyUrls urls /\
           cached s !! url = resp url ≫= synthesize)) /\
    (forall url,
       url ∈ inFlight s -> url ∈ truthyUrls urls /\ cache0 !! url = None) /\
    (forall url,
       url ∈ truthyUrls urls ->
       is_Some (cached s !! url) \/ url ∈ inFlight s
       \/ resp url ≫= synthesize = None)).
  assert (H0 : Inv (mount urls cache0)).
  { unfold Inv, mount, runEffect. cbn [cached inFlight app].
    split; [intros url g H; exact H |].
    split; [intros url H; left; exact H |].
    split; [intros url H; apply Hmount; exact H |].
    intros url Hu. destruct (cache0 !! url) as [g |] eqn:E.
    - left. eexists. reflexivity.
    - right. left. apply Hmount. split; assumption. }
  assert (Hstep : forall s e, Inv s -> Inv (step urls resp s e)).
  { intros s e (I1 & I2 & I3 & I4). destruct e as [| k]; cbn [step].
    - unfold Inv, runEffect. cbn [cached inFlight].
      split; [exact I1 |]. split; [exact I2 |]. split.
      + intros url Hin. apply elem_of_app in Hin as [Hin | Hin];
          [exact (I3 url Hin) |].
        apply (proj1 (proj2 (effect_fetches_spec urls (cached s)))) in Hin.
        destruct Hin as (Hu & Ht & Hn).
        split; [apply truthyUrls_spec; split; assumption |].
        destruct (cache0 !! url) as [g |] eqn:E; [| reflexivity].
        rewrite (I1 url g E) in Hn. discriminate.
      + intros url Hu. destruct (I4 url Hu) as [H | [H | H]];
          [left; exact H | right; left; apply elem_of_app; left; exact H
          | right; right; exact H].
    - destruct (inFlight s !! k) as [u |] eqn:Hk;
        [| exact (conj I1 (conj I2 (conj I3 I4)))].
      assert (Hu : u ∈ inFlight s) by (apply list_elem_of_lookup; eauto).
      destruct (I3 u Hu) as [Hut Hu0].
      unfold Inv. cbn [cached inFlight]. unfold fetchDone.
      split; [| split; [| split]].
      + intros url g H0'. destruct (resp u ≫= synthesize); [| exact (I1 url g H0')].
        rewrite lookup_insert_ne by congruence. exact (I1 url g H0').
      + intros url H0'. destruct (resp u ≫= synthesize) as [m |] eqn:E;
          [| exact (I2 url H0')].
        destruct (decide (u = url)) as [-> | Hne].
        * right. split; [exact Hut |].
          rewrite lookup_insert_eq. symmetry. exact E.
        * rewrite lookup_insert_ne by exact Hne. exact (I2 url H0').
      + intros url Hin. apply I3.
        exact (elem_of_sublist _ _ _ Hin (sublist_delete _ _)).
      + intros url Hurl. destruct (decide (u = url)) as [-> | Hne].
        * destruct (resp url ≫= synthesize) as [m |] eqn:E;
            [left; rewrite lookup_insert_eq; eexists; reflexivity
            | right; right; reflexivity].
        * destruct (I4 url Hurl) as [H | [H | H]].
          -- left. destruct (resp u ≫= synthesize); [| exact H].
             rewrite lookup_insert_ne by exact Hne. exact H.
          -- right. left.
             apply list_elem_of_lookup in H as [j Hj].
             destruct (decide (j < k)%nat) as [Hlt | Hge].
             ++ apply list_elem_of_lookup. exists j.
                rewrite list_lookup_delete_lt by exact Hlt. exact Hj.
             ++ assert (Hjk : j <> k) by (intros ->; congruence).
                apply list_elem_of_lookup. exists (Nat.pred j).
                rewrite list_lookup_delete_ge by lia.
                replace (S (Nat.pred j)) with j by lia. exact Hj.
          -- right. right. exact H. }
  generalize (mount urls cache0) H0. clear H0.
  induction events as [| e events IH]; intros s Hs; [exact Hs |].
  cbn [fold_left]. apply IH, Hstep, Hs.
Qed.

(** A run of the effect while a fetch is pending starts a second fetch
    for the same URL: with nothing cached, the first run fetches the
    heart and the star; once the heart's geometry is assigned, the next
    run fetches the star again, so that the star is in flight twice. *)
Lemma rerun_fetches_in_flight_again :
  let first := mount heartStarHeart ∅ in
  inFlight first = ["/assets/heart.svg"; "/assets/star.svg"]%string /\
  inFlight (run heartStarHeart (fun _ => Some [squareOutline]) [Done 0; Rerun]
              first)
  = ["/assets/star.svg"; "/assets/star.svg"]%string.
Proof. split; vm_compute; reflexivity. Qed.

(** X21. The icon cache settles on the right geometries whatever the
    order in which the fetches complete and whenever the effect runs
    again in between. As long as the icon URLs stay the same: an entry
    the cache held when the scene was mounted is never replaced; any other
    entry is what the URL's response synthesizes to; every fetch in
    flight is for a non-empty URL assigned to some key; and once no fetch
    is in flight, every assigned URL that was not cached at the start
    holds exactly what its response synthesizes to, which is nothing for
    a failed fetch and for an SVG without shapes. *)
Theorem icon_cache_settles (urls : list (option string))
    (resp : string -> option (list Outline))
    (cache0 : gmap string BufferGeometry) (events : list Event) :
  inFlight (run urls resp events (mount urls cache0)) = [] ->
  let s := run urls resp events (mount urls cache0) in
  (forall url g, cache0 !! url = Some g -> cached s !! url = Some g) /\
  (forall url,
     Some url ∈ urls -> Js.truthy url = true -> cache0 !! url = None ->
     cached s !! url = resp url ≫= synthesize) /\
  (forall url,
     cache0 !! url = None -> (Some url ∉ urls \/ Js.truthy url = false) ->
     cached s !! url = None).
Proof.
  intros Hquiet s.
  destruct (loader_invariant urls resp cache0 events) as (I1 & I2 & I3 & I4).
  fold s in I1, I2, I3, I4, Hquiet.
  split; [exact I1 |]. split.
  - intros url Hu Ht H0.
    assert (Hin : url ∈ truthyUrls urls)
      by (apply truthyUrls_spec; split; assumption).
    destruct (I2 url H0) as [Hn | [_ Hs]]; [| exact Hs].
    destruct (I4 url Hin) as [[g Hg] | [Hf | Hr]].
    + congruence.
    + rewrite Hquiet in Hf. inversion Hf.
    + rewrite Hn, Hr. reflexivity.
  - intros url H0 Hnot.
    destruct (I2 url H0) as [Hn | [Hin _]]; [exact Hn |].
    apply truthyUrls_spec in Hin as [Hu Ht].
    destruct Hnot as [Hnot | Hnot]; [contradiction | congruence].
Qed.

(** The star's fetch completes first and gives nothing, the heart's
    second; the effect runs again and fetches the star once more, with
    the same result. Then nothing is in flight: the heart is cached and
    the star is not. *)
Lemma icon_cache_settles_witness :
  inFlight (run heartStarHeart heartOnly starFirst (mount heartStarHeart ∅))
  = [] /\
  let s := run heartStarHeart heartOnly starFirst (mount heartStarHeart ∅) in
  cached s !! "/assets/heart.svg"%string = synthesize [squareOutline] /\
  cached s !! "/assets/star.svg"%string = None /\
  is_Some (synthesize [squareOutline]).
Proof.
  assert (Hq : inFlight (run heartStarHeart heartOnly starFirst
                           (mount heartStarHeart ∅)) = [])
    by (vm_compute; reflexivity).
  split; [exact Hq |].
  destruct (icon_cache_settles heartStarHeart heartOnly ∅ starFirst Hq)
    as (_ & Hfetched & _).
  cbv zeta. split; [| split].
  - apply (Hfetched "/assets/heart.svg"%string);
      [apply list_elem_of_here | reflexivity | apply lookup_empty].
  - apply (Hfetched "/assets/star.svg"%string);
      [apply list_elem_of_further, list_elem_of_here | reflexivity
      | apply lookup_empty].
  - vm_compute. eexists. reflexivity.
Defined.

(** X20. One run of the icon effect fetches each URL at most once: the
    URLs it fetches are distinct, and they are exactly the non-empty
    URLs assigned to some key whose geometry is not in the cache; once
    every assigned URL is cached, a run fetches nothing. *)
Theorem effect_fetches_each_missing_icon_once (urls : list (option string))
    (current : gmap string BufferGeometry) :
  NoDup (effectFetches urls current) /\
  (forall url,
     url ∈ effectFetches urls current <->
     Some url ∈ urls /\ Js.truthy url = true /\ current !! url = None) /\
  ((forall url, Some url ∈ urls -> Js.truthy url = true ->
                is_Some (current !! url)) ->
   effectFetches urls current = []).
Proof. apply effect_fetches_spec. Qed.

End IconEffect.

(** ** Asset names and the URL table *)

Section AssetNames.
Import SvgAssets Notions.

Lemma lower_upper (c : ascii) : lower_ascii (Js.upper_ascii c) = lower_ascii c.
Proof. destruct c as [[] [] [] [] [] [] [] []]; reflexivity. Qed.

Lemma lower_lower (c : ascii) : lower_ascii (lower_ascii c) = lower_ascii c.
Proof. destruct c as [[] [] [] [] [] [] [] []]; reflexivity. Qed.

Lemma toLowerCase_idem (s : string) : toLowerCase (toLowerCase s) = toLowerCase s.
Proof.
  induction s as [| c s IH]; [reflexivity |].
  cbn. rewrite lower_lower, IH. reflexivity.
Qed.

Lemma toLowerCase_capitalize (w : string) :
  toLowerCase (capitalize w) = toLowerCase w.
Proof.
  destruct w as [| c w]; [reflexivity |].
  cbn. rewrite lower_upper, toLowerCase_idem. reflexivity.
Qed.

Lemma toLowerCase_app (s t : string) :
  toLowerCase (s +:+ t) = toLowerCase s +:+ toLowerCase t.
Proof.
  induction s as [| c s IH]; [reflexivity |].
  rewrite append_cons. cbn [toLowerCase]. rewrite IH, append_cons. reflexivity.
Qed.

Lemma toLowerCase_join (ws : list string) :
  toLowerCase (join " " (map capitalize ws)) = join " " (map toLowerCase ws).
Proof.
  induction ws as [| w ws IH]; [reflexivity |].
  destruct ws as [| w' ws].
  - cbn. apply toLowerCase_capitalize.
  - change (join " " (map capitalize (w :: w' :: ws)))
      with (capitalize w +:+ " " +:+ join " " (map capitalize (w' :: ws))).
    change (join " " (map toLowerCase (w :: w' :: ws)))
      with (toLowerCase w +:+ " " +:+ join " " (map toLowerCase (w' :: ws))).
    rewrite !toLowerCase_app, toLowerCase_capitalize, IH. reflexivity.
Qed.

Lemma split_nonempty (s : string) : split s <> [].
Proof.
  induction s as [| c s IH]; [discriminate |].
  cbn. destruct (is_sep c); [discriminate |].
  destruct (split s); discriminate.
Qed.

Lemma join_lower_split (s : string) :
  join " " (map toLowerCase (split s)) = mapChars nameChar s.
Proof.
  induction s as [| c s IH]; [reflexivity |].
  cbn [split mapChars]. unfold nameChar at 1.
  pose proof (split_nonempty s) as Hne.
  destruct (is_sep c) eqn:E.
  - destruct (split s) as [| w ws] eqn:Es; [contradiction |].
    change (join " " (map toLowerCase (EmptyString :: w :: ws)))
      with (String " " (join " " (map toLowerCase (w :: ws)))).
    rewrite IH. reflexivity.
  - destruct (split s) as [| w ws] eqn:Es; [contradiction |].
    rewrite <- IH. destruct ws as [| w' ws]; reflexivity.
Qed.

Lemma mapChars_length (f : ascii -> ascii) (s : string) :
  String.length (mapChars f s) = String.length s.
Proof. induction s as [| c s IH]; [reflexivity |]. cbn. rewrite IH. reflexivity. Qed.

Lemma toLowerCase_length (s : string) :
  String.length (toLowerCase s) = String.length s.
Proof. induction s as [| c s IH]; [reflexivity |]. cbn. rewrite IH. reflexivity. Qed.

Lemma substring_skip (b e : string) (k : nat) :
  substring (String.length b) k (b +:+ e) = substring 0 k e.
Proof.
  induction b as [| c b IH]; [reflexivity |].
  rewrite append_cons. cbn [String.length substring]. exact IH.
Qed.

Lemma substring_whole (e : string) : substring 0 (String.length e) e = e.
Proof.
  induction e as [| c e IH]; [reflexivity |].
  cbn [String.length substring]. rewrite IH. reflexivity.
Qed.

Lemma substring_prefix (b e : string) :
  substring 0 (String.length b) (b +:+ e) = b.
Proof.
  induction b as [| c b IH].
  - destruct e; reflexivity.
  - rewrite append_cons. cbn [String.length substring]. rewrite IH.
    reflexivity.
Qed.

Lemma stripSvg_extension (base ext : string) :
  toLowerCase ext = ".svg"%string -> stripSvg (base +:+ ext) = base.
Proof.
  intros Hext.
  assert (Hlen : String.length ext = 4%nat).
  { rewrite <- toLowerCase_length, Hext. reflexivity. }
  unfold stripSvg. rewrite append_length, Hlen.
  replace (String.length base + 4 - 4)%nat with (String.length base) by lia.
  replace (4 <=? String.length base + 4)%nat with true
    by (symmetry; apply Nat.leb_le; lia).
  rewrite substring_skip, <- Hlen, substring_whole, Hext.
  cbn [andb]. rewrite String.eqb_refl. apply substring_prefix.
Qed.

(** X22. The display name of an asset spells its file name: up to
    letter case, [nameFromId] is the file name without its extension
    with every [-] and [_] turned into a space, so both have the same
    length; and an extension [.svg], in any letter case, is what is
    taken off. *)
Theorem nameFromId_spells_the_file_name (id : string) :
  toLowerCase (nameFromId id) = mapChars nameChar (stripSvg id) /\
  String.length (nameFromId id) = String.length (stripSvg id) /\
  (forall base ext,
     id = base +:+ ext -> toLowerCase ext = ".svg"%string ->
     stripSvg id = base).
Proof.
  assert (H : toLowerCase (nameFromId id) = mapChars nameChar (stripSvg id)).
  { unfold nameFromId. rewrite toLowerCase_join. apply join_lower_split. }
  split; [exact H |]. split.
  - rewrite <- (toLowerCase_length (nameFromId id)), H. apply mapChars_length.
  - intros base ext -> Hext. apply stripSvg_extension. exact Hext.
Qed.

Lemma url_by_id_fold (assets : list SvgAsset) (m : gmap string string)
    (key : string) :
  fold_left (fun m a => <[asset_id a := asset_url a]> m) assets m !! key
  = match last (List.filter (fun a => String.eqb (asset_id a) key) assets) with
    | Some a => Some (asset_url a)
    | None => m !! key
    end.
Proof.
  revert m. induction assets as [| a assets IH]; intros m; [reflexivity |].
  cbn [fold_left List.filter]. rewrite IH.
  destruct (String.eqb (asset_id a) key) eqn:E.
  - apply String.eqb_eq in E.
    destruct (List.filter _ assets) as [| b l] eqn:F.
    + cbn. rewrite <- E. apply lookup_insert_eq.
    + rewrite last_cons_cons.
      destruct (last (b :: l)) eqn:L; [reflexivity |].
      apply last_None in L. discriminate.
  - apply String.eqb_neq in E.
    destruct (last (List.filter _ assets)); [reflexivity |].
    apply lookup_insert_ne. exact E.
Qed.

Lemma filter_unique (assets : list SvgAsset) (a : SvgAsset) :
  List.NoDup (map asset_id assets) -> In a assets ->
  List.filter (fun b => String.eqb (asset_id b) (asset_id a)) assets = [a].
Proof.
  induction assets as [| b assets IH]; intros Hnd Hin; [destruct Hin |].
  cbn [map] in Hnd. inversion Hnd as [| ? ? Hnot Hnd']; subst.
  cbn [List.filter]. destruct Hin as [-> | Hin].
  - rewrite String.eqb_refl. f_equal.
    clear IH Hnd Hnd'.
    induction assets as [| c assets IH]; [reflexivity |].
    cbn [List.filter]. destruct (String.eqb (asset_id c) (asset_id a)) eqn:E.
    + apply String.eqb_eq in E. exfalso. apply Hnot. left. exact E.
    + apply IH. intros H. apply Hnot. right. exact H.
  - destruct (String.eqb (asset_id b) (asset_id a)) eqn:E.
    + apply String.eqb_eq in E. exfalso. apply Hnot. rewrite E.
      apply in_map. exact Hin.
    + apply IH; assumption.
Qed.

Lemma url_by_id_lookup (modules : list (string * string)) :
  List.NoDup (map asset_id (SVG_ASSETS modules)) ->
  forall a, a ∈ SVG_ASSETS modules ->
            SVG_URL_BY_ID modules !! asset_id a = Some (asset_url a).
Proof.
  intros Hnd a Ha. apply list_elem_of_In in Ha. unfold SVG_URL_BY_ID.
  rewrite url_by_id_fold, (filter_unique _ a Hnd Ha). reflexivity.
Qed.

(** X23. The URL table of [svgAssets.ts]: a key it holds is the file
    name of an asset and maps to that asset's URL, a key that is no
    asset's file name is absent, and when the file names are distinct
    every asset is found under its own. *)
Theorem url_by_id_finds_each_asset (modules : list (string * string)) :
  (forall key url,
     SVG_URL_BY_ID modules !! key = Some url ->
     exists a, a ∈ SVG_ASSETS modules /\ asset_id a = key /\ asset_url a = url) /\
  (forall key,
     key ∉ map asset_id (SVG_ASSETS modules) ->
     SVG_URL_BY_ID modules !! key = None) /\
  (List.NoDup (map asset_id (SVG_ASSETS modules)) ->
   forall a, a ∈ SVG_ASSETS modules ->
             SVG_URL_BY_ID modules !! asset_id a = Some (asset_url a)).
Proof.
  split; [| split; [| apply url_by_id_lookup]];
    unfold SVG_URL_BY_ID; set (assets := SVG_ASSETS modules).
  - intros key url. rewrite url_by_id_fold.
    destruct (last _) as [a |] eqn:L; [| rewrite lookup_empty; discriminate].
    intros [= <-]. apply last_Some in L as [l' Hl].
    assert (Hin : In a (List.filter (fun a => String.eqb (asset_id a) key) assets)).
    { rewrite Hl. apply in_or_app. right. left. reflexivity. }
    apply filter_In in Hin as [Hin He]. apply String.eqb_eq in He.
    exists a. split; [apply list_elem_of_In, Hin |]. split; [exact He | reflexivity].
  - intros key Hn. rewrite url_by_id_fold.
    destruct (last _) as [a |] eqn:L; [| apply lookup_empty].
    exfalso. apply last_Some in L as [l' Hl].
    assert (Hin : In a (List.filter (fun a => String.eqb (asset_id a) key) assets)).
    { rewrite Hl. apply in_or_app. right. left. reflexivity. }
    apply filter_In in Hin as [Hin He]. apply String.eqb_eq in He.
    apply Hn. rewrite <- He. apply list_elem_of_In, in_map, Hin.
Qed.

End AssetNames.

(** ** The design list and the props handed to the scene *)

Section DesignList.
Import Three Positions SvgAssets Notions MoreExamples.

Lemma at_index_nat {A : Type} (l : list A) (i : Z) :
  (0 <= i)%Z -> at_index l i = l !! Z.to_nat i.
Proof.
  intros Hi. unfold at_index.
  destruct (i <? 0)%Z eqn:E; [apply Z.ltb_lt in E; lia | reflexivity].
Qed.

Lemma activeDesign_selected (st : App.State) :
  selected st ->
  App.activeDesign st = App.designs st !! Z.to_nat (App.activeIndex st) /\
  is_Some (App.activeDesign st).
Proof.
  intros [H0 H1]. unfold App.activeDesign.
  rewrite at_index_nat by exact H0.
  destruct (lookup_lt_is_Some_2 (App.designs st)
              (Z.to_nat (App.activeIndex st)) ltac:(lia)) as [d Hd].
  rewrite Hd. split; [reflexivity | eexists; reflexivity].
Qed.

Lemma delete_by_filter (index : Z) (l : list App.StoredDesign) (k : nat) :
  omap (fun o => o)
       (imap (fun i d => if (Z.of_nat (k + i) =? index)%Z then None else Some d)
             l)
  = if (index <? Z.of_nat k)%Z then l
    else delete (Z.to_nat index - k)%nat l.
Proof.
  revert k. induction l as [| x l IH]; intros k.
  - cbn. destruct (index <? Z.of_nat k)%Z; reflexivity.
  - rewrite imap_cons.
    rewrite (imap_ext _ (fun i d => if (Z.of_nat (S k + i) =? index)%Z
                                    then None else Some d) l)
      by (intros i d _; cbn; replace (k + S i)%nat with (S (k + i)) by lia;
          reflexivity).
    change (omap (fun o => o) (?h :: ?t))
      with (match h with Some y => y :: omap (fun o => o) t
                    | None => omap (fun o => o) t end).
    rewrite IH. rewrite Nat.add_0_r.
    destruct (Z.of_nat k =? index)%Z eqn:E.
    + apply Z.eqb_eq in E.
      replace (index <? Z.of_nat (S k))%Z with true
        by (symmetry; apply Z.ltb_lt; lia).
      replace (index <? Z.of_nat k)%Z with false
        by (symmetry; apply Z.ltb_ge; lia).
      replace (Z.to_nat index - k)%nat with 0%nat by lia. reflexivity.
    + apply Z.eqb_neq in E.
      destruct (index <? Z.of_nat k)%Z eqn:L.
      * apply Z.ltb_lt in L.
        replace (index <? Z.of_nat (S k))%Z with true
          by (symmetry; apply Z.ltb_lt; lia).
        reflexivity.
      * apply Z.ltb_ge in L.
        replace (index <? Z.of_nat (S k))%Z with false
          by (symmetry; apply Z.ltb_ge; lia).
        replace (Z.to_nat index - k)%nat with (S (Z.to_nat index - S k)) by lia.
        reflexivity.
Qed.

Lemma deleteDesign_designs (index : Z) (st : App.State) :
  App.designs (App.deleteDesign index st)
  = if ((length (App.designs st) <=? 1)%nat || (index <? 0)%Z)%bool
    then App.designs st
    else delete (Z.to_nat index) (App.designs st).
Proof.
  unfold App.deleteDesign.
  destruct (length (App.designs st) <=? 1)%nat; [reflexivity |].
  cbn [App.designs orb].
  rewrite (imap_ext _ (fun i d => if (Z.of_nat (0 + i) =? index)%Z
                                  then None else Some d) (App.designs st))
    by (intros; reflexivity).
  rewrite delete_by_filter. cbn [Z.of_nat]. rewrite Nat.sub_0_r. reflexivity.
Qed.

Lemma delete_beyond {A : Type} (l : list A) (i : nat) :
  (length l <= i)%nat -> delete i l = l.
Proof.
  intros H. rewrite delete_take_drop, take_ge, drop_ge by lia.
  apply app_nil_r.
Qed.

Lemma length_delete_le {A : Type} (l : list A) (i : nat) :
  (length l - 1 <= length (delete i l) <= length l)%nat.
Proof.
  destruct (decide (i < length l)%nat) as [H | H].
  - rewrite length_delete by (apply lookup_lt_is_Some; exact H). lia.
  - rewrite delete_beyond by lia. lia.
Qed.

(** X24. The active index always points into the design list: it
    does at start-up, whatever was stored; after [addDesign], which
    appends the new default design and selects it; after [deleteDesign],
    which never empties the list; and after [updateActiveDesign]. *)
Theorem design_list_stays_selected :
  (forall saved newId, selected (App.init saved newId)) /\
  (forall newId st,
     selected (App.addDesign newId st) /\
     App.designs (App.addDesign newId st)
       = App.designs st
         ++ [App.createDefaultDesign newId
               ("Design " +:+ Js.decimal (length (App.designs st) + 1)) None] /\
     App.activeDesign (App.addDesign newId st)
       = Some (App.createDefaultDesign newId
                 ("Design " +:+ Js.decimal (length (App.designs st) + 1)) None)) /\
  (forall index st, selected st ->
     selected (App.deleteDesign index st) /\
     (1 <= length (App.designs (App.deleteDesign index st)))%nat) /\
  (forall patch st, selected st -> selected (App.updateActiveDesign patch st)).
Proof.
  split; [| split; [| split]].
  - intros saved newId. unfold selected, App.init, App.initialActive.
    cbn [App.designs App.activeIndex].
    assert (H : (1 <= length (App.initialDesigns saved newId))%nat).
    { unfold App.initialDesigns.
      destruct (saved ≫= App.cfg_designs) as [[| d l] |]; cbn; lia. }
    lia.
  - intros newId st.
    assert (Hsel : selected (App.addDesign newId st)).
    { unfold selected, App.addDesign. cbn [App.designs App.activeIndex].
      rewrite length_app. cbn [length]. lia. }
    split; [exact Hsel |]. split; [reflexivity |].
    destruct (activeDesign_selected _ Hsel) as [-> _].
    unfold App.addDesign. cbn [App.designs App.activeIndex].
    rewrite length_app. cbn [length].
    replace (Z.to_nat (Z.of_nat (length (App.designs st) + 1) - 1))
      with (length (App.designs st) + 0)%nat by lia.
    rewrite lookup_app_r by lia.
    replace (length (App.designs st) + 0 - length (App.designs st))%nat
      with 0%nat by lia.
    reflexivity.
  - intros index st [H0 H1].
    pose proof (deleteDesign_designs index st) as Hd.
    assert (Hlen : (1 <= length (App.designs (App.deleteDesign index st)))%nat).
    { rewrite Hd.
      destruct (length (App.designs st) <=? 1)%nat eqn:E; cbn [orb]; [lia |].
      apply Nat.leb_gt in E.
      destruct (index <? 0)%Z; [lia |].
      pose proof (length_delete_le (App.designs st) (Z.to_nat index)). lia. }
    split; [| exact Hlen].
    unfold selected. revert Hlen. unfold App.deleteDesign.
    destruct (length (App.designs st) <=? 1)%nat; [intros _; lia |].
    cbn [App.designs App.activeIndex].
    set (n := length _). intros Hn.
    destruct (Z.of_nat n <=? _)%Z eqn:E; [lia |].
    apply Z.leb_gt in E. lia.
  - intros patch st [H0 H1]. unfold selected, App.updateActiveDesign.
    destruct (_ || _)%bool; [lia |].
    cbn [App.designs App.activeIndex]. rewrite length_imap. lia.
Qed.

(** X25. [deleteDesign] removes exactly the design at [index] and
    keeps the others in order; the active index is unchanged unless it
    pointed at the last design, where it moves to the new last one. The
    only design of a list is never deleted, and an index outside the
    list changes nothing. *)
Theorem deleteDesign_removes_one (index : Z) (st : App.State) :
  selected st ->
  let st' := App.deleteDesign index st in
  ((length (App.designs st) <= 1)%nat -> st' = st) /\
  ((1 < length (App.designs st))%nat ->
   (0 <= index < Z.of_nat (length (App.designs st)))%Z ->
   App.designs st'
     = take (Z.to_nat index) (App.designs st)
       ++ drop (S (Z.to_nat index)) (App.designs st) /\
   length (App.designs st') = (length (App.designs st) - 1)%nat /\
   App.activeIndex st'
     = Z.min (App.activeIndex st) (Z.of_nat (length (App.designs st)) - 2)) /\
  ((index < 0 \/ Z.of_nat (length (App.designs st)) <= index)%Z ->
   st' = st).
Proof.
  intros [H0 H1] st'. split; [| split].
  - intros Hl. unfold st', App.deleteDesign.
    replace (length (App.designs st) <=? 1)%nat with true
      by (symmetry; apply Nat.leb_le; exact Hl).
    reflexivity.
  - intros Hl Hi.
    assert (Hd : App.designs st'
                 = take (Z.to_nat index) (App.designs st)
                   ++ drop (S (Z.to_nat index)) (App.designs st)).
    { unfold st'. rewrite deleteDesign_designs.
      replace (length (App.designs st) <=? 1)%nat with false
        by (symmetry; apply Nat.leb_gt; exact Hl).
      replace (index <? 0)%Z with false by (symmetry; apply Z.ltb_ge; lia).
      cbn [orb]. apply delete_take_drop. }
    assert (Hlen : length (App.designs st') = (length (App.designs st) - 1)%nat).
    { rewrite Hd, length_app, length_take, length_drop. lia. }
    split; [exact Hd |]. split; [exact Hlen |].
    revert Hlen. unfold st', App.deleteDesign.
    replace (length (App.designs st) <=? 1)%nat with false
      by (symmetry; apply Nat.leb_gt; exact Hl).
    cbn [App.designs App.activeIndex]. set (n := length _). intros Hn.
    destruct (Z.of_nat n <=? _)%Z eqn:E; [apply Z.leb_le in E |]; lia.
  - intros Hi.
    assert (Hd : App.designs st' = App.designs st).
    { unfold st'. rewrite deleteDesign_designs.
      destruct (length (App.designs st) <=? 1)%nat; [reflexivity |].
      cbn [orb]. destruct (index <? 0)%Z eqn:E; [reflexivity |].
      apply Z.ltb_ge in E. apply delete_beyond. lia. }
    revert Hd. unfold st', App.deleteDesign.
    destruct (length (App.designs st) <=? 1)%nat; [reflexivity |].
    cbn [App.designs App.activeIndex]. intros ->.
    destruct st as [ds ai]. cbn [App.designs App.activeIndex] in *.
    f_equal.
    destruct (Z.of_nat (length ds) <=? _)%Z eqn:E; [apply Z.leb_le in E |]; lia.
Qed.

Lemma deleteDesign_removes_one_witness :
  selected twoDesigns /\
  (let st' := App.deleteDesign 1%Z twoDesigns in
  ((length (App.designs twoDesigns) <= 1)%nat -> st' = twoDesigns) /\
  ((1 < length (App.designs twoDesigns))%nat ->
   (0 <= 1%Z < Z.of_nat (length (App.designs twoDesigns)))%Z ->
   App.designs st'
     = take (Z.to_nat 1%Z) (App.designs twoDesigns)
       ++ drop (S (Z.to_nat 1%Z)) (App.designs twoDesigns) /\
   length (App.designs st') = (length (App.designs twoDesigns) - 1)%nat /\
   App.activeIndex st'
     = Z.min (App.activeIndex twoDesigns) (Z.of_nat (length (App.designs twoDesigns)) - 2)) /\
  ((1%Z < 0 \/ Z.of_nat (length (App.designs twoDesigns)) <= 1%Z)%Z ->
   st' = twoDesigns)).
Proof.
  split; [unfold selected; vm_compute; split; [discriminate | reflexivity] |].
  apply (deleteDesign_removes_one 1%Z twoDesigns);
    [unfold selected; vm_compute; split; [discriminate | reflexivity]].
Defined.

End DesignList.

Section DesignEditing.
Import Three Positions SvgAssets Notions MoreExamples.

Lemma to_int_not_nil (z : Z) :
  Z.to_int z <> Decimal.Pos Decimal.Nil /\ Z.to_int z <> Decimal.Neg Decimal.Nil.
Proof.
  split; intros H; pose proof (f_equal Z.of_int H) as H';
    rewrite DecimalZ.of_to in H'; cbn in H'; subst z; discriminate.
Qed.

Lemma keyOf_inj (a b : Z) : App.keyOf a = App.keyOf b -> a = b.
Proof.
  unfold App.keyOf. intros H.
  apply (f_equal NilZero.int_of_string) in H.
  destruct (to_int_not_nil a) as [A1 A2]. destruct (to_int_not_nil b) as [B1 B2].
  rewrite !NilZero.isi in H by assumption.
  injection H as H. apply DecimalZ.to_int_inj. exact H.
Qed.

Lemma imap_replace {A : Type} (g : A -> A) (l : list A) (k : nat) (d : A) :
  l !! k = Some d ->
  imap (fun idx x => if (Z.of_nat idx =? Z.of_nat k)%Z then g x else x) l
  = <[k := g d]> l.
Proof.
  intros Hk. apply list_eq. intros j. rewrite list_lookup_imap.
  destruct (decide (j = k)) as [-> | Hne].
  - rewrite list_lookup_insert_eq by (apply lookup_lt_is_Some; eauto).
    rewrite Hk. cbn. rewrite Z.eqb_refl. reflexivity.
  - rewrite list_lookup_insert_ne by congruence.
    destruct (l !! j) as [x |]; [| reflexivity]. cbn.
    replace (Z.of_nat j =? Z.of_nat k)%Z with false
      by (symmetry; apply Z.eqb_neq; lia).
    reflexivity.
Qed.

Lemma updateActiveDesign_selected (patch : App.Patch) (st : App.State)
    (d : App.StoredDesign) :
  selected st -> App.activeDesign st = Some d ->
  App.updateActiveDesign patch st
  = {| App.designs := <[Z.to_nat (App.activeIndex st) := App.merge d patch]>
                        (App.designs st);
       App.activeIndex := App.activeIndex st |} /\
  App.activeDesign (App.updateActiveDesign patch st) = Some (App.merge d patch).
Proof.
  intros Hsel Hd. pose proof Hsel as [H0 H1].
  destruct (activeDesign_selected st Hsel) as [Ha _]. rewrite Hd in Ha.
  assert (Hu : App.updateActiveDesign patch st
          = {| App.designs := <[Z.to_nat (App.activeIndex st) := App.merge d patch]>
                                (App.designs st);
               App.activeIndex := App.activeIndex st |}).
  { unfold App.updateActiveDesign.
    replace (App.activeIndex st <? 0)%Z with false
      by (symmetry; apply Z.ltb_ge; lia).
    replace (Z.of_nat (length (App.designs st)) <=? App.activeIndex st)%Z
      with false by (symmetry; apply Z.leb_gt; lia).
    cbn [orb]. f_equal.
    rewrite <- (imap_replace (fun x => App.merge x patch) (App.designs st)
                  (Z.to_nat (App.activeIndex st)) d) by (symmetry; exact Ha).
    apply imap_ext. intros i x _. cbn.
    rewrite Z2Nat.id by lia. reflexivity. }
  split; [exact Hu |]. rewrite Hu. unfold App.activeDesign.
  cbn [App.designs App.activeIndex].
  rewrite at_index_nat by lia.
  rewrite list_lookup_insert_eq by lia. reflexivity.
Qed.

Lemma slice01_idem (s : string) : Js.slice01 (Js.slice01 s) = Js.slice01 s.
Proof. destruct s; reflexivity. Qed.

Lemma keycapLetters_sliced (st : App.State) (letters : list string) :
  App.keycapLetters st = Some letters ->
  Forall (fun l => Js.slice01 l = l) letters.
Proof.
  unfold App.keycapLetters. intros H.
  apply fmap_Some in H as (raw & _ & ->).
  apply Forall_forall. intros l Hl. apply list_elem_of_In in Hl.
  apply in_map_iff in Hl as (c & <- & _).
  destruct c as [s |]; [apply slice01_idem | reflexivity].
Qed.

Lemma imap_insert {A : Type} (l : list A) (i : nat) (v : A) :
  imap (fun j x => if (j =? i)%nat then v else x) l = <[i := v]> l.
Proof.
  apply list_eq. intros j. rewrite list_lookup_imap.
  destruct (decide (j = i)) as [-> | Hne].
  - destruct (l !! i) as [x |] eqn:E.
    + rewrite list_lookup_insert_eq by (apply lookup_lt_is_Some; eauto).
      cbn. rewrite Nat.eqb_refl. reflexivity.
    + rewrite (proj2 (lookup_ge_None _ _)); [reflexivity |].
      rewrite length_insert. apply lookup_ge_None. exact E.
  - rewrite list_lookup_insert_ne by congruence.
    destruct (l !! j) as [x |]; [| reflexivity]. cbn.
    replace (j =? i)%nat with false by (symmetry; apply Nat.eqb_neq; exact Hne).
    reflexivity.
Qed.

Lemma fmap_fixed {A : Type} (g : A -> A) (l : list A) :
  Forall (fun x => g x = x) l -> g <$> l = l.
Proof.
  induction 1 as [| x l Hx _ IH]; [reflexivity |].
  cbn. rewrite Hx. f_equal. exact IH.
Qed.

(** What an update of the active design leaves alone. *)
Lemma derived_after_update (patch : App.Patch) (st : App.State)
    (d : App.StoredDesign) :
  selected st -> App.activeDesign st = Some d ->
  App.p_numberOfKeys patch = None ->
  App.numberOfKeysOf (App.updateActiveDesign patch st) = App.numberOfKeysOf st.
Proof.
  intros Hsel Hd Hn.
  destruct (updateActiveDesign_selected patch st d Hsel Hd) as [_ Ha].
  unfold App.numberOfKeysOf. rewrite Ha, Hd. cbn. rewrite Hn. reflexivity.
Qed.

(** X27. Typing into the letter box of key [i] sets that letter, cut
    to one character, and nothing else: the other letters, the key
    count, the icons and the positions are as before, the letters stored
    for another key count are untouched, and so is every other
    design. *)
Theorem typeLetter_sets_one_letter (i : nat) (value : string) (st : App.State)
    (letters : list string) :
  selected st ->
  App.keycapLetters st = Some letters ->
  let st' := App.typeLetter i value st in
  App.keycapLetters st' = Some (<[i := Js.slice01 value]> letters) /\
  App.numberOfKeysOf st' = App.numberOfKeysOf st /\
  App.keycapSvg st' = App.keycapSvg st /\
  App.keycapPositions st' = App.keycapPositions st /\
  (forall d d' m,
     App.activeDesign st = Some d -> App.activeDesign st' = Some d' ->
     m <> App.numberOfKeysOf st ->
     App.byCount (App.keycapLettersByCount d') m
     = App.byCount (App.keycapLettersByCount d) m) /\
  (forall j, j <> Z.to_nat (App.activeIndex st) ->
     App.designs st' !! j = App.designs st !! j).
Proof.
  intros Hsel Hl st'.
  destruct (activeDesign_selected st Hsel) as [_ [d Hd]].
  set (n := App.numberOfKeysOf st).
  set (next := imap (fun j l => if (j =? i)%nat then Js.slice01 value else l)
                    letters).
  set (patch :=
         {| App.p_id := None; App.p_name := None; App.p_objectColor := None;
            App.p_keycapColor := None; App.p_textBorderColor := None;
            App.p_showBorder := None; App.p_numberOfKeys := None;
            App.p_keycapPositionsByCount := None;
            App.p_keycapLettersByCount :=
              Some (<[App.keyOf n := map Some next]>
                      (default ∅ (App.keycapLettersByCount d)));
            App.p_keycapSvgByCount := None;
            App.p_keycapSvgSizeMm := None |}).
  assert (Hst : st' = App.updateActiveDesign patch st).
  { unfold st', App.typeLetter. rewrite Hd, Hl. reflexivity. }
  destruct (updateActiveDesign_selected patch st d Hsel Hd) as [Hu Ha].
  rewrite <- Hst in Hu, Ha.
  assert (Hn : App.numberOfKeysOf st' = n).
  { rewrite Hst. apply (derived_after_update patch st d Hsel Hd). reflexivity. }
  split; [| split; [exact Hn | split; [| split; [| split]]]].
  - unfold App.keycapLetters, App.storedLetters. rewrite Ha, Hn.
    cbn [App.merge App.keycapLettersByCount App.p_keycapLettersByCount patch
         App.over App.byCount].
    rewrite lookup_insert_eq. cbn [fmap option_fmap option_map].
    f_equal. rewrite map_map. unfold next. rewrite imap_insert.
    pose proof (keycapLetters_sliced st letters Hl) as Hs.
    change (map ?f ?l) with (f <$> l). rewrite list_fmap_insert.
    rewrite slice01_idem. f_equal. apply fmap_fixed. exact Hs.
  - unfold App.keycapSvg, App.storedSvg. rewrite Ha, Hd, Hn. reflexivity.
  - unfold App.keycapPositions, App.storedPositions. rewrite Ha, Hd, Hn.
    reflexivity.
  - intros d0 d' m Hd0 Hd' Hm. rewrite Hd in Hd0. injection Hd0 as <-.
    rewrite Ha in Hd'. injection Hd' as <-.
    cbn [App.merge App.keycapLettersByCount App.p_keycapLettersByCount patch
         App.over App.byCount].
    rewrite lookup_insert_ne
      by (intros E; apply keyOf_inj in E; apply Hm; symmetry; exact E).
    destruct (App.keycapLettersByCount d); [reflexivity | apply lookup_empty].
  - intros j Hj. rewrite Hu. cbn [App.designs].
    apply list_lookup_insert_ne. congruence.
Qed.

Lemma typeLetter_sets_one_letter_witness :
  selected firstRun /\
  App.keycapLetters firstRun = Some [EmptyString] /\
  (let st' := App.typeLetter 0%nat "ab"%string firstRun in
  App.keycapLetters st' = Some (<[0%nat := Js.slice01 "ab"%string]> [EmptyString]) /\
  App.numberOfKeysOf st' = App.numberOfKeysOf firstRun /\
  App.keycapSvg st' = App.keycapSvg firstRun /\
  App.keycapPositions st' = App.keycapPositions firstRun /\
  (forall d d' m,
     App.activeDesign firstRun = Some d -> App.activeDesign st' = Some d' ->
     m <> App.numberOfKeysOf firstRun ->
     App.byCount (App.keycapLettersByCount d') m
     = App.byCount (App.keycapLettersByCount d) m) /\
  (forall j, j <> Z.to_nat (App.activeIndex firstRun) ->
     App.designs st' !! j = App.designs firstRun !! j)).
Proof.
  split; [unfold selected; vm_compute; split; [discriminate | reflexivity] |].
  split; [reflexivity |].
  apply (typeLetter_sets_one_letter 0%nat "ab"%string firstRun [EmptyString]);
    [unfold selected; vm_compute; split; [discriminate | reflexivity] | reflexivity].
Defined.

(** X28. Picking an asset for key [i] makes the scene receive that
    asset's URL for key [i], and clearing the icon makes it receive none;
    the URLs of the other keys and the letters are as before (asset file
    names being distinct). *)
Theorem pickIcon_sets_scene_url (modules : list (string * string)) (i : nat)
    (a : SvgAsset) (st : App.State) (urls : list (option string)) :
  selected st ->
  List.NoDup (map asset_id (SVG_ASSETS modules)) ->
  a ∈ SVG_ASSETS modules -> asset_id a <> EmptyString ->
  App.keycapSvgUrlsForScene (SVG_URL_BY_ID modules) st = Some urls ->
  App.keycapSvgUrlsForScene (SVG_URL_BY_ID modules)
    (App.pickIcon i (Some (asset_id a)) st)
  = Some (<[i := Some (asset_url a)]> urls) /\
  App.keycapSvgUrlsForScene (SVG_URL_BY_ID modules) (App.pickIcon i None st)
  = Some (<[i := None]> urls) /\
  App.keycapLetters (App.pickIcon i (Some (asset_id a)) st)
  = App.keycapLetters st.
Proof.
  intros Hsel Hnd Ha Hid Hurls.
  destruct (activeDesign_selected st Hsel) as [_ [d Hd]].
  unfold App.keycapSvgUrlsForScene in Hurls.
  apply fmap_Some in Hurls as (svg & Hsvg & ->).
  set (n := App.numberOfKeysOf st).
  assert (Hpick : forall choice,
            let st' := App.pickIcon i choice st in
            App.keycapSvg st' = Some (<[i := choice]> svg) /\
            App.keycapLetters st' = App.keycapLetters st).
  { intros choice st'.
    set (next := imap (fun j s => if (j =? i)%nat then choice else s) svg).
    set (patch :=
           {| App.p_id := None; App.p_name := None; App.p_objectColor := None;
              App.p_keycapColor := None; App.p_textBorderColor := None;
              App.p_showBorder := None; App.p_numberOfKeys := None;
              App.p_keycapPositionsByCount := None;
              App.p_keycapLettersByCount := None;
              App.p_keycapSvgByCount :=
                Some (<[App.keyOf n := next]>
                        (default ∅ (App.keycapSvgByCount d)));
              App.p_keycapSvgSizeMm := None |}).
    assert (Hst : st' = App.updateActiveDesign patch st).
    { unfold st', App.pickIcon. rewrite Hd, Hsvg. reflexivity. }
    destruct (updateActiveDesign_selected patch st d Hsel Hd) as [Hu Hact].
    rewrite <- Hst in Hu, Hact.
    assert (Hn : App.numberOfKeysOf st' = n).
    { rewrite Hst. apply (derived_after_update patch st d Hsel Hd).
      reflexivity. }
    split.
    - unfold App.keycapSvg, App.storedSvg. rewrite Hact, Hn.
      cbn [App.merge App.keycapSvgByCount App.p_keycapSvgByCount patch
           App.over App.byCount].
      rewrite lookup_insert_eq. cbn [fmap option_fmap option_map].
      rewrite map_id. unfold next. rewrite imap_insert. reflexivity.
    - unfold App.keycapLetters, App.storedLetters. rewrite Hact, Hd, Hn.
      reflexivity. }
  destruct (Hpick (Some (asset_id a))) as [S1 L1].
  destruct (Hpick None) as [S2 _].
  unfold App.keycapSvgUrlsForScene. rewrite S1, S2.
  cbn [fmap option_fmap option_map].
  split; [| split; [| exact L1]].
  - f_equal. rewrite list_fmap_insert. f_equal.
    assert (Ht : Js.truthy (asset_id a) = true)
      by (destruct (asset_id a); [contradiction | reflexivity]).
    rewrite Ht.
    apply (url_by_id_lookup modules Hnd a Ha).
  - f_equal. rewrite list_fmap_insert. reflexivity.
Qed.

Lemma pickIcon_sets_scene_url_witness :
  selected firstRun /\
  List.NoDup (map asset_id (SVG_ASSETS demoModules)) /\
  {| asset_id := "thumbs-up.svg"; asset_name := "Thumbs Up"; asset_url := "/assets/thumbs-up-3c4d.svg" |} ∈ SVG_ASSETS demoModules /\
  asset_id {| asset_id := "thumbs-up.svg"; asset_name := "Thumbs Up"; asset_url := "/assets/thumbs-up-3c4d.svg" |} <> EmptyString /\
  App.keycapSvgUrlsForScene (SVG_URL_BY_ID demoModules) firstRun = Some [Some "/assets/heart-1a2b.svg"%string] /\
  (App.keycapSvgUrlsForScene (SVG_URL_BY_ID demoModules)
    (App.pickIcon 0%nat (Some (asset_id {| asset_id := "thumbs-up.svg"; asset_name := "Thumbs Up"; asset_url := "/assets/thumbs-up-3c4d.svg" |})) firstRun)
  = Some (<[0%nat := Some (asset_url {| asset_id := "thumbs-up.svg"; asset_name := "Thumbs Up"; asset_url := "/assets/thumbs-up-3c4d.svg" |})]> [Some "/assets/heart-1a2b.svg"%string]) /\
  App.keycapSvgUrlsForScene (SVG_URL_BY_ID demoModules) (App.pickIcon 0%nat None firstRun)
  = Some (<[0%nat := None]> [Some "/assets/heart-1a2b.svg"%string]) /\
  App.keycapLetters (App.pickIcon 0%nat (Some (asset_id {| asset_id := "thumbs-up.svg"; asset_name := "Thumbs Up"; asset_url := "/assets/thumbs-up-3c4d.svg" |})) firstRun)
  = App.keycapLetters firstRun).
Proof.
  split; [unfold selected; vm_compute; split; [discriminate | reflexivity] |].
  split; [repeat constructor; cbn; intros H; repeat (destruct H as [H | H]; [discriminate H |]); exact H |].
  split; [apply list_elem_of_In; right; left; reflexivity |].
  split; [discriminate |].
  split; [vm_compute; reflexivity |].
  apply (pickIcon_sets_scene_url demoModules 0%nat {| asset_id := "thumbs-up.svg"; asset_name := "Thumbs Up"; asset_url := "/assets/thumbs-up-3c4d.svg" |} firstRun [Some "/assets/heart-1a2b.svg"%string]);
    [unfold selected; vm_compute; split; [discriminate | reflexivity] | repeat constructor; cbn; intros H; repeat (destruct H as [H | H]; [discriminate H |]); exact H | apply list_elem_of_In; right; left; reflexivity | discriminate | vm_compute; reflexivity].
Defined.

End DesignEditing.

Section DesignToScene.
Import Three Positions SvgAssets Notions MoreExamples.

Lemma arrayFill_Some {A : Type} (n : Z) (v : A) :
  (0 <= n < 2 ^ 32)%Z -> App.arrayFill n v = Some (replicate (Z.to_nat n) v).
Proof.
  intros [H0 H1]. unfold App.arrayFill.
  replace (0 <=? n)%Z with true by (symmetry; apply Z.leb_le; exact H0).
  replace (n <? 2 ^ 32)%Z with true by (symmetry; apply Z.ltb_lt; exact H1).
  reflexivity.
Qed.

Lemma arrayFill_None {A : Type} (n : Z) (v : A) :
  App.arrayFill n v = None <-> (n < 0 \/ 2 ^ 32 <= n)%Z.
Proof.
  unfold App.arrayFill.
  destruct (0 <=? n)%Z eqn:E0; destruct (n <? 2 ^ 32)%Z eqn:E1; cbn;
    try apply Z.leb_le in E0; try apply Z.leb_gt in E0;
    try apply Z.ltb_lt in E1; try apply Z.ltb_ge in E1;
    split; intros H; try discriminate; try lia; reflexivity.
Qed.

(** X26. A design made by [createDefaultDesign] is consistent: its
    key count is the stored count clamped to 1..7; without stored icons
    it has the default icon on each of its keys; without stored letters
    or positions for that count it has one empty letter per key and the
    default positions; and the props derived from it are defined, so
    that the scene places as many keycaps as the design has keys. *)
Theorem fresh_design_is_consistent (newId name : string)
    (fromSaved : option App.Patch) (urlById : gmap string string) :
  let from := default App.noPatch fromSaved in
  let st := single (App.createDefaultDesign newId name fromSaved) in
  let n := App.numberOfKeysOf st in
  n = Num.clampKeys (default 1%Z (App.p_numberOfKeys from)) /\
  (1 <= n <= 7)%Z /\
  (App.p_keycapSvgByCount from = None \/ App.p_keycapSvgByCount from = Some ∅ ->
   App.keycapSvg st
   = Some (replicate (Z.to_nat n) (Some App.DEFAULT_KEYCAP_SVG_ID))) /\
  (App.byCount (App.p_keycapLettersByCount from) n = None ->
   App.keycapLetters st = Some (replicate (Z.to_nat n) EmptyString)) /\
  (App.byCount (App.p_keycapPositionsByCount from) n = None ->
   App.keycapPositions st = getDefaultPositions n /\
   length (App.keycapPositions st) = Z.to_nat n) /\
  exists p,
    App.sceneProps urlById st = Some p /\
    Layout.numberOfKeys p = n /\
    (App.byCount (App.p_keycapPositionsByCount from) n = None ->
     forall a, length (Layout.keycapMeshPositions p a) = Z.to_nat n).
Proof.
  intros from st n.
  set (d := App.createDefaultDesign newId name fromSaved).
  assert (Hact : App.activeDesign st = Some d) by reflexivity.
  assert (Hn : n = Num.clampKeys (default 1%Z (App.p_numberOfKeys from)))
    by reflexivity.
  assert (Hr : (1 <= n <= 7)%Z) by (rewrite Hn; unfold Num.clampKeys; lia).
  assert (Hfill : forall (A : Type) (v : A),
            App.arrayFill n v = Some (replicate (Z.to_nat n) v)).
  { intros A v. apply arrayFill_Some. lia. }
  assert (Hpos : App.byCount (App.p_keycapPositionsByCount from) n = None ->
                 App.keycapPositions st = getDefaultPositions n).
  { intros Hp. unfold App.keycapPositions, App.storedPositions.
    rewrite Hact. fold n.
    cbn [d App.createDefaultDesign App.keycapPositionsByCount App.byCount].
    fold from. unfold App.byCount in Hp.
    destruct (App.p_keycapPositionsByCount from) as [m |];
      cbn [default from_option id].
    - change (id m) with m. rewrite Hp. cbn. apply map_id.
    - rewrite lookup_empty. cbn. apply map_id. }
  assert (Hlen : length (getDefaultPositions n) = Z.to_nat n).
  { unfold getDefaultPositions. rewrite length_map.
    destruct (default_row_length n) as (row & Hrow & Hlr).
    rewrite Hrow. cbn [default from_option id]. change (id row) with row.
    rewrite Hlr, clampKeys_id by exact Hr. reflexivity. }
  split; [exact Hn |]. split; [exact Hr |].
  split; [| split; [| split]].
  - intros Hsvg. unfold App.keycapSvg, App.storedSvg. rewrite Hact. fold n.
    cbn [d App.createDefaultDesign App.keycapSvgByCount]. fold from.
    assert (He : match App.p_keycapSvgByCount from with
                 | Some m => negb (bool_decide (m = ∅))
                 | None => false
                 end = false).
    { destruct Hsvg as [-> | ->]; [reflexivity |].
      rewrite bool_decide_eq_true_2 by reflexivity. reflexivity. }
    rewrite He. cbn [App.byCount].
    change (Z.min 7 (Z.max 1 (default 1%Z (App.p_numberOfKeys from)))) with n.
    rewrite lookup_singleton_eq. cbn. rewrite map_id. reflexivity.
  - intros Hl. unfold App.keycapLetters, App.storedLetters. rewrite Hact. fold n.
    cbn [d App.createDefaultDesign App.keycapLettersByCount App.byCount].
    fold from. unfold App.byCount in Hl.
    assert (Hnone : default ∅ (App.p_keycapLettersByCount from)
                      !! App.keyOf n = None).
    { destruct (App.p_keycapLettersByCount from) as [m |];
        [exact Hl | apply lookup_empty]. }
    rewrite Hnone, Hfill. cbn [fmap option_fmap option_map]. f_equal.
    change (map ?f ?l) with (f <$> l). apply fmap_replicate.
  - intros Hp. split; [apply Hpos, Hp |]. rewrite (Hpos Hp). exact Hlen.
  - assert (HL : is_Some (App.keycapLetters st)).
    { unfold App.keycapLetters. destruct (App.storedLetters st);
        [eexists; reflexivity |]. fold n. rewrite Hfill. eexists. reflexivity. }
    assert (HS : is_Some (App.keycapSvgUrlsForScene urlById st)).
    { unfold App.keycapSvgUrlsForScene, App.keycapSvg.
      destruct (App.storedSvg st); [eexists; reflexivity |].
      fold n. rewrite Hfill. eexists. reflexivity. }
    destruct HL as [letters HL]. destruct HS as [urls HS].
    eexists. split; [| split].
    + unfold App.sceneProps. rewrite HL, HS. reflexivity.
    + reflexivity.
    + intros Hp a. rewrite keycapMeshPositions_length.
      unfold Layout.keycapPositions. cbn [Layout.keycapPositionsProp].
      unfold App.keycapPositionsForScene. rewrite (Hpos Hp).
      destruct (getDefaultPositions n) as [| v l] eqn:E.
      * cbn in Hlen. lia.
      * cbn [map]. cbn [length]. rewrite length_map.
        rewrite <- Hlen. reflexivity.
Qed.

(** X29. When the props of the scene are defined: deriving them
    fails exactly when the key count is negative (or beyond the largest
    array length) and no letters or no icons are stored for it, which is
    where [Array(numberOfKeys)] throws. When they are defined, every
    letter handed to the scene has at most one character, and a count
    with nothing stored gets that many empty letters and no icon. *)
Theorem sceneProps_defined (urlById : gmap string string) (st : App.State) :
  let n := App.numberOfKeysOf st in
  (App.sceneProps urlById st = None <->
   (n < 0 \/ 2 ^ 32 <= n)%Z /\
   (App.storedLetters st = None \/ App.storedSvg st = None)) /\
  (forall p, App.sceneProps urlById st = Some p ->
     Layout.numberOfKeys p = n /\
     Forall (fun l => (String.length l <= 1)%nat) (Layout.keycapLetters p) /\
     (App.storedLetters st = None ->
      Layout.keycapLetters p = replicate (Z.to_nat n) EmptyString) /\
     (App.storedSvg st = None ->
      Layout.keycapSvgUrls p = replicate (Z.to_nat n) None)).
Proof.
  intros n. split.
  - unfold App.sceneProps, App.keycapSvgUrlsForScene, App.keycapLetters,
      App.keycapSvg. fold n.
    destruct (App.storedLetters st) as [l |], (App.storedSvg st) as [s |];
      cbn [fmap option_fmap option_map mbind option_bind].
    + split; [discriminate | intros [_ [H | H]]; discriminate].
    + destruct (App.arrayFill n None) eqn:E; cbn.
      * split; [discriminate |]. intros [Hn _].
        apply (arrayFill_None n (@None string)) in Hn. congruence.
      * apply arrayFill_None in E. split; [intros _ | reflexivity].
        split; [exact E | right; reflexivity].
    + destruct (App.arrayFill n (Some ""%string)) eqn:E; cbn.
      * split; [discriminate |]. intros [Hn _].
        apply (arrayFill_None n (Some ""%string)) in Hn. congruence.
      * apply arrayFill_None in E. split; [intros _ | reflexivity].
        split; [exact E | left; reflexivity].
    + destruct (App.arrayFill n (Some ""%string)) eqn:E; cbn.
      * destruct (App.arrayFill n None) eqn:E'; cbn.
        -- split; [discriminate |]. intros [Hn _].
           apply (arrayFill_None n (@None string)) in Hn. congruence.
        -- apply arrayFill_None in E'. split; [intros _ | reflexivity].
           split; [exact E' | left; reflexivity].
      * apply arrayFill_None in E. split; [intros _ | reflexivity].
        split; [exact E | left; reflexivity].
  - intros p Hp. unfold App.sceneProps in Hp.
    destruct (App.keycapLetters st) as [letters |] eqn:HL; [| discriminate].
    destruct (App.keycapSvgUrlsForScene urlById st) as [urls |] eqn:HS;
      [| discriminate].
    cbn in Hp. injection Hp as <-.
    cbn [Layout.numberOfKeys Layout.keycapLetters Layout.keycapSvgUrls].
    split; [reflexivity |]. split; [| split].
    + pose proof (keycapLetters_sliced st letters HL) as Hs.
      eapply Forall_impl; [exact Hs |]. intros l Hl. cbn in Hl.
      destruct l as [| c [| c' l]]; cbn; try lia. discriminate.
    + intros Hnone. unfold App.keycapLetters in HL. rewrite Hnone in HL.
      fold n in HL. unfold App.arrayFill in HL.
      destruct (_ && _)%bool; [| discriminate]. cbn in HL.
      injection HL as <-.
      change (map ?f ?l) with (f <$> l). apply fmap_replicate.
    + intros Hnone. unfold App.keycapSvgUrlsForScene, App.keycapSvg in HS.
      rewrite Hnone in HS. fold n in HS. unfold App.arrayFill in HS.
      destruct (_ && _)%bool; [| discriminate]. cbn in HS.
      injection HS as <-.
      change (map ?f (map ?g ?l)) with (f <$> (g <$> l)).
      rewrite !fmap_replicate. reflexivity.
Qed.

Lemma merge_back (d : App.StoredDesign) (n m : Z) :
  App.numberOfKeys d = Some n ->
  App.merge (App.merge d (App.patchNumberOfKeys m)) (App.patchNumberOfKeys n) = d.
Proof.
  intros Hn. destruct d. cbn in *. rewrite Hn. reflexivity.
Qed.

(** X30. Changing the key count and changing it back restores the
    state exactly; a change of the count alone leaves the letters, icons
    and positions stored per count as they are. *)
Theorem selectNumberOfKeys_round_trip (n m : Z) (st : App.State)
    (d : App.StoredDesign) :
  selected st -> App.activeDesign st = Some d -> App.numberOfKeys d = Some n ->
  App.numberOfKeysOf (App.selectNumberOfKeys m st) = m /\
  App.selectNumberOfKeys n (App.selectNumberOfKeys m st) = st /\
  (forall d', App.activeDesign (App.selectNumberOfKeys m st) = Some d' ->
     App.keycapLettersByCount d' = App.keycapLettersByCount d /\
     App.keycapSvgByCount d' = App.keycapSvgByCount d /\
     App.keycapPositionsByCount d' = App.keycapPositionsByCount d).
Proof.
  intros Hsel Hd Hn. unfold App.selectNumberOfKeys.
  destruct (updateActiveDesign_selected (App.patchNumberOfKeys m) st d Hsel Hd)
    as [Hu Ha].
  assert (Hsel' : selected (App.updateActiveDesign (App.patchNumberOfKeys m) st)).
  { rewrite Hu. unfold selected. cbn [App.designs App.activeIndex].
    rewrite length_insert. exact Hsel. }
  destruct (updateActiveDesign_selected (App.patchNumberOfKeys n) _ _ Hsel' Ha)
    as [Hu' _].
  split; [| split].
  - unfold App.numberOfKeysOf. rewrite Ha. reflexivity.
  - rewrite Hu'. rewrite merge_back by exact Hn. rewrite Hu.
    cbn [App.designs App.activeIndex].
    rewrite list_insert_insert_eq.
    destruct (activeDesign_selected st Hsel) as [Hl _]. rewrite Hd in Hl.
    rewrite list_insert_id by (symmetry; exact Hl).
    destruct st; reflexivity.
  - intros d' Hd'. rewrite Ha in Hd'. injection Hd' as <-.
    repeat split.
Qed.

Lemma selectNumberOfKeys_round_trip_witness :
  selected firstRun /\
  App.activeDesign firstRun = Some (App.createDefaultDesign "design-1" "Design 1" None) /\
  App.numberOfKeys (App.createDefaultDesign "design-1" "Design 1" None) = Some 1%Z /\
  (App.numberOfKeysOf (App.selectNumberOfKeys 3%Z firstRun) = 3%Z /\
  App.selectNumberOfKeys 1%Z (App.selectNumberOfKeys 3%Z firstRun) = firstRun /\
  (forall d', App.activeDesign (App.selectNumberOfKeys 3%Z firstRun) = Some d' ->
     App.keycapLettersByCount d' = App.keycapLettersByCount (App.createDefaultDesign "design-1" "Design 1" None) /\
     App.keycapSvgByCount d' = App.keycapSvgByCount (App.createDefaultDesign "design-1" "Design 1" None) /\
     App.keycapPositionsByCount d' = App.keycapPositionsByCount (App.createDefaultDesign "design-1" "Design 1" None))).
Proof.
  split; [unfold selected; vm_compute; split; [discriminate | reflexivity] |].
  split; [reflexivity |].
  split; [reflexivity |].
  apply (selectNumberOfKeys_round_trip 1%Z 3%Z firstRun (App.createDefaultDesign "design-1" "Design 1" None));
    [unfold selected; vm_compute; split; [discriminate | reflexivity] | reflexivity | reflexivity].
Defined.

End DesignToScene.
